(** * Deployment exporter: availability state machine and its two feeders

    A shallow embedding of [main.go] (the Kubernetes deployment exporter):
    [processDeployment], [collectResourceMetrics], [watchDeployments] and
    [periodicScrape], together with the properties of the availability
    state machine that the design document states about them.

    Conventions of the embedding.
    - Go's [int32]/[int64] fields are integers in [Z]; the only integer
      arithmetic of the program that can wrap (the usage sums) has its
      wrap-around written out.
    - [time.Time] is a number of nanoseconds since the Unix epoch and
      [time.Duration] a number of nanoseconds; [Sub] is the difference of
      the two readings, without the saturation of [Duration] at 2^63 ns
      and without the distinction of wall and monotonic clocks.
    - [float64] sample values are rationals in [Q].  [Duration.Seconds]
      is computed as the library does, with every [float64] operation
      rounded to the nearest value of 53 significant bits ([binary64]).
      The conversions [float64(n)] and the divisions written in the
      program itself are kept as exact rationals.
    - A [resource.Quantity] is its value, an exact rational.  [Value] and
      [MilliValue] give the scaled value rounded away from zero when it
      fits an [int64]; what the library answers when it does not fit
      depends on how it holds the quantity and is an answer of the [Env].
    - The Prometheus registry is a write-only sink.  Every [Set] and [Inc]
      is an [Effect] in program order, and [record] replays effects on a
      finite map from (metric name, label values) to the current value.
    - Calls to the cluster API are answered by an [Env] given with every
      observation. *)

From Stdlib Require Import QArith Qround Qabs Qpower Lqa.
From stdpp Require Import gmap strings list fin_maps pretty.

Open Scope string_scope.
Open Scope list_scope.
Open Scope Z_scope.

(** ** [float64] arithmetic

    A finite [float64] is a rational [m * 2^e] with [|m| < 2^53] and
    [e >= -1074].  [round] is the rounding of IEEE 754 to the nearest such
    value, ties to the even significand, that every [float64] operation
    of Go applies to its exact result.  The exponent is not bounded from
    above: a result of 2^1024 or more, which is an infinity in Go, is out
    of reach of the integers the program converts. *)

Module binary64.

Definition pow2 (e : Z) : Q := Qpower 2 e.

(** The integer part of the binary logarithm of a positive rational. *)
Definition ilog2 (q : Q) : Z :=
  let k := Z.log2 (Qnum q) - Z.log2 (Zpos (Qden q)) in
  if Qle_bool (pow2 k) q then k else k - 1.

(** The nearest integer, the even one of two that are equally near. *)
Definition nearestEven (q : Q) : Z :=
  let f := Qfloor q in
  match (q - inject_Z f ?= 1 # 2)%Q with
  | Lt => f
  | Gt => f + 1
  | Eq => if Z.even f then f else f + 1
  end.

(** The exponent of the leading bit; -1022 for a subnormal value. *)
Definition exponent (q : Q) : Z := Z.max (ilog2 (Qabs q)) (-1022).

Definition round (q : Q) : Q :=
  if Qeq_bool q 0 then 0%Q
  else let ulp := pow2 (exponent q - 52) in
       Qred (inject_Z (nearestEven (q / ulp)) * ulp).

(** [float64(n)], [x + y] and [x / y]. *)
Definition ofInt (n : Z) : Q := round (inject_Z n).
Definition add (x y : Q) : Q := round (x + y).
Definition div (x y : Q) : Q := round (x / y).

End binary64.

(** ** Time, durations and sample values *)

Module time.

(** Nanoseconds since the Unix epoch. *)
Definition Time := Z.
(** Nanoseconds. *)
Definition Duration := Z.

Definition Millisecond : Duration := 1000000.
Definition Second : Duration := 1000000000.

(** [t.Unix()]: whole seconds since the epoch. *)
Definition Unix (t : Time) : Z := t `div` Second.

(** [t.Sub(u)]. *)
Definition Sub (t u : Time) : Duration := t - u.

(** [d.Milliseconds()]: Go's integer division truncates toward zero. *)
Definition Milliseconds (d : Duration) : Z := d `quot` Millisecond.

(** [d.Seconds()]:
    [sec := d / Second; nsec := d % Second;
     return float64(sec) + float64(nsec)/1e9]. *)
Definition Seconds (d : Duration) : Q :=
  let sec := d `quot` Second in
  let nsec := d `rem` Second in
  binary64.add (binary64.ofInt sec) (binary64.div (binary64.ofInt nsec) 1000000000).

End time.

(** [float64(n)] for an integer [n] in the program. *)
Definition float64 (n : Z) : Q := inject_Z n.

(** ** [resource.Quantity] (k8s.io/apimachinery)

  A quantity is an exact decimal number.  [Value] and [MilliValue] are
  [ScaledValue] at the scales 0 and -3: the value, in units or in
  thousandths, rounded away from zero to an integer.  That integer is
  the answer when it fits an [int64].  When it does not, the answer of
  the library depends on how it holds the quantity (it is 0 for one held
  as an [int64] mantissa with a decimal exponent, and need not be 0 for
  one held as a big decimal) and is left open: it is the [overflowed]
  answer given. *)

Module resource.

Definition Quantity := Q.

Definition Scale := Z.
Definition Milli : Scale := -3.

(** The answer of [ScaledValue] for a quantity whose scaled value does
    not fit an [int64]. *)
Definition Overflowed := Quantity → Scale → Z.

Definition zero : Quantity := 0%Q.

Definition IsZero (q : Quantity) : bool := Qeq_bool q 0.

Definition Add (q y : Quantity) : Quantity := (q + y)%Q.

Definition roundUp (q : Q) : Z :=
  if Qle_bool 0 q then Qceiling q else Qfloor q.

(** The least [int64] itself is counted as not fitting, which leaves
    its answer open as well. *)
Definition fitsInt64 (v : Z) : bool := (- 2 ^ 63 <? v) && (v <? 2 ^ 63).

Definition int64 (overflowed v : Z) : Z := if fitsInt64 v then v else overflowed.

Definition Value (overflowed : Overflowed) (q : Quantity) : Z :=
  int64 (overflowed q 0) (roundUp q).

Definition MilliValue (overflowed : Overflowed) (q : Quantity) : Z :=
  int64 (overflowed q Milli) (roundUp (q * inject_Z 1000)%Q).

End resource.

(** ** Objects of the cluster API *)

Definition ResourceCPU : string := "cpu".
Definition ResourceMemory : string := "memory".

(** [corev1.ResourceList]: indexing a missing name gives the zero quantity. *)
Definition ResourceList := gmap string resource.Quantity.

Definition index (l : ResourceList) (name : string) : resource.Quantity :=
  default resource.zero (l !! name).

Record Container := {
  Requests : ResourceList;
  Limits : ResourceList;
}.

Record Pod := { Containers : list Container }.

(** [metricsv1beta1.PodMetrics]: one usage list per container. *)
Record PodMetrics := { MetricsContainers : list ResourceList }.

Record DeploymentCondition := {
  Type_ : string;
  Status : string;
}.

Record Deployment := {
  Namespace : string;
  Name : string;
  CreationTimestamp : time.Time;
  Generation : Z;
  (** [Spec.Replicas] is a [*int32]: [None] is the nil pointer. *)
  Replicas : option Z;
  (** [metav1.FormatLabelSelector(Spec.Selector)]. *)
  Selector : string;
  ObservedGeneration : Z;
  ReadyReplicas : Z;
  AvailableReplicas : Z;
  UnavailableReplicas : Z;
  UpdatedReplicas : Z;
  Conditions : list DeploymentCondition;
}.

(** A call that returns [(value, err)]. *)
Inductive Result (A : Type) :=
  | Ok (a : A)
  | Err (e : string).
Arguments Ok {A} a.
Arguments Err {A} e.

(** What the outside world answers during one call of
    [processDeployment]: the clock, the pod list and the pod metrics list
    for a namespace and a label selector, and what the quantity library
    answers for a scaled value that does not fit an [int64]. *)
Record Env := {
  Now : time.Time;
  PodsList : string → string → Result (list Pod);
  PodMetricsList : string → string → Result (list PodMetrics);
  Overflowed : resource.Overflowed;
}.

(** ** Metrics *)

Definition deploymentDowntimeDuration := "k8s_deployment_downtime_duration_seconds".
Definition deploymentRestartCount := "k8s_deployment_restart_total".
Definition deploymentStatus := "k8s_deployment_status".
Definition deploymentHeartbeat := "k8s_deployment_heartbeat_timestamp_seconds".
Definition deploymentRecoveryTimeMs := "k8s_deployment_recovery_time_milliseconds".
Definition deploymentDowntimeStart := "k8s_deployment_downtime_start_timestamp_seconds".
Definition deploymentConditionStatus := "k8s_deployment_condition_status".
Definition deploymentReplicasDesired := "k8s_deployment_replicas_desired".
Definition deploymentReplicasReady := "k8s_deployment_replicas_ready".
Definition deploymentReplicasAvailable := "k8s_deployment_replicas_available".
Definition deploymentReplicasUnavailable := "k8s_deployment_replicas_unavailable".
Definition deploymentReplicasUpdated := "k8s_deployment_replicas_updated".
Definition deploymentCreationTime := "k8s_deployment_created_timestamp_seconds".
Definition deploymentGeneration := "k8s_deployment_metadata_generation".
Definition deploymentObservedGeneration := "k8s_deployment_status_observed_generation".
Definition deploymentAvailabilityRatio := "k8s_deployment_availability_ratio".
Definition deploymentCPUUsage := "k8s_deployment_cpu_usage_millicores".
Definition deploymentMemoryUsage := "k8s_deployment_memory_usage_mebibytes".
Definition deploymentCPURequest := "k8s_deployment_cpu_request_millicores".
Definition deploymentMemoryRequest := "k8s_deployment_memory_request_mebibytes".
Definition deploymentCPULimit := "k8s_deployment_cpu_limit_millicores".
Definition deploymentMemoryLimit := "k8s_deployment_memory_limit_mebibytes".
Definition deploymentCPUUsagePercent := "k8s_deployment_cpu_usage_percent".
Definition deploymentMemoryUsagePercent := "k8s_deployment_memory_usage_percent".

(** The lines the program logs; the formatted text is not modelled. *)
Inductive LogLine :=
  | ErrorCreatingWatcher (err : string)
  | StartedWatching
  | WatchError
  | WatcherStopped
  | ErrorListingDeployments (err : string)
  | ErrorListingPods (ns name err : string)
  | Recovered (ns name : string) (seconds ms : Q)
  | WentDown (ns name : string).

(** What a run does to the outside, in program order. *)
Inductive Effect :=
  | GaugeSet (metric : string) (labels : list string) (v : Q)
  | CounterInc (metric : string) (labels : list string)
  | Log (l : LogLine)
  | WatcherStop
  | Sleep (d : time.Duration).

(** The registry: the current value of every sample written so far. *)
Abbreviation Registry := (gmap (string * list string) Q).

Definition record (r : Registry) (e : Effect) : Registry :=
  match e with
  | GaugeSet m ls v => <[(m, ls) := v]> r
  | CounterInc m ls => <[(m, ls) := (default 0 (r !! (m, ls)) + 1)%Q]> r
  | _ => r
  end.

Definition recordAll (es : list Effect) (r : Registry) : Registry :=
  foldl record r es.

(** ** The tracker and the monad of its methods *)

(** [DeploymentTracker]: [metricsClient] tells whether the metrics client
    is non-nil; the clientset is answered by [Env]. *)
Record DeploymentTracker := {
  metricsClient : bool;
  downtimeStart : gmap string time.Time;
  namespace : string;
}.

Definition setDowntimeStart (m : gmap string time.Time) (t : DeploymentTracker)
    : DeploymentTracker :=
  {| metricsClient := metricsClient t; downtimeStart := m; namespace := namespace t |}.

(** A method of the tracker: it may change the tracker and it appends
    effects. *)
Definition Prog (A : Type) : Type :=
  DeploymentTracker → A * DeploymentTracker * list Effect.

Definition ret {A} (a : A) : Prog A := λ t, (a, t, []).

Definition bind {A B} (m : Prog A) (k : A → Prog B) : Prog B :=
  λ t, let '(a, t1, es1) := m t in
       let '(b, t2, es2) := k a t1 in
       (b, t2, es1 ++ es2).

Declare Scope prog_scope.
Delimit Scope prog_scope with prog.
Bind Scope prog_scope with Prog.
Notation "x ← y ; z" := (bind y (λ x, z)) : prog_scope.
Notation "x ;; z" := (bind x (λ _, z)) : prog_scope.
Open Scope prog_scope.

Definition emit (e : Effect) : Prog unit := λ t, (tt, t, [e]).
Definition Set_ (metric : string) (labels : list string) (v : Q) : Prog unit :=
  emit (GaugeSet metric labels v).
Definition Inc (metric : string) (labels : list string) : Prog unit :=
  emit (CounterInc metric labels).
Definition logPrintf (l : LogLine) : Prog unit := emit (Log l).

Definition skip : Prog unit := ret tt.

(** [v, exists := t.downtimeStart[key]] *)
Definition lookupDowntimeStart (key : string) : Prog (option time.Time) :=
  λ t, (downtimeStart t !! key, t, []).
(** [t.downtimeStart[key] = now] *)
Definition storeDowntimeStart (key : string) (now : time.Time) : Prog unit :=
  λ t, (tt, setDowntimeStart (<[key := now]> (downtimeStart t)) t, []).
(** [delete(t.downtimeStart, key)] *)
Definition deleteDowntimeStart (key : string) : Prog unit :=
  λ t, (tt, setDowntimeStart (delete key (downtimeStart t)) t, []).

Definition hasMetricsClient : Prog bool := λ t, (metricsClient t, t, []).

(** [for _, x := range l { body x }] *)
Fixpoint forRange {A} (l : list A) (body : A → Prog unit) : Prog unit :=
  match l with
  | [] => skip
  | x :: l' => body x;; forRange l' body
  end.

Definition effects {A} (r : A * DeploymentTracker * list Effect) : list Effect := r.2.
Definition tracker {A} (r : A * DeploymentTracker * list Effect) : DeploymentTracker := r.1.2.

(** ** [collectResourceMetrics] *)

Definition wrap64 (z : Z) : Z := (z + 2^63) `mod` 2^64 - 2^63.

(** The four totals after the loops over pods and containers. *)
Record Totals := {
  totalCPURequest : resource.Quantity;
  totalMemoryRequest : resource.Quantity;
  totalCPULimit : resource.Quantity;
  totalMemoryLimit : resource.Quantity;
}.

Definition addNonZero (total q : resource.Quantity) : resource.Quantity :=
  if negb (resource.IsZero q) then resource.Add total q else total.

Definition addContainer (tot : Totals) (c : Container) : Totals :=
  {| totalCPURequest := addNonZero (totalCPURequest tot) (index (Requests c) ResourceCPU);
     totalMemoryRequest := addNonZero (totalMemoryRequest tot) (index (Requests c) ResourceMemory);
     totalCPULimit := addNonZero (totalCPULimit tot) (index (Limits c) ResourceCPU);
     totalMemoryLimit := addNonZero (totalMemoryLimit tot) (index (Limits c) ResourceMemory) |}.

Definition sumPods (pods : list Pod) : Totals :=
  foldl (λ tot pod, foldl addContainer tot (Containers pod))
        {| totalCPURequest := resource.zero; totalMemoryRequest := resource.zero;
           totalCPULimit := resource.zero; totalMemoryLimit := resource.zero |}
        pods.

(** [totalCPUUsage] and [totalMemoryUsage]: [int64] sums. *)
Definition addUsage (overflowed : resource.Overflowed) (acc : Z * Z)
    (usage : ResourceList) : Z * Z :=
  (wrap64 (acc.1 + resource.MilliValue overflowed (index usage ResourceCPU)),
   wrap64 (acc.2 + resource.Value overflowed (index usage ResourceMemory))).

Definition sumUsage (overflowed : resource.Overflowed) (pms : list PodMetrics) : Z * Z :=
  foldl (λ acc pm, foldl (addUsage overflowed) acc (MetricsContainers pm)) (0, 0) pms.

Definition when (b : bool) (p : Prog unit) : Prog unit := if b then p else skip.

Definition collectResourceMetrics (env : Env) (namespace deploymentName : string)
    (deployment : Deployment) : Prog unit :=
  let labelSelector := Selector deployment in
  match PodsList env namespace labelSelector with
  | Err err => logPrintf (ErrorListingPods namespace deploymentName err)
  | Ok pods =>
    let tot := sumPods pods in
    Set_ deploymentCPURequest [namespace; deploymentName]
         (float64 (resource.MilliValue (Overflowed env) (totalCPURequest tot)));;
    Set_ deploymentMemoryRequest [namespace; deploymentName]
         (float64 (resource.Value (Overflowed env) (totalMemoryRequest tot)) / 1024 / 1024)%Q;;
    Set_ deploymentCPULimit [namespace; deploymentName]
         (float64 (resource.MilliValue (Overflowed env) (totalCPULimit tot)));;
    Set_ deploymentMemoryLimit [namespace; deploymentName]
         (float64 (resource.Value (Overflowed env) (totalMemoryLimit tot)) / 1024 / 1024)%Q;;
    client ← hasMetricsClient;
    if client then
      match PodMetricsList env namespace labelSelector with
      | Err _ => skip
      | Ok podMetrics =>
        let '(totalCPUUsage, totalMemoryUsage) := sumUsage (Overflowed env) podMetrics in
        Set_ deploymentCPUUsage [namespace; deploymentName] (float64 totalCPUUsage);;
        Set_ deploymentMemoryUsage [namespace; deploymentName]
             (float64 totalMemoryUsage / 1024 / 1024)%Q;;
        when (0 <? resource.MilliValue (Overflowed env) (totalCPURequest tot))
          (let cpuPercent :=
             (float64 totalCPUUsage
              / float64 (resource.MilliValue (Overflowed env) (totalCPURequest tot))
              * 100)%Q in
           Set_ deploymentCPUUsagePercent [namespace; deploymentName] cpuPercent);;
        when (0 <? resource.Value (Overflowed env) (totalMemoryRequest tot))
          (let memPercent :=
             (float64 totalMemoryUsage
              / float64 (resource.Value (Overflowed env) (totalMemoryRequest tot))
              * 100)%Q in
           Set_ deploymentMemoryUsagePercent [namespace; deploymentName] memPercent)
      end
    else skip
  end.

(** ** [processDeployment] *)

(** [desiredReplicas]: 0 when [Spec.Replicas] is nil. *)
Definition desiredReplicas (deployment : Deployment) : Z :=
  match Replicas deployment with
  | Some r => r
  | None => 0
  end.

Definition isReady (deployment : Deployment) : bool :=
  (ReadyReplicas deployment =? desiredReplicas deployment)
  && (0 <? desiredReplicas deployment)
  && (UnavailableReplicas deployment =? 0).

(** The [switch] on the condition status. *)
Definition statusValue (conditionStatus : string) : Q :=
  if decide (conditionStatus = "True") then 1%Q
  else if decide (conditionStatus = "False") then 0%Q
  else (-1)%Q.

(** [fmt.Sprintf("%d", n)] *)
Definition Sprintf_d (n : Z) : string := pretty n.

Definition processDeployment (env : Env) (deployment : Deployment) : Prog unit :=
  let ns := Namespace deployment in
  let name := Name deployment in
  let key := ns +:+ "/" +:+ name in
  let now := Now env in
  Set_ deploymentHeartbeat [ns; name] (float64 (time.Unix now));;
  Set_ deploymentCreationTime [ns; name] (float64 (time.Unix (CreationTimestamp deployment)));;
  Set_ deploymentGeneration [ns; name] (float64 (Generation deployment));;
  Set_ deploymentObservedGeneration [ns; name] (float64 (ObservedGeneration deployment));;
  match Replicas deployment with
  | Some r => Set_ deploymentReplicasDesired [ns; name] (float64 r)
  | None => skip
  end;;
  Set_ deploymentReplicasReady [ns; name] (float64 (ReadyReplicas deployment));;
  Set_ deploymentReplicasAvailable [ns; name] (float64 (AvailableReplicas deployment));;
  Set_ deploymentReplicasUnavailable [ns; name] (float64 (UnavailableReplicas deployment));;
  Set_ deploymentReplicasUpdated [ns; name] (float64 (UpdatedReplicas deployment));;
  match Replicas deployment with
  | Some r =>
    let available := Sprintf_d (ReadyReplicas deployment) in
    let desired := Sprintf_d r in
    let ratio :=
      if 0 <? r then (float64 (ReadyReplicas deployment) / float64 r)%Q else 0%Q in
    Set_ deploymentAvailabilityRatio [ns; name; available; desired] ratio
  | None => skip
  end;;
  collectResourceMetrics env ns name deployment;;
  forRange (Conditions deployment) (λ condition,
    let conditionType := Type_ condition in
    let conditionStatus := Status condition in
    Set_ deploymentConditionStatus [ns; name; conditionType; conditionStatus]
         (statusValue conditionStatus));;
  if isReady deployment then
    Set_ deploymentStatus [ns; name] 1%Q;;
    found ← lookupDowntimeStart key;
    match found with
    | Some startTime =>
      let downtime := time.Sub now startTime in
      let downtimeSeconds := time.Seconds downtime in
      let downtimeMs := float64 (time.Milliseconds downtime) in
      logPrintf (Recovered ns name downtimeSeconds downtimeMs);;
      Set_ deploymentDowntimeDuration [ns; name] downtimeSeconds;;
      Set_ deploymentRecoveryTimeMs [ns; name] downtimeMs;;
      Inc deploymentRestartCount [ns; name];;
      deleteDowntimeStart key
    | None => skip
    end
  else
    Set_ deploymentStatus [ns; name] 0%Q;;
    found ← lookupDowntimeStart key;
    match found with
    | None =>
      storeDowntimeStart key now;;
      Set_ deploymentDowntimeStart [ns; name] (float64 (time.Unix now));;
      logPrintf (WentDown ns name)
    | Some _ => skip
    end.

(** ** The two feeders *)

(** One observation: a deployment object and what the outside world
    answers while it is processed. *)
Record Obs := {
  obsEnv : Env;
  obsDeployment : Deployment;
}.

Definition process (o : Obs) : Prog unit :=
  processDeployment (obsEnv o) (obsDeployment o).

Inductive EventType := Added | Modified | Deleted | Bookmark | Error.

(** [event.Object]: a [*appsv1.Deployment] or an object of another type
    (for an error event, a [*metav1.Status]). *)
Inductive Object :=
  | DeploymentObject (o : Obs)
  | OtherObject.

Record Event := {
  EventType_ : EventType;
  EventObject : Object;
}.

(** The answer to one [Watch] call: an error, or a watcher with the events
    its channel delivers before it is closed. *)
Inductive WatchAnswer :=
  | WatchFailed (err : string)
  | Watcher (events : list Event).

(** [for event := range watcher.ResultChan() { ... }] *)
Fixpoint rangeResultChan (events : list Event) : Prog unit :=
  match events with
  | [] => skip
  | event :: rest =>
    match EventType_ event with
    | Error => logPrintf WatchError (* break *)
    | _ =>
      match EventObject event with
      | OtherObject => rangeResultChan rest (* continue *)
      | DeploymentObject o => process o;; rangeResultChan rest
      end
    end
  end.

(** [watchDeployments], run against the answers to its successive [Watch]
    calls.  The [for] loop of the source has no exit; the run ends where
    the list of answers ends. *)
Fixpoint watchDeployments (answers : list WatchAnswer) : Prog unit :=
  match answers with
  | [] => skip
  | WatchFailed err :: rest =>
    logPrintf (ErrorCreatingWatcher err);;
    emit (Sleep (5 * time.Second));;
    watchDeployments rest (* continue *)
  | Watcher events :: rest =>
    logPrintf StartedWatching;;
    rangeResultChan events;;
    emit WatcherStop;;
    logPrintf WatcherStopped;;
    emit (Sleep (5 * time.Second));;
    watchDeployments rest
  end.

(** [periodicScrape], run against the answers to the [List] call of its
    successive ticks; an item of a list comes with the answers of the
    outside world during its processing. *)
Fixpoint periodicScrape (ticks : list (Result (list Obs))) : Prog unit :=
  match ticks with
  | [] => skip
  | Err err :: rest =>
    logPrintf (ErrorListingDeployments err);;
    periodicScrape rest (* continue *)
  | Ok items :: rest =>
    forRange items process;;
    periodicScrape rest
  end.

(** [main]: the tracker both feeders share. *)
Definition newTracker (client : bool) (ns : string) : DeploymentTracker :=
  {| metricsClient := client; downtimeStart := ∅; namespace := ns |}.

(** ** The state machine read off [processDeployment] *)

(** The key of the state store. *)
Definition keyOf (deployment : Deployment) : string :=
  Namespace deployment +:+ "/" +:+ Name deployment.

Definition labelsOf (deployment : Deployment) : list string :=
  [Namespace deployment; Name deployment].

(** The effects of lines 775-823, which do not depend on the verdict. *)
Definition headGauges (env : Env) (d : Deployment) : list Effect :=
  [ GaugeSet deploymentHeartbeat (labelsOf d) (float64 (time.Unix (Now env)));
    GaugeSet deploymentCreationTime (labelsOf d) (float64 (time.Unix (CreationTimestamp d)));
    GaugeSet deploymentGeneration (labelsOf d) (float64 (Generation d));
    GaugeSet deploymentObservedGeneration (labelsOf d) (float64 (ObservedGeneration d)) ].

Definition desiredGauge (d : Deployment) : list Effect :=
  match Replicas d with
  | Some r => [GaugeSet deploymentReplicasDesired (labelsOf d) (float64 r)]
  | None => []
  end.

Definition observedGauges (d : Deployment) : list Effect :=
  [ GaugeSet deploymentReplicasReady (labelsOf d) (float64 (ReadyReplicas d));
    GaugeSet deploymentReplicasAvailable (labelsOf d) (float64 (AvailableReplicas d));
    GaugeSet deploymentReplicasUnavailable (labelsOf d) (float64 (UnavailableReplicas d));
    GaugeSet deploymentReplicasUpdated (labelsOf d) (float64 (UpdatedReplicas d)) ].

Definition ratioGauge (d : Deployment) : list Effect :=
  match Replicas d with
  | Some r =>
    [GaugeSet deploymentAvailabilityRatio
       (labelsOf d ++ [Sprintf_d (ReadyReplicas d); Sprintf_d r])
       (if 0 <? r then (float64 (ReadyReplicas d) / float64 r)%Q else 0%Q)]
  | None => []
  end.

Definition resourceEffects (env : Env) (d : Deployment) (t : DeploymentTracker)
    : list Effect :=
  effects (collectResourceMetrics env (Namespace d) (Name d) d t).

Definition conditionGauge (d : Deployment) (c : DeploymentCondition) : Effect :=
  GaugeSet deploymentConditionStatus (labelsOf d ++ [Type_ c; Status c])
           (statusValue (Status c)).

Definition alwaysEffects (env : Env) (d : Deployment) (t : DeploymentTracker)
    : list Effect :=
  headGauges env d ++ desiredGauge d ++ observedGauges d ++ ratioGauge d
  ++ resourceEffects env d t ++ map (conditionGauge d) (Conditions d).

(** The effects of lines 835-865 for a given answer of the map. *)
Definition statusGauge (d : Deployment) : Effect :=
  GaugeSet deploymentStatus (labelsOf d) (if isReady d then 1%Q else 0%Q).

Definition settleEffects (env : Env) (d : Deployment) (found : option time.Time)
    : list Effect :=
  if isReady d then
    match found with
    | Some startTime =>
      let downtime := time.Sub (Now env) startTime in
      [ Log (Recovered (Namespace d) (Name d) (time.Seconds downtime)
                       (float64 (time.Milliseconds downtime)));
        GaugeSet deploymentDowntimeDuration (labelsOf d) (time.Seconds downtime);
        GaugeSet deploymentRecoveryTimeMs (labelsOf d) (float64 (time.Milliseconds downtime));
        CounterInc deploymentRestartCount (labelsOf d) ]
    | None => []
    end
  else
    match found with
    | None =>
      [ GaugeSet deploymentDowntimeStart (labelsOf d) (float64 (time.Unix (Now env)));
        Log (WentDown (Namespace d) (Name d)) ]
    | Some _ => []
    end.

(** The store after lines 835-865 for a given answer of the map. *)
Definition settleStore (env : Env) (d : Deployment) (found : option time.Time)
    (m : gmap string time.Time) : gmap string time.Time :=
  if isReady d then
    match found with
    | Some _ => delete (keyOf d) m
    | None => m
    end
  else
    match found with
    | None => <[keyOf d := Now env]> m
    | Some _ => m
    end.

Definition nextStore (env : Env) (d : Deployment) (m : gmap string time.Time)
    : gmap string time.Time :=
  settleStore env d (m !! keyOf d) m.

(** ** Verdict sequences *)

(** The Down→Up transitions of a sequence of verdicts, from a state that
    is Down when [down] holds. *)
Fixpoint downUpTransitions (down : bool) (verdicts : list bool) : nat :=
  match verdicts with
  | [] => 0
  | ready :: rest =>
    ((if down && ready then 1 else 0) + downUpTransitions (negb ready) rest)%nat
  end.

(** The Up→Down transitions, likewise. *)
Fixpoint upDownTransitions (down : bool) (verdicts : list bool) : nat :=
  match verdicts with
  | [] => 0
  | ready :: rest =>
    ((if negb down && negb ready then 1 else 0) + upDownTransitions (negb ready) rest)%nat
  end.

(** The verdict of the last observation of [key], if there is one. *)
Definition lastVerdict (key : string) (obs : list Obs) : option bool :=
  foldl (λ acc o, if decide (keyOf (obsDeployment o) = key)
                  then Some (isReady (obsDeployment o)) else acc) None obs.

Definition isSet (metric : string) (labels : list string) (e : Effect) : bool :=
  match e with
  | GaugeSet m ls _ => bool_decide (m = metric ∧ ls = labels)
  | _ => false
  end.

Definition isInc (metric : string) (labels : list string) (e : Effect) : bool :=
  match e with
  | CounterInc m ls => bool_decide (m = metric ∧ ls = labels)
  | _ => false
  end.

(** Writes to a metric, whatever the labels. *)
Definition writesMetric (metric : string) (e : Effect) : bool :=
  match e with
  | GaugeSet m _ _ => bool_decide (m = metric)
  | CounterInc m _ => bool_decide (m = metric)
  | _ => false
  end.

Definition countWhere (p : Effect → bool) (es : list Effect) : nat :=
  length (List.filter p es).

(** Recovery events of an entity: increments of its restart counter. *)
Definition recoveries (labels : list string) (es : list Effect) : nat :=
  countWhere (isInc deploymentRestartCount labels) es.

(** Start-of-downtime events of an entity. *)
Definition downtimeStarts (labels : list string) (es : list Effect) : nat :=
  countWhere (isSet deploymentDowntimeStart labels) es.

Definition sleeps (es : list Effect) : list time.Duration :=
  omap (λ e, match e with Sleep d => Some d | _ => None end) es.

(** Observations processed one after the other. *)
Definition processAll (obs : list Obs) : Prog unit := forRange obs process.

(** The observations a feeder processes: for the watch feeder, the
    deployment events of each watcher up to its first error event; for the
    poll feeder, the items of the lists that did not fail. *)
Fixpoint readObs (events : list Event) : list Obs :=
  match events with
  | [] => []
  | event :: rest =>
    match EventType_ event, EventObject event with
    | Error, _ => []
    | _, OtherObject => readObs rest
    | _, DeploymentObject o => o :: readObs rest
    end
  end.

Definition watchedObs (answers : list WatchAnswer) : list Obs :=
  flat_map (λ answer, match answer with
                      | WatchFailed _ => []
                      | Watcher events => readObs events
                      end) answers.

Definition polledObs (ticks : list (Result (list Obs))) : list Obs :=
  flat_map (λ tick, match tick with
                    | Ok items => items
                    | Err _ => []
                    end) ticks.

(** ** Overlapping calls

    [main] starts [watchDeployments] and [periodicScrape] as two
    goroutines on one tracker, and nothing orders their accesses to
    [downtimeStart].  A call of [processDeployment] touches the map twice,
    once to read [key] and once to write it; the model below lets the
    other goroutine run between the two. *)

Inductive Feeder := WatchFeeder | PollFeeder.

(** Lines 775-858: everything up to and including the read of the map. *)
Definition readPhase (o : Obs) : Prog (option time.Time) :=
  λ t, (downtimeStart t !! keyOf (obsDeployment o), t,
        alwaysEffects (obsEnv o) (obsDeployment o) t ++ [statusGauge (obsDeployment o)]).

(** The rest of the call, for the answer [found] the read gave. *)
Definition writePhase (o : Obs) (found : option time.Time) : Prog unit :=
  λ t, (tt,
        setDowntimeStart (settleStore (obsEnv o) (obsDeployment o) found (downtimeStart t)) t,
        settleEffects (obsEnv o) (obsDeployment o) found).

(** A goroutine: the call it is in, past the read, and the observations it
    has still to process. *)
Record Thread := {
  inFlight : option (Obs * option time.Time);
  queue : list Obs;
}.

Record System := {
  shared : DeploymentTracker;
  trace : list Effect;
  watchThread : Thread;
  pollThread : Thread;
}.

Definition stepThread (th : Thread) : Prog Thread :=
  match inFlight th with
  | Some (o, found) =>
    writePhase o found;; ret {| inFlight := None; queue := queue th |}
  | None =>
    match queue th with
    | [] => ret th
    | o :: rest =>
      found ← readPhase o; ret {| inFlight := Some (o, found); queue := rest |}
    end
  end.

Definition step (s : System) (f : Feeder) : System :=
  match f with
  | WatchFeeder =>
    let '(th, t, es) := stepThread (watchThread s) (shared s) in
    {| shared := t; trace := trace s ++ es; watchThread := th; pollThread := pollThread s |}
  | PollFeeder =>
    let '(th, t, es) := stepThread (pollThread s) (shared s) in
    {| shared := t; trace := trace s ++ es; watchThread := watchThread s; pollThread := th |}
  end.

Definition setThread (f : Feeder) (th : Thread) (s : System) : System :=
  match f with
  | WatchFeeder =>
    {| shared := shared s; trace := trace s; watchThread := th; pollThread := pollThread s |}
  | PollFeeder =>
    {| shared := shared s; trace := trace s; watchThread := watchThread s; pollThread := th |}
  end.

Definition thread (f : Feeder) (s : System) : Thread :=
  match f with
  | WatchFeeder => watchThread s
  | PollFeeder => pollThread s
  end.

Definition runSchedule (schedule : list Feeder) (s : System) : System :=
  foldl step s schedule.

Definition start (t : DeploymentTracker) (watched polled : list Obs) : System :=
  {| shared := t; trace := [];
     watchThread := {| inFlight := None; queue := watched |};
     pollThread := {| inFlight := None; queue := polled |} |}.

Definition idle (th : Thread) : bool :=
  match inFlight th, queue th with
  | None, [] => true
  | _, _ => false
  end.

Definition finished (s : System) : bool := idle (watchThread s) && idle (pollThread s).

(** A schedule in which every call runs to its end before the next one
    starts: the feeder named runs both steps of its next call. *)
Definition serial (order : list Feeder) : list Feeder :=
  flat_map (λ f, [f; f]) order.

Definition isFeeder (f g : Feeder) : bool :=
  match f, g with
  | WatchFeeder, WatchFeeder | PollFeeder, PollFeeder => true
  | _, _ => false
  end.

(** How many turns [order] gives to [f]. *)
Definition turns (f : Feeder) (order : list Feeder) : nat :=
  length (List.filter (isFeeder f) order).

(** The observations in the order a serial schedule processes them. *)
Fixpoint merge (order : list Feeder) (watched polled : list Obs) : list Obs :=
  match order with
  | [] => []
  | WatchFeeder :: order' =>
    match watched with
    | [] => merge order' [] polled
    | o :: watched' => o :: merge order' watched' polled
    end
  | PollFeeder :: order' =>
    match polled with
    | [] => merge order' watched []
    | o :: polled' => o :: merge order' watched polled'
    end
  end.

(** [l] is the two lists of calls in some order that keeps the order of
    each. *)
Inductive Interleaving : list Obs → list Obs → list Obs → Prop :=
  | Interleaving_nil : Interleaving [] [] []
  | Interleaving_watch o ws ps l :
      Interleaving ws ps l → Interleaving (o :: ws) ps (o :: l)
  | Interleaving_poll o ws ps l :
      Interleaving ws ps l → Interleaving ws (o :: ps) (o :: l).

(** What an interleaving of the feeders' calls would have to guarantee for
    the store to be safe under it: whatever the schedule, once all calls
    have returned, the store and the accounting of every entity are those
    of the same calls made one after the other in some order. *)
Definition SafeUnderInterleaving : Prop :=
  ∀ (t : DeploymentTracker) (watched polled : list Obs) (schedule : list Feeder),
    let s := runSchedule schedule (start t watched polled) in
    finished s = true →
    ∃ l, Interleaving watched polled l
         ∧ downtimeStart (shared s) = downtimeStart (tracker (processAll l t))
         ∧ ∀ labels,
             recoveries labels (trace s) = recoveries labels (effects (processAll l t))
             ∧ downtimeStarts labels (trace s)
               = downtimeStarts labels (effects (processAll l t)).

(** ** Which metrics a list of effects writes *)

Definition metricOf (e : Effect) : option string :=
  match e with
  | GaugeSet m _ _ => Some m
  | CounterInc m _ => Some m
  | _ => None
  end.

(** Every write of [es] is to one of [metrics]. *)
Definition onlyWrites (metrics : list string) (es : list Effect) : bool :=
  forallb (λ e, match metricOf e with
                | Some m => bool_decide (m ∈ metrics)
                | None => true
                end) es.

Definition resourceMetrics : list string :=
  [ deploymentCPURequest; deploymentMemoryRequest; deploymentCPULimit;
    deploymentMemoryLimit; deploymentCPUUsage; deploymentMemoryUsage;
    deploymentCPUUsagePercent; deploymentMemoryUsagePercent ].

(** The metrics of lines 775-823 outside [collectResourceMetrics]. *)
Definition gaugeMetrics : list string :=
  [ deploymentHeartbeat; deploymentCreationTime; deploymentGeneration;
    deploymentObservedGeneration; deploymentReplicasDesired; deploymentReplicasReady;
    deploymentReplicasAvailable; deploymentReplicasUnavailable;
    deploymentReplicasUpdated; deploymentAvailabilityRatio;
    deploymentConditionStatus ].

(** The metrics of the transitions of the state machine. *)
Definition transitionMetrics : list string :=
  [ deploymentDowntimeDuration; deploymentRecoveryTimeMs; deploymentRestartCount;
    deploymentDowntimeStart ].

(** The time since which [key] is down after [obs], read off the
    observations alone: a not-ready observation keeps an earlier time and
    otherwise gives its own, a ready one leaves none. *)
Definition downSince (key : string) (obs : list Obs) : option time.Time :=
  foldl (λ acc o, if decide (keyOf (obsDeployment o) = key)
                  then if isReady (obsDeployment o) then None
                       else Some (default (Now (obsEnv o)) acc)
                  else acc) None obs.

(** Writes of the transitions of the state machine. *)
Definition isTransitionWrite (e : Effect) : bool :=
  match metricOf e with
  | Some m => bool_decide (m ∈ transitionMetrics)
  | None => false
  end.

(** ** Sample inputs *)

(** The answer of the library for a quantity it holds as an [int64]
    mantissa: 0 when the scaled value does not fit. *)
Definition zeroOnOverflow : resource.Overflowed := λ _ _, 0.

(** A cluster with no pods for the selector and a metrics server. *)
Definition quietEnv (now : time.Time) : Env :=
  {| Now := now; PodsList := λ _ _, Ok []; PodMetricsList := λ _ _, Ok [];
     Overflowed := zeroOnOverflow |}.

(** The entity [prod/api] of the scenarios, with the given counts. *)
Definition api (desired : option Z) (ready unavailable : Z) : Deployment :=
  {| Namespace := "prod"; Name := "api"; CreationTimestamp := 0; Generation := 1;
     Replicas := desired; Selector := "app=api"; ObservedGeneration := 1;
     ReadyReplicas := ready; AvailableReplicas := ready;
     UnavailableReplicas := unavailable; UpdatedReplicas := ready;
     Conditions := [ {| Type_ := "Available"; Status := "True" |};
                     {| Type_ := "Progressing"; Status := "Unknown" |} ] |}.

Definition seconds (n : Z) : time.Time := n * time.Second.

(** [prod/api] seen at [now] with 3 replicas desired, all ready or none. *)
Definition seenUp (now : time.Time) : Obs :=
  {| obsEnv := quietEnv now; obsDeployment := api (Some 3) 3 0 |}.
Definition seenDown (now : time.Time) : Obs :=
  {| obsEnv := quietEnv now; obsDeployment := api (Some 3) 0 3 |}.

(** A container that requests a quarter of a CPU and 128 MiB, and one
    that requests nothing. *)
Definition smallContainer : Container :=
  {| Requests := {[ ResourceCPU := (1 # 4)%Q; ResourceMemory := inject_Z 134217728 ]};
     Limits := {[ ResourceCPU := (1 # 2)%Q ]} |}.
Definition bareContainer : Container := {| Requests := ∅; Limits := ∅ |}.

Definition someUsage : list PodMetrics :=
  [ {| MetricsContainers :=
         [ {[ ResourceCPU := (1 # 10)%Q; ResourceMemory := inject_Z 67108864 ]} ] |} ].

(** Two pods with requests, and one pod without. *)
Definition busyEnv (now : time.Time) : Env :=
  {| Now := now;
     PodsList := λ _ _, Ok [ {| Containers := [smallContainer; bareContainer] |};
                             {| Containers := [smallContainer] |} ];
     PodMetricsList := λ _ _, Ok someUsage;
     Overflowed := zeroOnOverflow |}.
Definition bareEnv (now : time.Time) : Env :=
  {| Now := now;
     PodsList := λ _ _, Ok [ {| Containers := [bareContainer] |} ];
     PodMetricsList := λ _ _, Ok someUsage;
     Overflowed := zeroOnOverflow |}.

(** One pod that requests 10^16 CPUs ("10P" in the notation of the API). *)
Definition hugeEnv (now : time.Time) : Env :=
  {| Now := now;
     PodsList := λ _ _,
       Ok [ {| Containers :=
                 [ {| Requests := {[ ResourceCPU := inject_Z (10 ^ 16) ]};
                      Limits := ∅ |} ] |} ];
     PodMetricsList := λ _ _, Ok someUsage;
     Overflowed := zeroOnOverflow |}.

(** The pod list fails. *)
Definition brokenEnv (now : time.Time) : Env :=
  {| Now := now;
     PodsList := λ _ _, Err "connection refused";
     PodMetricsList := λ _ _, Ok someUsage;
     Overflowed := zeroOnOverflow |}.

Definition modified (o : Obs) : Event :=
  {| EventType_ := Modified; EventObject := DeploymentObject o |}.

(** An error event: its object is a status, not a deployment. *)
Definition errorEvent : Event := {| EventType_ := Error; EventObject := OtherObject |}.

(** ** The metric vectors and their registration *)

Inductive VecKind := GaugeVec | CounterVec.

(** A metric vector of the [var] block: its name and its label names. *)
Record Vec := {
  vecName : string;
  vecKind : VecKind;
  vecLabels : list string;
}.

Definition entityLabels : list string := ["namespace"; "deployment"].

(** The vectors [init] registers, in its order. *)
Definition registeredVecs : list Vec :=
  [ {| vecName := deploymentDowntimeDuration; vecKind := GaugeVec; vecLabels := entityLabels |};
    {| vecName := deploymentRestartCount; vecKind := CounterVec; vecLabels := entityLabels |};
    {| vecName := deploymentStatus; vecKind := GaugeVec; vecLabels := entityLabels |};
    {| vecName := deploymentHeartbeat; vecKind := GaugeVec; vecLabels := entityLabels |};
    {| vecName := deploymentRecoveryTimeMs; vecKind := GaugeVec; vecLabels := entityLabels |};
    {| vecName := deploymentDowntimeStart; vecKind := GaugeVec; vecLabels := entityLabels |};
    {| vecName := deploymentConditionStatus; vecKind := GaugeVec;
       vecLabels := ["namespace"; "deployment"; "condition"; "status"] |};
    {| vecName := deploymentReplicasDesired; vecKind := GaugeVec; vecLabels := entityLabels |};
    {| vecName := deploymentReplicasReady; vecKind := GaugeVec; vecLabels := entityLabels |};
    {| vecName := deploymentReplicasAvailable; vecKind := GaugeVec; vecLabels := entityLabels |};
    {| vecName := deploymentReplicasUnavailable; vecKind := GaugeVec;
       vecLabels := entityLabels |};
    {| vecName := deploymentReplicasUpdated; vecKind := GaugeVec; vecLabels := entityLabels |};
    {| vecName := deploymentCreationTime; vecKind := GaugeVec; vecLabels := entityLabels |};
    {| vecName := deploymentGeneration; vecKind := GaugeVec; vecLabels := entityLabels |};
    {| vecName := deploymentObservedGeneration; vecKind := GaugeVec;
       vecLabels := entityLabels |};
    {| vecName := deploymentAvailabilityRatio; vecKind := GaugeVec;
       vecLabels := ["namespace"; "deployment"; "available"; "desired"] |};
    {| vecName := deploymentCPUUsage; vecKind := GaugeVec; vecLabels := entityLabels |};
    {| vecName := deploymentMemoryUsage; vecKind := GaugeVec; vecLabels := entityLabels |};
    {| vecName := deploymentCPURequest; vecKind := GaugeVec; vecLabels := entityLabels |};
    {| vecName := deploymentMemoryRequest; vecKind := GaugeVec; vecLabels := entityLabels |};
    {| vecName := deploymentCPULimit; vecKind := GaugeVec; vecLabels := entityLabels |};
    {| vecName := deploymentMemoryLimit; vecKind := GaugeVec; vecLabels := entityLabels |};
    {| vecName := deploymentCPUUsagePercent; vecKind := GaugeVec; vecLabels := entityLabels |};
    {| vecName := deploymentMemoryUsagePercent; vecKind := GaugeVec;
       vecLabels := entityLabels |} ].

Definition isKind (k1 k2 : VecKind) : bool :=
  match k1, k2 with
  | GaugeVec, GaugeVec | CounterVec, CounterVec => true
  | _, _ => false
  end.

(** [WithLabelValues] on a registered vector of the kind the call needs,
    with as many values as the vector has label names; with another
    number of values it panics. *)
Definition accepts (kind : VecKind) (metric : string) (labels : list string) : bool :=
  existsb (λ v, bool_decide (vecName v = metric) && isKind (vecKind v) kind
                && bool_decide (length labels = length (vecLabels v)))
          registeredVecs.

Definition wellFormedWrite (e : Effect) : bool :=
  match e with
  | GaugeSet m ls _ => accepts GaugeVec m ls
  | CounterInc m ls => accepts CounterVec m ls
  | _ => true
  end.

(** Writes to the registry, as opposed to log lines and sleeps. *)
Definition isWrite (e : Effect) : bool :=
  match e with
  | GaugeSet _ _ _ | CounterInc _ _ => true
  | _ => false
  end.

(** The gauges of lines 775-802. *)
Definition plainGauges : list string :=
  [ deploymentHeartbeat; deploymentCreationTime; deploymentGeneration;
    deploymentObservedGeneration; deploymentReplicasDesired; deploymentReplicasReady;
    deploymentReplicasAvailable; deploymentReplicasUnavailable;
    deploymentReplicasUpdated; deploymentAvailabilityRatio ].

(** The gauges that need the metrics server. *)
Definition usageMetrics : list string :=
  [ deploymentCPUUsage; deploymentMemoryUsage; deploymentCPUUsagePercent;
    deploymentMemoryUsagePercent ].

(** ** Entities and keys *)

Fixpoint noSlash (s : string) : bool :=
  match s with
  | EmptyString => true
  | String c s' => negb (Ascii.eqb c (Ascii.ascii_of_nat 47)) && noSlash s'
  end.

(** The observations of the entity with the given labels. *)
Definition observationsOf (labels : list string) (obs : list Obs) : list Obs :=
  List.filter (λ o, bool_decide (labelsOf (obsDeployment o) = labels)) obs.

(** ** Plain sums of requests, limits and usage *)

(** The sum of [f] over all containers of all pods, zero entries
    included. *)
Definition sumOver (f : Container → Q) (pods : list Pod) : Q :=
  foldl (λ acc pod, foldl (λ a c, (a + f c)%Q) acc (Containers pod)) 0%Q pods.

(** The usage lists of all containers of all pod metrics, in order. *)
Definition allUsage (pms : list PodMetrics) : list ResourceList :=
  flat_map MetricsContainers pms.

Definition sumZ (l : list Z) : Z := foldr Z.add 0 l.

(** ** [getKubeConfig] and [main] *)

(** What the process finds when it starts: the in-cluster configuration,
    the environment, the home directory, the configuration a kubeconfig
    file gives, and whether the two clients can be made from a
    configuration. *)
Record Host (Config : Type) := {
  InClusterConfig : Result Config;
  Getenv : string → string;
  UserHomeDir : Result string;
  BuildConfigFromFlags : string → string → Result Config;
  NewForConfig : Config → Result unit;
  NewMetricsForConfig : Config → Result unit;
}.
Arguments InClusterConfig {Config} _.
Arguments Getenv {Config} _ _.
Arguments UserHomeDir {Config} _.
Arguments BuildConfigFromFlags {Config} _ _ _.
Arguments NewForConfig {Config} _ _.
Arguments NewMetricsForConfig {Config} _ _.

(** What the start of the process does to the outside. *)
Inductive StartupEvent :=
  | TriedInCluster
  | LoggedInClusterFailed
  | BuiltFrom (masterUrl kubeconfigPath : string)
  | LoggedMetricsClientWarning (err : string)
  | Started_ (f : Feeder).

(** [homeDir, _ := os.UserHomeDir()]: the error is dropped and the
    directory is then the empty string. *)
Definition homeDirOf {Config} (host : Host Config) : string :=
  match UserHomeDir host with
  | Ok dir => dir
  | Err _ => ""
  end.

Definition getKubeConfig {Config} (host : Host Config) (kubeconfig : string)
    : Result Config * list StartupEvent :=
  let inCluster :=
    if decide (kubeconfig = "") then Some (InClusterConfig host) else None in
  match inCluster with
  | Some (Ok config) => (Ok config, [TriedInCluster])
  | _ =>
    let tried :=
      match inCluster with
      | Some _ => [TriedInCluster; LoggedInClusterFailed]
      | None => []
      end in
    let kubeconfig1 :=
      if decide (kubeconfig = "") then Getenv host "KUBECONFIG" else kubeconfig in
    let kubeconfig2 :=
      if decide (kubeconfig1 = "") then homeDirOf host +:+ "/.kube/config"
      else kubeconfig1 in
    (BuildConfigFromFlags host "" kubeconfig2, tried ++ [BuiltFrom "" kubeconfig2])
  end.

(** The command line. *)
Record Flags := {
  kubeconfig : string;
  namespaceFlag : string;
  metricsAddr : string;
  scrapeInterval : Z;
}.

(** The flags when none is given. *)
Definition defaultFlags : Flags :=
  {| kubeconfig := ""; namespaceFlag := ""; metricsAddr := ":9101"; scrapeInterval := 15 |}.

(** [time.Duration(scrapeInterval) * time.Second], an [int64] product; the
    flag is an [int], of 64 bits on the amd64 target of the build. *)
Definition scrapeDuration (scrapeInterval : Z) : time.Duration :=
  wrap64 (scrapeInterval * time.Second).

(** [time.NewTicker(d)] panics for a duration that is not positive;
    [None] is the panic. *)
Definition NewTicker (d : time.Duration) : option time.Duration :=
  if 0 <? d then Some d else None.

(** [main] up to the start of the two goroutines: [log.Fatalf] ends the
    process, otherwise the feeders share a new tracker and the poll feeder
    gets its interval. *)
Inductive Startup :=
  | Fatal (err : string) (events : list StartupEvent)
  | Serving (t : DeploymentTracker) (interval : time.Duration) (addr : string)
            (events : list StartupEvent).

Definition main {Config} (host : Host Config) (flags : Flags) : Startup :=
  match getKubeConfig host (kubeconfig flags) with
  | (Err err, events) => Fatal err events
  | (Ok config, events) =>
    match NewForConfig host config with
    | Err err => Fatal err events
    | Ok _ =>
      let '(client, warning) :=
        match NewMetricsForConfig host config with
        | Ok _ => (true, [])
        | Err err => (false, [LoggedMetricsClientWarning err])
        end in
      Serving {| metricsClient := client; downtimeStart := ∅;
                 namespace := namespaceFlag flags |}
              (scrapeDuration (scrapeInterval flags))
              (metricsAddr flags)
              (events ++ warning ++ [Started_ WatchFeeder; Started_ PollFeeder])
    end
  end.

(** [periodicScrape(interval)]: the ticker is made first. *)
Definition periodicScrapeEvery (interval : time.Duration)
    (ticks : list (Result (list Obs))) : option (Prog unit) :=
  match NewTicker interval with
  | Some _ => Some (periodicScrape ticks)
  | None => None
  end.

(** ** More sample inputs *)

(** A second entity, [prod/web], and two entities whose keys collide. *)
Definition web (ready unavailable : Z) : Deployment :=
  {| Namespace := "prod"; Name := "web"; CreationTimestamp := 0; Generation := 1;
     Replicas := Some 2; Selector := "app=web"; ObservedGeneration := 1;
     ReadyReplicas := ready; AvailableReplicas := ready;
     UnavailableReplicas := unavailable; UpdatedReplicas := ready;
     Conditions := [ {| Type_ := "Available";
                        Status := if 0 <? ready then "True" else "False" |} ] |}.

Definition webUp (now : time.Time) : Obs :=
  {| obsEnv := quietEnv now; obsDeployment := web 2 0 |}.
Definition webDown (now : time.Time) : Obs :=
  {| obsEnv := quietEnv now; obsDeployment := web 0 2 |}.

(** A host with no in-cluster configuration and a kubeconfig file under
    the home directory of [root]. *)
Definition laptop : Host string :=
  {| InClusterConfig := Err "not in a cluster";
     Getenv := λ _, "";
     UserHomeDir := Ok "/root";
     BuildConfigFromFlags := λ _ path,
       if decide (path = "/root/.kube/config") then Ok "laptop" else Err "no such file";
     NewForConfig := λ _, Ok tt;
     NewMetricsForConfig := λ _, Err "metrics API not served" |}.

(** Closed facts about metric names, by evaluation. *)
Ltac by_evaluation := apply (bool_decide_unpack _); vm_compute; exact I.

(** * Properties *)

(** ** Running the monad *)

Lemma collectResourceMetrics_run env ns name d t :
  collectResourceMetrics env ns name d t
  = (tt, t, effects (collectResourceMetrics env ns name d t)).
Proof.
  unfold collectResourceMetrics, effects.
  destruct (PodsList env ns (Selector d)) as [pods|err]; [|reflexivity].
  unfold bind, hasMetricsClient, Set_, emit; simpl.
  destruct (metricsClient t); [|reflexivity].
  destruct (PodMetricsList env ns (Selector d)) as [pms|err]; [|reflexivity].
  destruct (sumUsage _ pms) as [cpu mem]. unfold when.
  destruct (0 <? resource.MilliValue _ _), (0 <? resource.Value _ _); reflexivity.
Qed.

Lemma forRange_Set {A} metric (labels : A → list string) (value : A → Q) l t :
  forRange l (λ x, Set_ metric (labels x) (value x)) t
  = (tt, t, map (λ x, GaugeSet metric (labels x) (value x)) l).
Proof.
  induction l as [|x l IH]; [reflexivity|].
  simpl. unfold bind. simpl. rewrite IH. reflexivity.
Qed.

Lemma processDeployment_run env d t :
  processDeployment env d t
  = (tt, setDowntimeStart (nextStore env d (downtimeStart t)) t,
     alwaysEffects env d t
     ++ statusGauge d :: settleEffects env d (downtimeStart t !! keyOf d)).
Proof.
  destruct t as [client store nsT].
  unfold processDeployment, alwaysEffects, resourceEffects, desiredGauge, ratioGauge,
    statusGauge, settleEffects, nextStore, settleStore, keyOf, bind.
  destruct (Replicas d) as [r|];
    cbn -[collectResourceMetrics forRange];
    rewrite collectResourceMetrics_run;
    cbn -[collectResourceMetrics forRange];
    rewrite forRange_Set;
    destruct (isReady d);
    cbn -[collectResourceMetrics];
    destruct (store !! _); cbn -[collectResourceMetrics];
    rewrite <- ?app_assoc; reflexivity.
Qed.

Lemma process_run o t :
  process o t
  = (tt, setDowntimeStart (nextStore (obsEnv o) (obsDeployment o) (downtimeStart t)) t,
     alwaysEffects (obsEnv o) (obsDeployment o) t
     ++ statusGauge (obsDeployment o)
        :: settleEffects (obsEnv o) (obsDeployment o)
             (downtimeStart t !! keyOf (obsDeployment o))).
Proof. apply processDeployment_run. Qed.

(** ** The registry *)

Lemma recordAll_app (es1 es2 : list Effect) (r : Registry) :
  recordAll (es1 ++ es2) r = recordAll es2 (recordAll es1 r).
Proof. unfold recordAll. apply foldl_app. Qed.

Lemma record_frame (metric : string) (labels : list string) (e : Effect) (r : Registry) :
  writesMetric metric e = false →
  record r e !! (metric, labels) = r !! (metric, labels).
Proof.
  destruct e as [m ls v|m ls| | |]; simpl; try reflexivity;
    intros Hm; apply bool_decide_eq_false in Hm;
    apply lookup_insert_ne; congruence.
Qed.

(** Effects that do not write a metric leave all its samples as they
    were. *)
Lemma recordAll_frame (metric : string) (labels : list string) (es : list Effect) (r : Registry) :
  forallb (λ e, negb (writesMetric metric e)) es = true →
  recordAll es r !! (metric, labels) = r !! (metric, labels).
Proof.
  revert r. induction es as [|e es IH]; intros r; simpl; [reflexivity|].
  intros [He Hes]%andb_true_iff. apply negb_true_iff in He.
  unfold recordAll in *. simpl. rewrite IH by exact Hes.
  apply record_frame, He.
Qed.

Lemma onlyWrites_app metrics es1 es2 :
  onlyWrites metrics (es1 ++ es2) = onlyWrites metrics es1 && onlyWrites metrics es2.
Proof. unfold onlyWrites. apply forallb_app. Qed.

Lemma onlyWrites_frame (metric : string) metrics es :
  onlyWrites metrics es = true →
  metric ∉ metrics →
  forallb (λ e, negb (writesMetric metric e)) es = true.
Proof.
  intros Hes Hm. unfold onlyWrites in Hes. rewrite forallb_forall in *.
  intros e He. specialize (Hes e He). apply negb_true_iff.
  destruct e as [m ls v|m ls| | |]; simpl in *; try reflexivity;
    apply bool_decide_eq_false; intros ->;
    apply bool_decide_eq_true in Hes; contradiction.
Qed.

Lemma resourceEffects_onlyWrites env d t :
  onlyWrites resourceMetrics (resourceEffects env d t) = true.
Proof.
  unfold resourceEffects, collectResourceMetrics, effects.
  destruct (PodsList env _ _) as [pods|err]; [|reflexivity].
  unfold bind, hasMetricsClient, Set_, emit; simpl.
  destruct (metricsClient t); [|reflexivity].
  destruct (PodMetricsList env _ _) as [pms|err]; [|reflexivity].
  destruct (sumUsage _ pms) as [cpu mem]. unfold when.
  destruct (0 <? resource.MilliValue _ _), (0 <? resource.Value _ _); reflexivity.
Qed.

Lemma conditionGauges_onlyWrites d cs :
  onlyWrites gaugeMetrics (map (conditionGauge d) cs) = true.
Proof. induction cs as [|c cs IH]; [reflexivity|]. simpl. exact IH. Qed.

Lemma onlyWrites_mono metrics1 metrics2 es :
  metrics1 ⊆ metrics2 →
  onlyWrites metrics1 es = true → onlyWrites metrics2 es = true.
Proof.
  intros Hsub. unfold onlyWrites. rewrite !forallb_forall.
  intros Hes e He. specialize (Hes e He).
  destruct (metricOf e) as [m|]; [|reflexivity].
  apply bool_decide_eq_true. apply bool_decide_eq_true in Hes. auto.
Qed.

Lemma alwaysEffects_onlyWrites env d t :
  onlyWrites (gaugeMetrics ++ resourceMetrics) (alwaysEffects env d t) = true.
Proof.
  unfold alwaysEffects. rewrite !onlyWrites_app.
  assert (onlyWrites (gaugeMetrics ++ resourceMetrics) (desiredGauge d) = true) as ->.
  { unfold desiredGauge. destruct (Replicas d); reflexivity. }
  assert (onlyWrites (gaugeMetrics ++ resourceMetrics) (ratioGauge d) = true) as ->.
  { unfold ratioGauge. destruct (Replicas d); reflexivity. }
  rewrite (onlyWrites_mono resourceMetrics _ (resourceEffects env d t)).
  - rewrite (onlyWrites_mono gaugeMetrics _ (map _ _)).
    + reflexivity.
    + intros m Hm. apply elem_of_app. left. exact Hm.
    + apply conditionGauges_onlyWrites.
  - intros m Hm. apply elem_of_app. right. exact Hm.
  - apply resourceEffects_onlyWrites.
Qed.

Lemma settleEffects_onlyWrites env d found :
  onlyWrites transitionMetrics (settleEffects env d found) = true.
Proof. unfold settleEffects. destruct (isReady d), found; reflexivity. Qed.

Lemma effects_processDeployment env d t :
  effects (processDeployment env d t)
  = alwaysEffects env d t
    ++ statusGauge d :: settleEffects env d (downtimeStart t !! keyOf d).
Proof. rewrite processDeployment_run. reflexivity. Qed.

Lemma tracker_processDeployment env d t :
  tracker (processDeployment env d t)
  = setDowntimeStart (nextStore env d (downtimeStart t)) t.
Proof. rewrite processDeployment_run. reflexivity. Qed.

Lemma isReady_spec d :
  isReady d = true
  ↔ ReadyReplicas d = desiredReplicas d ∧ 0 < desiredReplicas d ∧ UnavailableReplicas d = 0.
Proof.
  unfold isReady. rewrite !andb_true_iff, !Z.eqb_eq, Z.ltb_lt. tauto.
Qed.

Lemma filter_none (p : Effect → bool) es :
  forallb (λ e, negb (p e)) es = true → List.filter p es = [].
Proof.
  induction es as [|e es IH]; simpl; [reflexivity|].
  intros [He Hes]%andb_true_iff. apply negb_true_iff in He. rewrite He. auto.
Qed.

Lemma alwaysEffects_frame (metric : string) env d t :
  metric ∉ gaugeMetrics ++ resourceMetrics →
  forallb (λ e, negb (writesMetric metric e)) (alwaysEffects env d t) = true.
Proof. intros Hm. eapply onlyWrites_frame; [apply alwaysEffects_onlyWrites|exact Hm]. Qed.

Lemma settleEffects_frame (metric : string) env d found :
  metric ∉ transitionMetrics →
  forallb (λ e, negb (writesMetric metric e)) (settleEffects env d found) = true.
Proof. intros Hm. eapply onlyWrites_frame; [apply settleEffects_onlyWrites|exact Hm]. Qed.

(** The status gauge is written once in a call, after the gauges that do
    not depend on the verdict. *)
Lemma status_written_once env d t :
  List.filter (writesMetric deploymentStatus) (effects (processDeployment env d t))
  = [statusGauge d].
Proof.
  rewrite effects_processDeployment, List.filter_app.
  rewrite filter_none by (apply alwaysEffects_frame; by_evaluation).
  change (List.filter ?p (statusGauge d :: ?es)) with (statusGauge d :: List.filter p es).
  rewrite filter_none by (apply settleEffects_frame; by_evaluation).
  reflexivity.
Qed.

Lemma status_recorded (env : Env) (d : Deployment) (t : DeploymentTracker) (r : Registry) :
  recordAll (effects (processDeployment env d t)) r !! (deploymentStatus, labelsOf d)
  = Some (if isReady d then 1%Q else 0%Q).
Proof.
  rewrite effects_processDeployment, recordAll_app.
  change (recordAll (?e :: ?es) ?r) with (recordAll es (record r e)).
  rewrite recordAll_frame by (apply settleEffects_frame; by_evaluation).
  apply lookup_insert_eq.
Qed.

(** C1. The verdict is "ready" exactly when the ready count equals the
    desired count, the desired count is positive and no replica is
    unavailable.  The desired count is the one of the specification when
    it is set, and 0 when it is absent: the verdict is "ready" exactly
    when a count is set, is positive, equals the ready count, and no
    replica is unavailable.  A ready entity has the status gauge set to 1.
    With a desired count of 0, set or absent, the verdict is "not ready":
    the one write of the call to the status gauge sets it to 0, and 0 is
    its recorded value after the call, whatever the other counts are. *)
Theorem readiness_verdict (env : Env) (d : Deployment) (t : DeploymentTracker)
    (r : Registry) :
  (isReady d = true
   ↔ ReadyReplicas d = desiredReplicas d
     ∧ 0 < desiredReplicas d
     ∧ UnavailableReplicas d = 0)
  ∧ (∀ n : Z, Replicas d = Some n → desiredReplicas d = n)
  ∧ (Replicas d = None → desiredReplicas d = 0)
  ∧ (isReady d = true
     ↔ ∃ n : Z, Replicas d = Some n
                ∧ ReadyReplicas d = n ∧ 0 < n ∧ UnavailableReplicas d = 0)
  ∧ (isReady d = true →
     List.filter (writesMetric deploymentStatus) (effects (processDeployment env d t))
     = [GaugeSet deploymentStatus (labelsOf d) 1]
     ∧ recordAll (effects (processDeployment env d t)) r !! (deploymentStatus, labelsOf d)
       = Some 1%Q)
  ∧ (desiredReplicas d = 0 →
     isReady d = false
     ∧ List.filter (writesMetric deploymentStatus) (effects (processDeployment env d t))
       = [GaugeSet deploymentStatus (labelsOf d) 0]
     ∧ recordAll (effects (processDeployment env d t)) r !! (deploymentStatus, labelsOf d)
       = Some 0%Q).
Proof.
  pose proof (status_recorded env d t r) as Hrec.
  pose proof (status_written_once env d t) as Honce.
  unfold statusGauge in Honce.
  split; [apply isReady_spec|]. split.
  { unfold desiredReplicas. intros n ->. reflexivity. }
  split.
  { unfold desiredReplicas. intros ->. reflexivity. }
  split.
  { rewrite isReady_spec. unfold desiredReplicas.
    destruct (Replicas d) as [n|]; split.
    - intros (Hready & Hpos & Hnone). exists n. auto.
    - intros (n' & [= <-] & Hready & Hpos & Hnone). auto.
    - lia.
    - intros (n' & [=] & _). }
  split.
  { intros Hready. rewrite Hready in Hrec, Honce. split; assumption. }
  intros Hzero.
  assert (isReady d = false) as Hnot.
  { apply not_true_is_false. rewrite isReady_spec. lia. }
  split; [exact Hnot|].
  rewrite Hnot in Hrec, Honce. split; assumption.
Qed.

(** C1 at [prod/api] with 3 replicas desired, 3 ready and none
    unavailable, which is ready and has the status 1; with one of the 3
    unavailable, which is not ready; and scaled to zero, with no replica
    ready and none unavailable, which is not ready and has the status 0. *)
Lemma readiness_verdict_witness :
  (isReady (api (Some 3) 3 0) = true
   ∧ desiredReplicas (api (Some 3) 3 0) = 3
   ∧ List.filter (writesMetric deploymentStatus)
       (effects (processDeployment (quietEnv 0) (api (Some 3) 3 0) (newTracker true "")))
     = [GaugeSet deploymentStatus ["prod"; "api"] 1]
   ∧ recordAll (effects (processDeployment (quietEnv 0) (api (Some 3) 3 0)
                           (newTracker true ""))) ∅
     !! (deploymentStatus, ["prod"; "api"]) = Some 1%Q)
  ∧ isReady (api (Some 3) 2 1) = false
  ∧ (isReady (api (Some 0) 0 0) = false
     ∧ List.filter (writesMetric deploymentStatus)
         (effects (processDeployment (quietEnv 0) (api (Some 0) 0 0) (newTracker true "")))
       = [GaugeSet deploymentStatus ["prod"; "api"] 0]
     ∧ recordAll (effects (processDeployment (quietEnv 0) (api (Some 0) 0 0)
                             (newTracker true ""))) ∅
       !! (deploymentStatus, ["prod"; "api"]) = Some 0%Q).
Proof.
  destruct (readiness_verdict (quietEnv 0) (api (Some 3) 3 0) (newTracker true "") ∅)
    as (_ & Hset & _ & Hverdict & Hstatus & _).
  assert (isReady (api (Some 3) 3 0) = true) as Hready.
  { apply Hverdict. exists 3. repeat split; reflexivity. }
  split.
  { split; [exact Hready|]. split; [apply Hset; reflexivity|]. apply Hstatus, Hready. }
  destruct (readiness_verdict (quietEnv 0) (api (Some 3) 2 1) (newTracker true "") ∅)
    as (_ & _ & _ & Hverdict' & _).
  split.
  { apply not_true_is_false. intros (n & [= <-] & Hcount & _)%Hverdict'. discriminate Hcount. }
  apply (readiness_verdict (quietEnv 0) (api (Some 0) 0 0) (newTracker true "") ∅).
  reflexivity.
Defined.

(** ** The state store *)

Lemma nextStore_lookup env d (m : gmap string time.Time) (key : string) :
  nextStore env d m !! key
  = if decide (keyOf d = key)
    then if isReady d then None else Some (default (Now env) (m !! keyOf d))
    else m !! key.
Proof.
  unfold nextStore, settleStore.
  destruct (decide (keyOf d = key)) as [<-|Hne].
  - destruct (isReady d), (m !! keyOf d) as [T|] eqn:Hm; simpl.
    + apply lookup_delete_eq.
    + exact Hm.
    + exact Hm.
    + apply lookup_insert_eq.
  - destruct (isReady d), (m !! keyOf d);
      rewrite ?lookup_delete_ne, ?lookup_insert_ne by exact Hne; reflexivity.
Qed.

Lemma run_eta (p : Prog unit) t : p t = (tt, tracker (p t), effects (p t)).
Proof. unfold tracker, effects. destruct (p t) as [[[] t1] es1]. reflexivity. Qed.

Lemma processAll_cons o obs t :
  processAll (o :: obs) t
  = (tt, tracker (processAll obs (tracker (process o t))),
     effects (process o t) ++ effects (processAll obs (tracker (process o t)))).
Proof.
  unfold processAll. simpl. unfold bind, tracker, effects.
  destruct (process o t) as [[[] t1] es1]. simpl.
  destruct (forRange obs process t1) as [[[] t2] es2]. reflexivity.
Qed.

Lemma processAll_app obs1 obs2 t :
  processAll (obs1 ++ obs2) t
  = (tt, tracker (processAll obs2 (tracker (processAll obs1 t))),
     effects (processAll obs1 t) ++ effects (processAll obs2 (tracker (processAll obs1 t)))).
Proof.
  revert t. induction obs1 as [|o obs1 IH]; intros t.
  - apply run_eta.
  - rewrite <- app_comm_cons, !processAll_cons, IH. unfold tracker, effects. simpl.
    rewrite app_assoc. reflexivity.
Qed.

Lemma store_after_process o t key :
  downtimeStart (tracker (process o t)) !! key
  = if decide (keyOf (obsDeployment o) = key)
    then if isReady (obsDeployment o) then None
         else Some (default (Now (obsEnv o)) (downtimeStart t !! key))
    else downtimeStart t !! key.
Proof.
  unfold process. rewrite tracker_processDeployment. simpl.
  rewrite nextStore_lookup. destruct (decide _) as [<-|]; reflexivity.
Qed.

Lemma processAll_snoc obs o t :
  tracker (processAll (obs ++ [o]) t) = tracker (process o (tracker (processAll obs t)))
  ∧ effects (processAll (obs ++ [o]) t)
    = effects (processAll obs t) ++ effects (process o (tracker (processAll obs t))).
Proof.
  rewrite processAll_app. unfold tracker at 1, effects at 1. simpl.
  rewrite (processAll_cons o []). unfold tracker at 1, effects at 2. simpl.
  rewrite app_nil_r. split; reflexivity.
Qed.

Lemma downSince_snoc key obs o :
  downSince key (obs ++ [o])
  = if decide (keyOf (obsDeployment o) = key)
    then if isReady (obsDeployment o) then None
         else Some (default (Now (obsEnv o)) (downSince key obs))
    else downSince key obs.
Proof. unfold downSince. rewrite foldl_app. reflexivity. Qed.

Lemma lastVerdict_snoc key obs o :
  lastVerdict key (obs ++ [o])
  = if decide (keyOf (obsDeployment o) = key)
    then Some (isReady (obsDeployment o))
    else lastVerdict key obs.
Proof. unfold lastVerdict. rewrite foldl_app. reflexivity. Qed.

(** The store is a function of the observations processed so far. *)
Lemma store_downSince client ns obs key :
  downtimeStart (tracker (processAll obs (newTracker client ns))) !! key
  = downSince key obs.
Proof.
  induction obs as [|o obs IH] using rev_ind.
  - apply lookup_empty.
  - destruct (processAll_snoc obs o (newTracker client ns)) as [-> _].
    rewrite store_after_process, downSince_snoc, IH. reflexivity.
Qed.

Lemma downSince_is_Some key obs :
  is_Some (downSince key obs) ↔ lastVerdict key obs = Some false.
Proof.
  induction obs as [|o obs IH] using rev_ind.
  - split; [intros [T HT]|intros HT]; discriminate HT.
  - rewrite downSince_snoc, lastVerdict_snoc.
    destruct (decide _); [|exact IH].
    destruct (isReady (obsDeployment o)); split.
    + intros [T HT]. discriminate HT.
    + intros [=].
    + reflexivity.
    + intros _. eexists; reflexivity.
Qed.

Lemma downSince_unseen key obs :
  Forall (λ o, keyOf (obsDeployment o) ≠ key) obs → downSince key obs = None.
Proof.
  induction obs as [|o obs IH] using rev_ind; [reflexivity|].
  intros [Hobs Ho]%Forall_app. rewrite downSince_snoc.
  apply Forall_cons in Ho as [Ho _]. destruct (decide _); [contradiction|auto].
Qed.

(** Where a recorded time comes from: a not-ready observation of the key
    made while the key was Up, with only not-ready observations of the key
    after it. *)
Lemma downSince_origin key obs T :
  downSince key obs = Some T →
  ∃ pre o post,
    obs = pre ++ o :: post
    ∧ keyOf (obsDeployment o) = key
    ∧ isReady (obsDeployment o) = false
    ∧ Now (obsEnv o) = T
    ∧ lastVerdict key pre ≠ Some false
    ∧ Forall (λ o', keyOf (obsDeployment o') = key → isReady (obsDeployment o') = false) post.
Proof.
  induction obs as [|o obs IH] using rev_ind; [discriminate|].
  rewrite downSince_snoc. destruct (decide _) as [Hkey|Hkey].
  - destruct (isReady (obsDeployment o)) eqn:Hready; [discriminate|].
    destruct (downSince key obs) as [T'|] eqn:Hprev; simpl; intros [= <-].
    + destruct (IH eq_refl) as (pre & o' & post & -> & Hk & Hr & HT & Hpre & Hpost).
      exists pre, o', (post ++ [o]). rewrite <- app_assoc. simpl.
      repeat split; try assumption.
      apply Forall_app. split; [exact Hpost|]. constructor; [auto|constructor].
    + exists obs, o, []. repeat split; try assumption; [|constructor].
      rewrite <- downSince_is_Some, Hprev. intros [? [=]].
  - intros Hprev.
    destruct (IH Hprev) as (pre & o' & post & -> & Hk & Hr & HT & Hpre & Hpost).
    exists pre, o', (post ++ [o]). rewrite <- app_assoc. simpl.
    repeat split; try assumption.
    apply Forall_app. split; [exact Hpost|]. constructor; [|constructor].
    intros Hk'. contradiction.
Qed.

(** C2. After any sequence of calls made one after the other on a new
    tracker, the store has at most one record for a key; it has one
    exactly when the last observation of the key was not ready; the time of
    the record is that of a not-ready observation of the key made while
    the key had no record, after which no observation of the key was
    ready; and a key never observed has no record. *)
Theorem record_iff_down (client : bool) (ns : string) (obs : list Obs) (key : string) :
  let store := downtimeStart (tracker (processAll obs (newTracker client ns))) in
  (∀ T1 T2, store !! key = Some T1 → store !! key = Some T2 → T1 = T2)
  ∧ (is_Some (store !! key) ↔ lastVerdict key obs = Some false)
  ∧ (∀ T, store !! key = Some T →
       ∃ pre o post,
         obs = pre ++ o :: post
         ∧ keyOf (obsDeployment o) = key
         ∧ isReady (obsDeployment o) = false
         ∧ Now (obsEnv o) = T
         ∧ lastVerdict key pre ≠ Some false
         ∧ Forall (λ o', keyOf (obsDeployment o') = key
                         → isReady (obsDeployment o') = false) post)
  ∧ (Forall (λ o, keyOf (obsDeployment o) ≠ key) obs → store !! key = None).
Proof.
  intros store. unfold store. rewrite store_downSince.
  split; [congruence|]. split; [apply downSince_is_Some|].
  split; [apply downSince_origin|apply downSince_unseen].
Qed.

(** C2 at [prod/api] seen down at 10 s and again at 11 s: the record is
    that of 10 s. *)
Lemma record_iff_down_witness :
  ∃ pre o post,
    [seenUp 0; seenDown (seconds 10); seenDown (seconds 11)] = pre ++ o :: post
    ∧ keyOf (obsDeployment o) = "prod/api"
    ∧ isReady (obsDeployment o) = false
    ∧ Now (obsEnv o) = seconds 10
    ∧ lastVerdict "prod/api" pre ≠ Some false
    ∧ Forall (λ o', keyOf (obsDeployment o') = "prod/api"
                    → isReady (obsDeployment o') = false) post.
Proof.
  apply (record_iff_down true "" [seenUp 0; seenDown (seconds 10); seenDown (seconds 11)]
           "prod/api").
  vm_compute. reflexivity.
Defined.

(** ** The transitions *)

Lemma isTransitionWrite_none metrics es :
  onlyWrites metrics es = true →
  (∀ m, m ∈ metrics → m ∉ transitionMetrics) →
  List.filter isTransitionWrite es = [].
Proof.
  intros Hes Hdisjoint. apply filter_none. unfold onlyWrites in Hes.
  rewrite forallb_forall in *. intros e He. specialize (Hes e He).
  unfold isTransitionWrite. destruct (metricOf e) as [m|]; [|reflexivity].
  apply negb_true_iff, bool_decide_eq_false.
  apply Hdisjoint. apply bool_decide_eq_true in Hes. exact Hes.
Qed.

Lemma gauge_not_transition m :
  m ∈ gaugeMetrics ++ resourceMetrics → m ∉ transitionMetrics.
Proof.
  intros Hm. 
  repeat (apply elem_of_cons in Hm as [->|Hm]; [by_evaluation|]).
  apply elem_of_nil in Hm. contradiction.
Qed.

(** The writes of a call to the metrics of the transitions are those of
    lines 835-865. *)
Lemma transition_writes env d t :
  List.filter isTransitionWrite (effects (processDeployment env d t))
  = List.filter isTransitionWrite (settleEffects env d (downtimeStart t !! keyOf d)).
Proof.
  rewrite effects_processDeployment, List.filter_app.
  rewrite (isTransitionWrite_none _ _ (alwaysEffects_onlyWrites env d t))
    by apply gauge_not_transition.
  reflexivity.
Qed.

(** ** [float64] rounding

    [binary64.round] leaves the values of 53 significant bits unchanged
    and moves any other value by at most half a unit of its last place. *)

Lemma pow2_pos (e : Z) : (0 < binary64.pow2 e)%Q.
Proof. apply Qpower_0_lt. reflexivity. Qed.

Lemma pow2_add (a b : Z) : (binary64.pow2 (a + b) == binary64.pow2 a * binary64.pow2 b)%Q.
Proof. apply Qpower_plus. discriminate. Qed.

Lemma pow2_sub (a b : Z) : (binary64.pow2 (a - b) == binary64.pow2 a / binary64.pow2 b)%Q.
Proof. apply Qpower_minus. discriminate. Qed.

Lemma pow2_lt (a b : Z) : a < b → (binary64.pow2 a < binary64.pow2 b)%Q.
Proof. intros. apply Qpower_lt_compat_l; [assumption|reflexivity]. Qed.

Lemma pow2_le (a b : Z) : a <= b → (binary64.pow2 a <= binary64.pow2 b)%Q.
Proof. intros. apply Qpower_le_compat_l; [assumption|discriminate]. Qed.

Lemma pow2_lt_inv (a b : Z) : (binary64.pow2 a < binary64.pow2 b)%Q → a < b.
Proof. intros. eapply Qpower_lt_compat_l_inv; [eassumption|reflexivity]. Qed.

Lemma pow2_Z (e : Z) : 0 <= e → (binary64.pow2 e == inject_Z (2 ^ e))%Q.
Proof. intros. symmetry. apply (Zpower_Qpower 2). assumption. Qed.

Lemma Qdiv_lt_cross (a b c d : Q) :
  (0 < b → 0 < d → a * d < c * b → a / b < c / d)%Q.
Proof.
  intros Hb Hd H. apply Qlt_shift_div_r; [exact Hb|].
  assert (c / d * b == c * b / d)%Q as -> by (field; lra).
  apply Qlt_shift_div_l; assumption.
Qed.

(** [ilog2 q] is the exponent of the leading bit of [q]. *)
Lemma ilog2_spec (q : Q) :
  (0 < q)%Q →
  (binary64.pow2 (binary64.ilog2 q) <= q ∧ q < binary64.pow2 (binary64.ilog2 q + 1))%Q.
Proof.
  intros Hq. destruct q as [n d]. unfold binary64.ilog2. cbn [Qnum Qden].
  assert (0 < n) as Hn by (unfold Qlt in Hq; cbn in Hq; lia).
  pose proof (Z.log2_spec n Hn) as [Hn1 Hn2].
  pose proof (Z.log2_spec (Z.pos d) (Pos2Z.is_pos d)) as [Hd1 Hd2].
  pose proof (Z.log2_nonneg n) as Hln. pose proof (Z.log2_nonneg (Z.pos d)) as Hld.
  set (ln := Z.log2 n) in *. set (ld := Z.log2 (Z.pos d)) in *.
  assert (0 < 2 ^ ln) as Hpn by (apply Z.pow_pos_nonneg; lia).
  assert (0 < 2 ^ ld) as Hpd by (apply Z.pow_pos_nonneg; lia).
  assert ((n # d) == inject_Z n / inject_Z (Z.pos d))%Q as Hq' by apply Qmake_Qdiv.
  assert (binary64.pow2 (ln - ld - 1) < n # d)%Q as Hlow.
  { rewrite Hq'. replace (ln - ld - 1) with (ln - (ld + 1)) by lia.
    rewrite pow2_sub, !pow2_Z by lia.
    apply Qdiv_lt_cross.
    - rewrite <- (Zlt_Qlt 0). apply Z.pow_pos_nonneg; lia.
    - rewrite <- (Zlt_Qlt 0). lia.
    - rewrite <- !inject_Z_mult, <- Zlt_Qlt.
      replace (2 ^ (ld + 1)) with (2 * 2 ^ ld) by (rewrite Z.pow_add_r by lia; lia).
      rewrite Z.pow_succ_r in Hd2 by lia. nia. }
  assert (n # d < binary64.pow2 (ln - ld + 1))%Q as Hhigh.
  { rewrite Hq'. replace (ln - ld + 1) with ((ln + 1) - ld) by lia.
    rewrite pow2_sub, !pow2_Z by lia.
    apply Qdiv_lt_cross.
    - rewrite <- (Zlt_Qlt 0). lia.
    - rewrite <- (Zlt_Qlt 0). lia.
    - rewrite <- !inject_Z_mult, <- Zlt_Qlt.
      replace (2 ^ (ln + 1)) with (2 * 2 ^ ln) by (rewrite Z.pow_add_r by lia; lia).
      rewrite Z.pow_succ_r in Hn2 by lia. nia. }
  destruct (Qle_bool (binary64.pow2 (ln - ld)) (n # d)) eqn:Hle.
  - apply Qle_bool_iff in Hle. split; assumption.
  - split; [apply Qlt_le_weak, Hlow|].
    replace (ln - ld - 1 + 1) with (ln - ld) by lia.
    apply Qnot_le_lt. intros Hc. apply Qle_bool_iff in Hc. congruence.
Qed.

Lemma ilog2_unique (q : Q) (e : Z) :
  (binary64.pow2 e <= q)%Q → (q < binary64.pow2 (e + 1))%Q → binary64.ilog2 q = e.
Proof.
  intros Hlo Hhi.
  assert (0 < q)%Q as Hq by (eapply Qlt_le_trans; [apply (pow2_pos e)|exact Hlo]).
  destruct (ilog2_spec q Hq) as [Hlo' Hhi'].
  assert (e < binary64.ilog2 q + 1) by (apply pow2_lt_inv; eapply Qle_lt_trans; eassumption).
  assert (binary64.ilog2 q < e + 1) by (apply pow2_lt_inv; eapply Qle_lt_trans; eassumption).
  lia.
Qed.

Lemma nearestEven_comp (q q' : Q) :
  (q == q')%Q → binary64.nearestEven q = binary64.nearestEven q'.
Proof.
  intros Heq. unfold binary64.nearestEven. rewrite (Qfloor_comp _ _ Heq).
  assert (q - inject_Z (Qfloor q') == q' - inject_Z (Qfloor q'))%Q as Hsub
    by (rewrite Heq; reflexivity).
  rewrite (Qcompare_comp _ _ Hsub _ _ (Qeq_refl (1 # 2))).
  reflexivity.
Qed.

(** The nearest integer is at most one half away. *)
Lemma nearestEven_err (q : Q) : (Qabs (inject_Z (binary64.nearestEven q) - q) <= 1 # 2)%Q.
Proof.
  unfold binary64.nearestEven.
  pose proof (Qfloor_le q) as Hlo. pose proof (Qlt_floor q) as Hhi.
  rewrite inject_Z_plus in Hhi. change (inject_Z 1) with 1%Q in Hhi.
  apply Qabs_Qle_condition.
  destruct (Qcompare_spec (q - inject_Z (Qfloor q)) (1 # 2)) as [He|Hl|Hg].
  - destruct (Z.even (Qfloor q));
      [|rewrite inject_Z_plus; change (inject_Z 1) with 1%Q]; split; lra.
  - split; lra.
  - rewrite inject_Z_plus. change (inject_Z 1) with 1%Q. split; lra.
Qed.

Lemma nearestEven_Z (z : Z) : binary64.nearestEven (inject_Z z) = z.
Proof.
  unfold binary64.nearestEven. rewrite Qfloor_Z.
  destruct (Qcompare_spec (inject_Z z - inject_Z z) (1 # 2)) as [He|Hl|Hg];
    [lra|reflexivity|lra].
Qed.

Lemma nearestEven_ge (q : Q) (z : Z) : (inject_Z z <= q)%Q → z <= binary64.nearestEven q.
Proof.
  intros Hz. apply Qfloor_resp_le in Hz. rewrite Qfloor_Z in Hz.
  unfold binary64.nearestEven. destruct (_ ?= _)%Q; [destruct (Z.even _)| |]; lia.
Qed.

Lemma nearestEven_le (q : Q) (z : Z) : (q <= inject_Z z)%Q → binary64.nearestEven q <= z.
Proof.
  intros Hz. pose proof (Qfloor_resp_le _ _ Hz) as Hf. rewrite Qfloor_Z in Hf.
  destruct (decide (Qfloor q = z)) as [Heq|Hne].
  - assert (q == inject_Z z)%Q as Hq.
    { apply Qle_antisym; [exact Hz|]. rewrite <- Heq. apply Qfloor_le. }
    rewrite (nearestEven_comp _ _ Hq), nearestEven_Z. lia.
  - unfold binary64.nearestEven. destruct (_ ?= _)%Q; [destruct (Z.even _)| |]; lia.
Qed.

Lemma round_zero (q : Q) : (q == 0)%Q → binary64.round q = 0%Q.
Proof. intros Hq. unfold binary64.round. apply Qeq_bool_iff in Hq. rewrite Hq. reflexivity. Qed.

Lemma round_eq (q : Q) :
  ¬ (q == 0)%Q →
  let ulp := binary64.pow2 (binary64.exponent q - 52) in
  (binary64.round q == inject_Z (binary64.nearestEven (q / ulp)) * ulp)%Q.
Proof.
  intros Hq. unfold binary64.round. destruct (Qeq_bool q 0) eqn:Hz.
  - apply Qeq_bool_iff in Hz. contradiction.
  - apply Qred_correct.
Qed.

Lemma Qabs_pos_lt (q : Q) : ¬ (q == 0)%Q → (0 < Qabs q)%Q.
Proof.
  intros Hq. apply Qabs_case; intros; lra.
Qed.

Lemma exponent_comp (q q' : Q) :
  (q == q')%Q → ¬ (q == 0)%Q → binary64.exponent q = binary64.exponent q'.
Proof.
  intros Heq Hq. unfold binary64.exponent. f_equal.
  destruct (ilog2_spec (Qabs q) (Qabs_pos_lt q Hq)) as [Hlo Hhi].
  symmetry. apply ilog2_unique; rewrite <- (Qabs_wd _ _ Heq); assumption.
Qed.

(** The rounding depends on the value only, not on the fraction that
    denotes it, and gives a fraction in lowest terms. *)
Lemma round_comp (q q' : Q) : (q == q')%Q → binary64.round q = binary64.round q'.
Proof.
  intros Heq. unfold binary64.round.
  destruct (Qeq_bool q 0) eqn:Hz.
  - apply Qeq_bool_iff in Hz. rewrite Heq in Hz. apply Qeq_bool_iff in Hz. rewrite Hz. reflexivity.
  - assert (¬ (q == 0)%Q) as Hq by (intros Hc; apply Qeq_bool_iff in Hc; congruence).
    assert (Qeq_bool q' 0 = false) as ->.
    { apply not_true_is_false. intros Hc. apply Qeq_bool_iff in Hc.
      rewrite <- Heq in Hc. contradiction. }
    cbv zeta. rewrite <- (exponent_comp q q' Heq Hq).
    apply Qred_complete.
    assert (q / binary64.pow2 (binary64.exponent q - 52)
            == q' / binary64.pow2 (binary64.exponent q - 52))%Q as Hdiv
      by (apply Qdiv_comp; [exact Heq|reflexivity]).
    rewrite (nearestEven_comp _ _ Hdiv). reflexivity.
Qed.

(** Half an ulp. *)
Lemma round_error (q : Q) :
  ¬ (q == 0)%Q → (Qabs (binary64.round q - q) <= binary64.pow2 (binary64.exponent q - 53))%Q.
Proof.
  intros Hq. rewrite (round_eq q Hq).
  set (u := binary64.pow2 (binary64.exponent q - 52)).
  assert (0 < u)%Q as Hu by apply pow2_pos.
  pose proof (nearestEven_err (q / u)) as Herr.
  assert (binary64.pow2 (binary64.exponent q - 53) == (1 # 2) * u)%Q as ->.
  { unfold u. replace (binary64.exponent q - 53) with (-1 + (binary64.exponent q - 52)) by lia.
    rewrite pow2_add. reflexivity. }
  assert (inject_Z (binary64.nearestEven (q / u)) * u - q
          == (inject_Z (binary64.nearestEven (q / u)) - q / u) * u)%Q as -> by (field; lra).
  rewrite Qabs_Qmult, (Qabs_pos u) by lra.
  apply Qmult_le_compat_r; [exact Herr|lra].
Qed.

Lemma exponent_normal (q : Q) :
  (binary64.pow2 (-1022) <= Qabs q)%Q →
  (binary64.pow2 (binary64.exponent q) <= Qabs q
   ∧ Qabs q < binary64.pow2 (binary64.exponent q + 1))%Q.
Proof.
  intros Hn.
  assert (0 < Qabs q)%Q as Hpos by (eapply Qlt_le_trans; [apply (pow2_pos (-1022))|exact Hn]).
  destruct (ilog2_spec _ Hpos) as [Hlo Hhi].
  assert (-1022 < binary64.ilog2 (Qabs q) + 1)
    by (apply pow2_lt_inv; eapply Qle_lt_trans; eassumption).
  unfold binary64.exponent. rewrite Z.max_l by lia. split; assumption.
Qed.

(** Relative error of at most 2^-53 in the normal range. *)
Lemma round_relative (q : Q) :
  (binary64.pow2 (-1022) <= Qabs q)%Q →
  (Qabs (binary64.round q - q) <= Qabs q * (1 # 9007199254740992))%Q.
Proof.
  intros Hn. destruct (exponent_normal q Hn) as [Hlo _].
  assert (¬ (q == 0)%Q) as Hq.
  { intros Hc. rewrite (Qabs_wd _ _ Hc) in Hn. pose proof (pow2_pos (-1022)).
    change (Qabs 0) with 0%Q in Hn. lra. }
  eapply Qle_trans; [apply round_error, Hq|].
  replace (binary64.exponent q - 53) with (binary64.exponent q + -53) by lia.
  rewrite pow2_add.
  change (binary64.pow2 (-53)) with (1 # 9007199254740992)%Q.
  apply Qmult_le_compat_r; [exact Hlo|discriminate].
Qed.

Lemma round_exact (q : Q) (z : Z) :
  ¬ (q == 0)%Q →
  (q / binary64.pow2 (binary64.exponent q - 52) == inject_Z z)%Q →
  (binary64.round q == q)%Q.
Proof.
  intros Hq Hz. rewrite (round_eq q Hq), (nearestEven_comp _ _ Hz), nearestEven_Z, <- Hz.
  field. pose proof (pow2_pos (binary64.exponent q - 52)). lra.
Qed.

Lemma Qabs_inject_Z (z : Z) : Qabs (inject_Z z) = inject_Z (Z.abs z).
Proof. reflexivity. Qed.

Lemma round_representable_lt (q : Q) (M E : Z) :
  Z.abs M < 2 ^ 53 → -1074 <= E → (q == inject_Z M * binary64.pow2 E)%Q →
  (binary64.round q == q)%Q.
Proof.
  intros HM HE Hq.
  destruct (decide (M = 0)) as [->|HM0].
  { assert (q == 0)%Q as Hz by (rewrite Hq; ring). rewrite (round_zero q Hz), Hz. reflexivity. }
  pose proof (pow2_pos E) as HpE.
  assert (Qabs q == inject_Z (Z.abs M) * binary64.pow2 E)%Q as Habs.
  { rewrite (Qabs_wd _ _ Hq), Qabs_Qmult, Qabs_inject_Z, (Qabs_pos (binary64.pow2 E)) by lra.
    reflexivity. }
  assert (¬ (q == 0)%Q) as Hq0.
  { intros Hc. rewrite (Qabs_wd _ _ Hc) in Habs. change (Qabs 0) with 0%Q in Habs.
    assert (0 < inject_Z (Z.abs M) * binary64.pow2 E)%Q; [|lra].
    apply Qmult_lt_0_compat; [|exact HpE]. rewrite <- (Zlt_Qlt 0). lia. }
  destruct (ilog2_spec (Qabs q) (Qabs_pos_lt q Hq0)) as [Hlo _].
  assert (binary64.ilog2 (Qabs q) < E + 53) as Hi.
  { apply pow2_lt_inv. eapply Qle_lt_trans; [exact Hlo|].
    rewrite Habs, Z.add_comm, pow2_add.
    apply Qmult_lt_compat_r; [exact HpE|].
    rewrite pow2_Z by lia. rewrite <- Zlt_Qlt. exact HM. }
  assert (binary64.exponent q - 52 <= E) as Hex by (unfold binary64.exponent; lia).
  apply (round_exact q (M * 2 ^ (E - (binary64.exponent q - 52))) Hq0).
  revert Hex. generalize (binary64.exponent q). intros ex Hex.
  rewrite Hq, inject_Z_mult, <- pow2_Z by lia.
  rewrite (pow2_sub E (ex - 52)).
  pose proof (pow2_pos (ex - 52)) as Hp. revert Hp.
  generalize (binary64.pow2 (ex - 52)), (binary64.pow2 E). intros a b Ha. field. lra.
Qed.

(** A [float64] value is left as it is. *)
Lemma round_representable (q : Q) (M E : Z) :
  Z.abs M <= 2 ^ 53 → -1074 <= E → (q == inject_Z M * binary64.pow2 E)%Q →
  (binary64.round q == q)%Q.
Proof.
  intros HM HE Hq.
  destruct (decide (Z.abs M = 2 ^ 53)) as [Htop|Hlt].
  - apply (round_representable_lt q (M `quot` 2) (E + 1)); [| lia |].
    + destruct (Z.abs_eq_or_opp M) as [H|H]; rewrite H in Htop.
      * rewrite Htop. reflexivity.
      * replace M with (- 2 ^ 53) by lia. reflexivity.
    + rewrite Hq, Z.add_comm, pow2_add. change (binary64.pow2 1) with 2%Q.
      assert (M = 2 * M `quot` 2) as HM2.
      { destruct (Z.abs_eq_or_opp M) as [H|H]; rewrite H in Htop.
        - rewrite Htop. reflexivity.
        - replace M with (- 2 ^ 53) by lia. reflexivity. }
      rewrite HM2 at 1. rewrite inject_Z_mult. change (inject_Z 2) with 2%Q. ring.
  - apply (round_representable_lt q M E); [lia|exact HE|exact Hq].
Qed.

(** The conversion of an integer of at most 53 bits is exact. *)
Lemma round_Z (n : Z) : Z.abs n <= 2 ^ 53 → (binary64.round (inject_Z n) == inject_Z n)%Q.
Proof.
  intros Hn. apply (round_representable _ n 0); [exact Hn|lia|].
  change (binary64.pow2 0) with 1%Q. ring.
Qed.

(** The significand of a rounded value has at most 53 bits. *)
Lemma round_mantissa (q : Q) :
  ¬ (q == 0)%Q →
  Z.abs (binary64.nearestEven (q / binary64.pow2 (binary64.exponent q - 52))) <= 2 ^ 53.
Proof.
  intros Hq0.
  destruct (ilog2_spec (Qabs q) (Qabs_pos_lt q Hq0)) as [_ Hhi].
  set (u := binary64.pow2 (binary64.exponent q - 52)).
  assert (0 < u)%Q as Hu by apply pow2_pos.
  assert (Qabs q < inject_Z (2 ^ 53) * u)%Q as Hq.
  { eapply Qlt_le_trans; [exact Hhi|].
    unfold u. rewrite <- pow2_Z, <- pow2_add by lia. apply pow2_le. unfold binary64.exponent. lia. }
  assert (Qabs (q / u) <= inject_Z (2 ^ 53))%Q as Hm.
  { unfold Qdiv. rewrite Qabs_Qmult, Qabs_Qinv, (Qabs_pos u) by lra.
    apply Qlt_le_weak, Qlt_shift_div_r; assumption. }
  apply Qabs_Qle_condition in Hm as [Hm1 Hm2].
  rewrite <- inject_Z_opp in Hm1.
  apply nearestEven_ge in Hm1. apply nearestEven_le in Hm2. lia.
Qed.

Lemma round_idem (q : Q) : (binary64.round (binary64.round q) == binary64.round q)%Q.
Proof.
  destruct (Qeq_dec q 0) as [Hz|Hq0].
  { rewrite (round_zero q Hz). reflexivity. }
  apply (round_representable _
           (binary64.nearestEven (q / binary64.pow2 (binary64.exponent q - 52)))
           (binary64.exponent q - 52)).
  - apply round_mantissa, Hq0.
  - unfold binary64.exponent. lia.
  - apply round_eq, Hq0.
Qed.

Lemma round_nonneg (q : Q) : (0 <= q)%Q → (0 <= binary64.round q)%Q.
Proof.
  intros Hq. destruct (Qeq_dec q 0) as [Hz|Hq0].
  { rewrite (round_zero q Hz). discriminate. }
  rewrite (round_eq q Hq0).
  set (u := binary64.pow2 (binary64.exponent q - 52)).
  assert (0 < u)%Q as Hu by apply pow2_pos.
  apply Qmult_le_0_compat; [|lra].
  rewrite <- (Zle_Qle 0). apply nearestEven_ge.
  apply Qle_shift_div_l; [exact Hu|]. change (inject_Z 0) with 0%Q. lra.
Qed.

(** The rounding at work: one tenth is the [float64]
    3602879701896397 / 2^55, and 2^53 + 1 is rounded to 2^53. *)
Example round_samples :
  binary64.round (1 # 10) = (3602879701896397 # 36028797018963968)%Q
  ∧ binary64.ofInt (2 ^ 53 + 1) = inject_Z (2 ^ 53).
Proof. vm_compute. split; reflexivity. Qed.

Lemma pow2_tiny (q : Q) : (1 # 1000000000 <= q)%Q → (binary64.pow2 (-1022) <= Qabs q)%Q.
Proof.
  intros Hq. rewrite Qabs_pos by lra.
  apply Qle_trans with (binary64.pow2 (-30)); [apply pow2_le; lia|].
  change (binary64.pow2 (-30)) with (1 # 1073741824)%Q. lra.
Qed.

Lemma Seconds_nonneg (d : Z) : 0 <= d → (0 <= time.Seconds d)%Q.
Proof.
  intros Hd. unfold time.Seconds, binary64.add, binary64.div, binary64.ofInt.
  assert (0 <= d `quot` time.Second) by (apply Z.quot_pos; [exact Hd|reflexivity]).
  assert (0 <= d `rem` time.Second) by (apply Z.rem_nonneg; [discriminate|exact Hd]).
  apply round_nonneg.
  assert (0 <= binary64.round (inject_Z (d `quot` time.Second)))%Q
    by (apply round_nonneg; rewrite <- (Zle_Qle 0); assumption).
  assert (0 <= binary64.round (binary64.round (inject_Z (d `rem` time.Second)) / 1000000000))%Q;
    [|lra].
  apply round_nonneg. apply Qle_shift_div_l; [reflexivity|].
  assert (0 <= binary64.round (inject_Z (d `rem` time.Second)))%Q; [|lra].
  apply round_nonneg. rewrite <- (Zle_Qle 0). assumption.
Qed.

(** [Duration.Seconds] of a duration that is not negative is within a
    relative error of 2^-52 of the duration in seconds: the quotient of
    the nanoseconds and the sum are rounded once each. *)
Lemma Seconds_accuracy (d : Z) :
  0 <= d < 2 ^ 63 →
  (Qabs (time.Seconds d - inject_Z d / inject_Z time.Second)
   <= inject_Z d / inject_Z time.Second * (1 # 4503599627370496))%Q.
Proof.
  intros Hd. unfold time.Seconds, binary64.add, binary64.div, binary64.ofInt.
  pose proof (Z.quot_rem' d time.Second) as Hsplit.
  assert (0 <= d `quot` time.Second < 2 ^ 53) as Hsec.
  { split; [apply Z.quot_pos; [lia|reflexivity]|].
    apply Z.quot_lt_upper_bound; [lia|reflexivity|]. unfold time.Second. lia. }
  assert (0 <= d `rem` time.Second < time.Second) as Hnsec
    by (apply Z.rem_bound_pos; [lia|reflexivity]).
  revert Hsplit Hsec Hnsec.
  generalize (d `quot` time.Second), (d `rem` time.Second). intros sec nsec Hsplit Hsec Hnsec.
  assert (inject_Z d / inject_Z time.Second == inject_Z sec + inject_Z nsec / 1000000000)%Q as ->.
  { rewrite Hsplit, inject_Z_plus, inject_Z_mult. unfold time.Second. field. }
  set (frac := (inject_Z nsec / 1000000000)%Q).
  assert (binary64.round (binary64.round (inject_Z nsec) / 1000000000) = binary64.round frac) as ->.
  { apply round_comp, Qdiv_comp; [|reflexivity]. apply round_Z. unfold time.Second in Hnsec. lia. }
  assert (binary64.round (binary64.round (inject_Z sec) + binary64.round frac)
          = binary64.round (inject_Z sec + binary64.round frac)) as ->.
  { apply round_comp, Qplus_comp; [|reflexivity]. apply round_Z. lia. }
  assert (0 <= frac)%Q as Hfrac0.
  { apply Qle_shift_div_l; [reflexivity|]. change (0 * 1000000000)%Q with (inject_Z 0).
    rewrite <- Zle_Qle. lia. }
  assert (frac < 1)%Q as Hfrac1.
  { apply Qlt_shift_div_r; [reflexivity|]. change (1 * 1000000000)%Q with (inject_Z time.Second).
    rewrite <- Zlt_Qlt. lia. }
  assert (Qabs (binary64.round frac - frac) <= frac * (1 # 9007199254740992))%Q as Hf.
  { destruct (decide (nsec = 0)) as [->|Hpos].
    - rewrite (round_zero frac) by reflexivity. discriminate.
    - assert (1 # 1000000000 <= frac)%Q as Hnormal.
      { apply Qle_shift_div_l; [reflexivity|].
        assert (inject_Z 1 <= inject_Z nsec)%Q as Hone by (rewrite <- Zle_Qle; lia).
        change (inject_Z 1) with 1%Q in Hone. lra. }
      pose proof (round_relative frac (pow2_tiny frac Hnormal)) as Herr.
      rewrite (Qabs_pos frac) in Herr by exact Hfrac0. exact Herr. }
  pose proof (round_nonneg frac Hfrac0) as Hf0.
  apply Qabs_Qle_condition in Hf as [Hf1 Hf2].
  apply Qabs_Qle_condition.
  destruct (decide (sec = 0)) as [->|Hpos].
  - assert (binary64.round (inject_Z 0 + binary64.round frac)
            = binary64.round (binary64.round frac)) as ->
      by (apply round_comp; change (inject_Z 0) with 0%Q; ring).
    rewrite round_idem. change (inject_Z 0) with 0%Q. split; lra.
  - assert (1 <= inject_Z sec)%Q as Hsec1 by (rewrite <- (Zle_Qle 1); lia).
    assert (1 # 1000000000 <= inject_Z sec + binary64.round frac)%Q as Hnormal by lra.
    pose proof (round_relative _ (pow2_tiny _ Hnormal)) as Herr.
    rewrite (Qabs_pos (inject_Z sec + binary64.round frac)) in Herr by lra.
    apply Qabs_Qle_condition in Herr as [Herr1 Herr2].
    split; lra.
Qed.

(** A whole number of seconds is converted exactly. *)
Lemma Seconds_whole (n : Z) :
  Z.abs n <= 2 ^ 53 → (time.Seconds (n * time.Second)%Z == inject_Z n)%Q.
Proof.
  intros Hn. unfold time.Seconds, binary64.add, binary64.div, binary64.ofInt.
  rewrite Z.quot_mul, Z.rem_mul by discriminate.
  rewrite (round_zero (binary64.round (inject_Z 0) / 1000000000)) by reflexivity.
  assert (binary64.round (binary64.round (inject_Z n) + 0)
          = binary64.round (binary64.round (inject_Z n))) as ->
    by (apply round_comp; ring).
  rewrite round_idem. apply round_Z, Hn.
Qed.

Lemma store_stays_down key T between t :
  downtimeStart t !! key = Some T →
  Forall (λ o, keyOf (obsDeployment o) = key → isReady (obsDeployment o) = false) between →
  downtimeStart (tracker (processAll between t)) !! key = Some T.
Proof.
  revert t. induction between as [|o between IH]; intros t Ht Hbetween.
  - exact Ht.
  - rewrite processAll_cons. unfold tracker at 1. simpl.
    apply Forall_cons in Hbetween as [Ho Hbetween].
    apply IH; [|exact Hbetween].
    rewrite store_after_process. destruct (decide _) as [Hk|]; [|exact Ht].
    rewrite (Ho Hk), Ht. reflexivity.
Qed.

Lemma key_ne (m1 m2 : string) (ls1 ls2 : list string) :
  m1 ≠ m2 → (m1, ls1) ≠ (m2, ls2).
Proof. congruence. Qed.

(** The effects of a call before lines 835-865 leave the samples of the
    transition metrics as they were. *)
Lemma recordAll_before_settle (m : string) (ls : list string) (env : Env)
    (d : Deployment) (t : DeploymentTracker) (r : Registry) :
  m ∈ transitionMetrics →
  recordAll (alwaysEffects env d t ++ [statusGauge d]) r !! (m, ls) = r !! (m, ls).
Proof.
  intros Hm. apply recordAll_frame. rewrite forallb_app.
  apply andb_true_iff. split.
  - apply alwaysEffects_frame. intros Hin. exact (gauge_not_transition m Hin Hm).
  - simpl. rewrite andb_true_r. apply negb_true_iff, bool_decide_eq_false.
    intros <-. revert Hm. by_evaluation.
Qed.

Lemma effects_process_split o t :
  effects (process o t)
  = (alwaysEffects (obsEnv o) (obsDeployment o) t ++ [statusGauge (obsDeployment o)])
    ++ settleEffects (obsEnv o) (obsDeployment o)
         (downtimeStart t !! keyOf (obsDeployment o)).
Proof.
  unfold process. rewrite effects_processDeployment, <- app_assoc. reflexivity.
Qed.

Lemma labelsOf_keyOf d1 d2 : labelsOf d1 = labelsOf d2 → keyOf d1 = keyOf d2.
Proof. unfold labelsOf, keyOf. intros [= -> ->]. reflexivity. Qed.

Lemma countWhere_app p es1 es2 :
  countWhere p (es1 ++ es2) = (countWhere p es1 + countWhere p es2)%nat.
Proof. unfold countWhere. rewrite List.filter_app. apply length_app. Qed.

Lemma countWhere_frame (p : Effect → bool) (m : string) es :
  (∀ e, p e = true → writesMetric m e = true) →
  forallb (λ e, negb (writesMetric m e)) es = true →
  countWhere p es = 0%nat.
Proof.
  intros Hp Hes. unfold countWhere. rewrite filter_none; [reflexivity|].
  rewrite forallb_forall in *. intros e He. specialize (Hes e He).
  apply negb_true_iff in Hes. apply negb_true_iff, not_true_is_false.
  intros Hpe. rewrite (Hp e Hpe) in Hes. discriminate.
Qed.

Lemma isInc_writes m ls e : isInc m ls e = true → writesMetric m e = true.
Proof.
  destruct e; simpl; try discriminate.
  intros [-> _]%bool_decide_eq_true. apply bool_decide_eq_true. reflexivity.
Qed.

Lemma isSet_writes m ls e : isSet m ls e = true → writesMetric m e = true.
Proof.
  destruct e; simpl; try discriminate.
  intros [-> _]%bool_decide_eq_true. apply bool_decide_eq_true. reflexivity.
Qed.

(** Counting the writes of a call to a sample of a transition metric. *)
Lemma countWhere_process (p : Effect → bool) (m : string) o t :
  m ∈ transitionMetrics →
  (∀ e, p e = true → writesMetric m e = true) →
  countWhere p (effects (process o t))
  = countWhere p (settleEffects (obsEnv o) (obsDeployment o)
                    (downtimeStart t !! keyOf (obsDeployment o))).
Proof.
  intros Hm Hp. rewrite effects_process_split, countWhere_app.
  rewrite (countWhere_frame p m); [reflexivity|exact Hp|].
  rewrite forallb_app. apply andb_true_iff. split.
  - apply alwaysEffects_frame. intros Hin. exact (gauge_not_transition m Hin Hm).
  - simpl. rewrite andb_true_r. apply negb_true_iff, bool_decide_eq_false.
    intros <-. revert Hm. by_evaluation.
Qed.

Lemma recoveries_settle env d found labels :
  recoveries labels (settleEffects env d found)
  = if isReady d && bool_decide (is_Some found) && bool_decide (labelsOf d = labels)
    then 1%nat else 0%nat.
Proof.
  unfold recoveries, countWhere, settleEffects.
  destruct (isReady d), found as [T|]; simpl;
    rewrite ?(bool_decide_eq_false_2 (is_Some None)) by (intros [? [=]]);
    rewrite ?andb_false_r; try reflexivity.
  destruct (decide (labelsOf d = labels)) as [Heq|Hne].
  - rewrite !bool_decide_eq_true_2 by auto. reflexivity.
  - rewrite !bool_decide_eq_false_2 by (try intros [_ ?]; auto). reflexivity.
Qed.

Lemma downtimeStarts_settle env d found labels :
  downtimeStarts labels (settleEffects env d found)
  = if negb (isReady d) && bool_decide (found = None) && bool_decide (labelsOf d = labels)
    then 1%nat else 0%nat.
Proof.
  unfold downtimeStarts, countWhere, settleEffects.
  destruct (isReady d), found as [T|]; simpl; try reflexivity.
  destruct (decide (labelsOf d = labels)) as [Heq|Hne].
  - rewrite !bool_decide_eq_true_2 by auto. reflexivity.
  - rewrite !bool_decide_eq_false_2 by (try intros [_ ?]; auto). reflexivity.
Qed.

Lemma recoveries_process labels o t :
  recoveries labels (effects (process o t))
  = if isReady (obsDeployment o)
       && bool_decide (is_Some (downtimeStart t !! keyOf (obsDeployment o)))
       && bool_decide (labelsOf (obsDeployment o) = labels)
    then 1%nat else 0%nat.
Proof.
  unfold recoveries.
  rewrite (countWhere_process _ deploymentRestartCount);
    [apply recoveries_settle|by_evaluation|apply isInc_writes].
Qed.

Lemma downtimeStarts_process labels o t :
  downtimeStarts labels (effects (process o t))
  = if negb (isReady (obsDeployment o))
       && bool_decide (downtimeStart t !! keyOf (obsDeployment o) = None)
       && bool_decide (labelsOf (obsDeployment o) = labels)
    then 1%nat else 0%nat.
Proof.
  unfold downtimeStarts.
  rewrite (countWhere_process _ deploymentDowntimeStart);
    [apply downtimeStarts_settle|by_evaluation|apply isSet_writes].
Qed.

Lemma record_recovery (r0 : Registry) (labels : list string) (l : LogLine) (v1 v2 : Q) :
  let r1 := recordAll [ Log l; GaugeSet deploymentDowntimeDuration labels v1;
                        GaugeSet deploymentRecoveryTimeMs labels v2;
                        CounterInc deploymentRestartCount labels ] r0 in
  r1 !! (deploymentDowntimeDuration, labels) = Some v1
  ∧ r1 !! (deploymentRecoveryTimeMs, labels) = Some v2
  ∧ r1 !! (deploymentRestartCount, labels)
    = Some (default 0 (r0 !! (deploymentRestartCount, labels)) + 1)%Q.
Proof.
  unfold recordAll. simpl. repeat split.
  - rewrite !lookup_insert_ne by (apply key_ne; by_evaluation). apply lookup_insert_eq.
  - rewrite lookup_insert_ne by (apply key_ne; by_evaluation). apply lookup_insert_eq.
  - rewrite lookup_insert_eq.
    rewrite !lookup_insert_ne by (apply key_ne; by_evaluation). reflexivity.
Qed.

(** C3. An entity with no record is seen not ready at T1 and, with no
    ready observation of it in between, is next seen ready at T2.  Then the
    record made at T1 is still there, and the call at T2 writes to the
    transition metrics exactly: the downtime duration, which is the
    [float64] that [Duration.Seconds] gives for [(T2-T1)]; the recovery
    time [(T2-T1)] in milliseconds truncated to an integer; and one
    increment of the restart counter.  These are the recorded values
    after the call, and the record is gone.  When the clock has not gone
    back and [(T2-T1)] fits a [Duration], the [float64] of the duration
    gauge is within a relative error of 2^-52 of [(T2-T1)] in seconds, and
    it is that number of seconds itself when [(T2-T1)] is a whole number
    of seconds. *)
Theorem recovery_round_trip (t : DeploymentTracker) (down : Obs) (between : list Obs)
    (up : Obs) (r : Registry) :
  let key := keyOf (obsDeployment down) in
  let labels := labelsOf (obsDeployment down) in
  let T1 := Now (obsEnv down) in
  let T2 := Now (obsEnv up) in
  downtimeStart t !! key = None →
  isReady (obsDeployment down) = false →
  Forall (λ o, keyOf (obsDeployment o) = key → isReady (obsDeployment o) = false) between →
  labelsOf (obsDeployment up) = labels →
  isReady (obsDeployment up) = true →
  let t1 := tracker (processAll (down :: between) t) in
  let es := effects (process up t1) in
  downtimeStart t1 !! key = Some T1
  ∧ List.filter isTransitionWrite es
    = [ GaugeSet deploymentDowntimeDuration labels (time.Seconds (T2 - T1));
        GaugeSet deploymentRecoveryTimeMs labels (float64 ((T2 - T1) `quot` 1000000));
        CounterInc deploymentRestartCount labels ]
  ∧ (T1 <= T2 < T1 + 2 ^ 63 →
     (Qabs (time.Seconds (T2 - T1)%Z - inject_Z (T2 - T1)%Z / inject_Z 1000000000%Z)
      <= inject_Z (T2 - T1)%Z / inject_Z 1000000000%Z * (1 # 4503599627370496))%Q
     ∧ (∀ n : Z, T2 - T1 = n * 1000000000 →
          (time.Seconds (T2 - T1)%Z == inject_Z n)%Q))
  ∧ recoveries labels es = 1%nat
  ∧ recordAll es r !! (deploymentDowntimeDuration, labels) = Some (time.Seconds (T2 - T1))
  ∧ recordAll es r !! (deploymentRecoveryTimeMs, labels)
    = Some (float64 ((T2 - T1) `quot` 1000000))
  ∧ recordAll es r !! (deploymentRestartCount, labels)
    = Some (default 0 (r !! (deploymentRestartCount, labels)) + 1)%Q
  ∧ downtimeStart (tracker (process up t1)) !! key = None.
Proof.
  intros key labels T1 T2 Hup Hdown Hbetween Hsame Hready t1 es.
  assert (keyOf (obsDeployment up) = key) as Hkey by apply labelsOf_keyOf, Hsame.
  assert (downtimeStart t1 !! key = Some T1) as Hrecord.
  { unfold t1. rewrite processAll_cons. unfold tracker at 1. simpl.
    apply store_stays_down; [|exact Hbetween].
    rewrite store_after_process, decide_True, Hdown, Hup by reflexivity. reflexivity. }
  assert (settleEffects (obsEnv up) (obsDeployment up)
            (downtimeStart t1 !! keyOf (obsDeployment up))
          = [ Log (Recovered (Namespace (obsDeployment up)) (Name (obsDeployment up))
                             (time.Seconds (T2 - T1))
                             (float64 ((T2 - T1) `quot` 1000000)));
              GaugeSet deploymentDowntimeDuration labels (time.Seconds (T2 - T1));
              GaugeSet deploymentRecoveryTimeMs labels (float64 ((T2 - T1) `quot` 1000000));
              CounterInc deploymentRestartCount labels ]) as Hsettle.
  { unfold settleEffects. rewrite Hready, Hkey, Hrecord, Hsame. reflexivity. }
  split; [exact Hrecord|].
  split. { unfold es, process. rewrite transition_writes, Hsettle. reflexivity. }
  split.
  { intros Hclock.
    assert (0 <= T2 - T1 < 2 ^ 63) as Hfits by (clear - Hclock; clearbody T1 T2; lia).
    split; [apply Seconds_accuracy, Hfits|].
    intros n Hwhole. rewrite Hwhole in *. apply Seconds_whole. lia. }
  split.
  { unfold es. rewrite recoveries_process, Hready, Hkey, Hrecord, Hsame.
    rewrite !bool_decide_eq_true_2 by eauto. reflexivity. }
  assert (∀ m, m ∈ transitionMetrics →
            recordAll (alwaysEffects (obsEnv up) (obsDeployment up) t1
                       ++ [statusGauge (obsDeployment up)]) r !! (m, labels)
            = r !! (m, labels)) as Hframe.
  { intros m Hm. apply recordAll_before_settle, Hm. }
  unfold es. rewrite effects_process_split, recordAll_app, Hsettle.
  destruct (record_recovery
              (recordAll (alwaysEffects (obsEnv up) (obsDeployment up) t1
                          ++ [statusGauge (obsDeployment up)]) r)
              labels
              (Recovered (Namespace (obsDeployment up)) (Name (obsDeployment up))
                         (time.Seconds (T2 - T1)) (float64 ((T2 - T1) `quot` 1000000)))
              (time.Seconds (T2 - T1)) (float64 ((T2 - T1) `quot` 1000000)))
    as (Hduration & Hrecovery & Hcount).
  rewrite Hframe in Hcount by by_evaluation.
  repeat (split; [assumption|]).
  rewrite store_after_process, Hkey, decide_True, Hready by reflexivity. reflexivity.
Qed.

(** C3 for an outage of 1.001 s: [prod/api] goes down at 10 s, is seen
    down again at 10.5 s and is ready at 11.001 s.  The duration gauge is
    the [float64] 2254051613498933 / 2^51, just below 1.001, and the
    recovery time is 1001 ms. *)
Lemma recovery_round_trip_witness :
  let t1 := tracker (processAll [seenDown (seconds 10); seenDown 10500000000]
                       (newTracker true "")) in
  let es := effects (process (seenUp 11001000000) t1) in
  downtimeStart t1 !! "prod/api" = Some (seconds 10)
  ∧ List.filter isTransitionWrite es
    = [ GaugeSet deploymentDowntimeDuration ["prod"; "api"]
          (2254051613498933 # 2251799813685248);
        GaugeSet deploymentRecoveryTimeMs ["prod"; "api"] 1001;
        CounterInc deploymentRestartCount ["prod"; "api"] ]
  ∧ (Qabs ((2254051613498933 # 2251799813685248) - (1001 # 1000))
     <= (1001 # 1000) * (1 # 4503599627370496))%Q
  ∧ recoveries ["prod"; "api"] es = 1%nat
  ∧ recordAll es ∅ !! (deploymentDowntimeDuration, ["prod"; "api"])
    = Some (2254051613498933 # 2251799813685248)%Q
  ∧ recordAll es ∅ !! (deploymentRecoveryTimeMs, ["prod"; "api"]) = Some 1001%Q
  ∧ recordAll es ∅ !! (deploymentRestartCount, ["prod"; "api"]) = Some 1%Q
  ∧ downtimeStart (tracker (process (seenUp 11001000000) t1)) !! "prod/api" = None.
Proof.
  intros t1 es.
  assert (time.Seconds 1001000000 = (2254051613498933 # 2251799813685248)%Q) as Hvalue
    by (vm_compute; reflexivity).
  assert ((inject_Z 1001000000 / inject_Z 1000000000 == 1001 # 1000)%Q) as Hexact
    by reflexivity.
  pose proof (recovery_round_trip (newTracker true "") (seenDown (seconds 10))
                [seenDown 10500000000] (seenUp 11001000000) ∅ eq_refl eq_refl
                ltac:(repeat constructor) eq_refl eq_refl)
    as (Hrecord & Hwrites & Hclose & Hcount & Hduration & Hms & Hrestart & Hgone).
  change (Now (obsEnv (seenUp 11001000000)) - Now (obsEnv (seenDown (seconds 10))))
    with 1001000000 in Hwrites, Hclose, Hduration, Hms.
  rewrite Hvalue in Hwrites, Hclose, Hduration.
  destruct Hclose as [Hclose _]; [vm_compute; split; [discriminate|reflexivity]|].
  rewrite Hexact in Hclose.
  repeat split; assumption.
Defined.

(** Scenarios A, B and C of the design document, in sequence. *)
Example scenario_A :
  let run := process (seenUp 0) (newTracker true "") in
  recordAll (effects run) ∅ !! (deploymentStatus, ["prod"; "api"]) = Some 1%Q
  ∧ downtimeStart (tracker run) !! "prod/api" = None
  ∧ recoveries ["prod"; "api"] (effects run) = 0%nat.
Proof. vm_compute. repeat split. Qed.

Example scenario_B :
  let t := tracker (process (seenUp 0) (newTracker true "")) in
  let run := process (seenDown (seconds 10)) t in
  recordAll (effects run) ∅ !! (deploymentStatus, ["prod"; "api"]) = Some 0%Q
  ∧ downtimeStart (tracker run) !! "prod/api" = Some (seconds 10)
  ∧ recordAll (effects run) ∅ !! (deploymentDowntimeStart, ["prod"; "api"]) = Some 10%Q.
Proof. vm_compute. repeat split. Qed.

Example scenario_C :
  let t := tracker (processAll [seenUp 0; seenDown (seconds 10)] (newTracker true "")) in
  let run := process (seenUp 12500000000) t in
  recordAll (effects run) ∅ !! (deploymentStatus, ["prod"; "api"]) = Some 1%Q
  ∧ recordAll (effects run) ∅ !! (deploymentRecoveryTimeMs, ["prod"; "api"]) = Some 2500%Q
  ∧ (∃ v, recordAll (effects run) ∅ !! (deploymentDowntimeDuration, ["prod"; "api"]) = Some v
          ∧ (v == 5 # 2)%Q)
  ∧ recordAll (effects run) ∅ !! (deploymentRestartCount, ["prod"; "api"]) = Some 1%Q
  ∧ downtimeStart (tracker run) !! "prod/api" = None.
Proof.
  vm_compute. repeat split. eexists. split; reflexivity.
Qed.

(** ** Not-ready observations and the count of recoveries *)

(** Recoveries of an entity over calls made one after the other, from any
    tracker: the Down→Up transitions of its verdicts, the entity being
    Down at first when the tracker has a record for it. *)
Lemma recoveries_processAll (labels : list string) (key : string) obs t :
  Forall (λ o, labelsOf (obsDeployment o) = labels) obs →
  (∀ o, labelsOf (obsDeployment o) = labels → keyOf (obsDeployment o) = key) →
  recoveries labels (effects (processAll obs t))
  = downUpTransitions (bool_decide (is_Some (downtimeStart t !! key)))
      (map (λ o, isReady (obsDeployment o)) obs).
Proof.
  intros Hobs Hkey. revert t. induction Hobs as [|o obs Ho Hobs IH]; intros t.
  - reflexivity.
  - rewrite processAll_cons. unfold effects at 1. simpl.
    unfold recoveries in *. rewrite countWhere_app, IH.
    fold (recoveries labels (effects (process o t))). rewrite recoveries_process.
    rewrite (Hkey o Ho), (bool_decide_eq_true_2 _ Ho), andb_true_r.
    rewrite store_after_process, decide_True by exact (Hkey o Ho).
    destruct (isReady (obsDeployment o)); simpl;
      rewrite ?andb_true_r, ?andb_false_r; reflexivity.
Qed.

Lemma downtimeStarts_processAll (labels : list string) (key : string) obs t :
  Forall (λ o, labelsOf (obsDeployment o) = labels) obs →
  (∀ o, labelsOf (obsDeployment o) = labels → keyOf (obsDeployment o) = key) →
  downtimeStarts labels (effects (processAll obs t))
  = upDownTransitions (bool_decide (is_Some (downtimeStart t !! key)))
      (map (λ o, isReady (obsDeployment o)) obs).
Proof.
  intros Hobs Hkey. revert t. induction Hobs as [|o obs Ho Hobs IH]; intros t.
  - reflexivity.
  - rewrite processAll_cons. unfold effects at 1. simpl.
    unfold downtimeStarts in *. rewrite countWhere_app, IH.
    fold (downtimeStarts labels (effects (process o t))). rewrite downtimeStarts_process.
    rewrite (Hkey o Ho), (bool_decide_eq_true_2 _ Ho), andb_true_r.
    rewrite store_after_process, decide_True by exact (Hkey o Ho).
    destruct (isReady (obsDeployment o)), (downtimeStart t !! key) as [T|]; reflexivity.
Qed.

Lemma setDowntimeStart_same t : setDowntimeStart (downtimeStart t) t = t.
Proof. destruct t. reflexivity. Qed.

(** C4. A not-ready observation of an entity with no record puts one
    record in the store, with the time of the call, and its only write to
    the transition metrics sets the downtime-start gauge to that time in
    Unix seconds.  A not-ready observation of an entity with a record
    leaves the tracker as it was and writes none of the transition metrics.
    Over any sequence of observations of one entity, processed one after
    the other on a new tracker, the increments of the restart counter are
    as many as the Down→Up transitions of the verdicts. *)
Theorem not_ready_observation (t : DeploymentTracker) (o : Obs) (client : bool)
    (ns : string) (obs : list Obs) (r : Registry) :
  let d := obsDeployment o in
  let now := Now (obsEnv o) in
  (isReady d = false → downtimeStart t !! keyOf d = None →
     downtimeStart (tracker (process o t)) = <[keyOf d := now]> (downtimeStart t)
     ∧ List.filter isTransitionWrite (effects (process o t))
       = [GaugeSet deploymentDowntimeStart (labelsOf d) (float64 (time.Unix now))]
     ∧ recordAll (effects (process o t)) r !! (deploymentDowntimeStart, labelsOf d)
       = Some (float64 (time.Unix now)))
  ∧ (isReady d = false → is_Some (downtimeStart t !! keyOf d) →
     tracker (process o t) = t
     ∧ List.filter isTransitionWrite (effects (process o t)) = [])
  ∧ (Forall (λ o', labelsOf (obsDeployment o') = labelsOf d) obs →
     recoveries (labelsOf d) (effects (processAll obs (newTracker client ns)))
     = downUpTransitions false (map (λ o', isReady (obsDeployment o')) obs)).
Proof.
  intros d now. split; [|split].
  - intros Hnot Hnone. unfold process. fold d. 
    rewrite tracker_processDeployment, transition_writes, effects_processDeployment.
    unfold nextStore, settleStore, settleEffects. rewrite Hnot, Hnone.
    split; [reflexivity|]. split; [reflexivity|].
    rewrite recordAll_app.
    change (recordAll (?e1 :: ?e2 :: ?es) ?r0) with (recordAll es (record (record r0 e1) e2)).
    unfold recordAll at 1. simpl foldl.
    apply lookup_insert_eq.
  - intros Hnot [T HT]. unfold process. fold d.
    rewrite tracker_processDeployment, transition_writes.
    unfold nextStore, settleStore, settleEffects. rewrite Hnot, HT.
    split; [apply setDowntimeStart_same|reflexivity].
  - intros Hobs.
    rewrite (recoveries_processAll (labelsOf d) (keyOf d)).
    + simpl. rewrite lookup_empty. reflexivity.
    + exact Hobs.
    + intros o' Ho'. apply labelsOf_keyOf, Ho'.
Qed.

(** C4 at [prod/api]: down at 10 s from a new tracker; down again at 11 s;
    and the sequence up, down, down, up, down, down, down, up, which has
    two recoveries. *)
Lemma not_ready_observation_witness :
  let t0 := newTracker true "" in
  let t1 := tracker (process (seenDown (seconds 10)) t0) in
  (downtimeStart t1 = <["prod/api" := seconds 10]> ∅
   ∧ List.filter isTransitionWrite (effects (process (seenDown (seconds 10)) t0))
     = [GaugeSet deploymentDowntimeStart ["prod"; "api"] 10]
   ∧ recordAll (effects (process (seenDown (seconds 10)) t0)) ∅
     !! (deploymentDowntimeStart, ["prod"; "api"]) = Some 10%Q)
  ∧ (tracker (process (seenDown (seconds 11)) t1) = t1
     ∧ List.filter isTransitionWrite (effects (process (seenDown (seconds 11)) t1)) = [])
  ∧ recoveries ["prod"; "api"]
      (effects (processAll [ seenUp 0; seenDown 1; seenDown 2; seenUp 3;
                             seenDown 4; seenDown 5; seenDown 6; seenUp 7 ] t0))
    = 2%nat.
Proof.
  intros t0 t1. split; [|split].
  - refine (proj1 (not_ready_observation t0 (seenDown (seconds 10)) true "" [] ∅)
              eq_refl eq_refl).
  - refine (proj1 (proj2 (not_ready_observation t1 (seenDown (seconds 11)) true "" [] ∅))
              eq_refl _).
    exists (seconds 10). reflexivity.
  - refine (proj2 (proj2 (not_ready_observation t0 (seenDown 0) true ""
                            [ seenUp 0; seenDown 1; seenDown 2; seenUp 3;
                              seenDown 4; seenDown 5; seenDown 6; seenUp 7 ] ∅)) _).
    repeat constructor.
Defined.

(** ** The gauges of every call *)

(** C6, as stated, fails when the desired count is unset: the call writes
    neither the desired-replicas gauge nor the availability ratio. *)
Lemma unset_desired_not_emitted :
  let es := effects (processDeployment (quietEnv 0) (api None 0 0) (newTracker true "")) in
  Replicas (api None 0 0) = None
  ∧ List.filter (writesMetric deploymentReplicasDesired) es = []
  ∧ List.filter (writesMetric deploymentAvailabilityRatio) es = [].
Proof. vm_compute. repeat split. Qed.

Lemma statusValue_spec :
  statusValue "True" = 1%Q
  ∧ statusValue "False" = 0%Q
  ∧ ∀ s, s ≠ "True" → s ≠ "False" → statusValue s = (-1)%Q.
Proof.
  split; [reflexivity|]. split; [reflexivity|].
  intros s Htrue Hfalse. unfold statusValue.
  rewrite !decide_False by assumption. reflexivity.
Qed.

Lemma alwaysEffects_emitted env d t e :
  e ∈ alwaysEffects env d t → e ∈ effects (processDeployment env d t).
Proof. rewrite effects_processDeployment. intros He. apply elem_of_app. left. exact He. Qed.

Lemma guarded_gauge_writes (m : string) env d t :
  m ∈ [deploymentReplicasDesired; deploymentAvailabilityRatio] →
  List.filter (writesMetric m) (effects (processDeployment env d t))
  = List.filter (writesMetric m) (desiredGauge d ++ ratioGauge d).
Proof.
  intros Hm. rewrite effects_processDeployment. unfold alwaysEffects.
  rewrite !List.filter_app.
  change (List.filter ?p (statusGauge d :: ?es)) with
    (if p (statusGauge d) then statusGauge d :: List.filter p es else List.filter p es).
  rewrite (filter_none _ (settleEffects _ _ _)).
  2:{ apply settleEffects_frame.
      repeat (apply elem_of_cons in Hm as [->|Hm]; [by_evaluation|]).
      apply elem_of_nil in Hm. contradiction. }
  rewrite (filter_none _ (resourceEffects _ _ _)).
  2:{ eapply onlyWrites_frame; [apply resourceEffects_onlyWrites|].
      repeat (apply elem_of_cons in Hm as [->|Hm]; [by_evaluation|]).
      apply elem_of_nil in Hm. contradiction. }
  rewrite (filter_none _ (map _ _)).
  2:{ apply forallb_forall. intros e [c [<- _]]%in_map_iff. apply negb_true_iff.
      simpl. apply bool_decide_eq_false. intros <-. revert Hm. by_evaluation. }
  repeat (apply elem_of_cons in Hm as [->|Hm]; [rewrite !app_nil_r; reflexivity|]).
  apply elem_of_nil in Hm. contradiction.
Qed.

(** C6, amended.  Every call, whatever the verdict, sets the heartbeat,
    the three metadata gauges, the ready, available, unavailable and
    updated replica gauges, and one gauge per condition, with value 1 for
    the status "True", 0 for "False" and -1 for any other.  The desired
    replica gauge and the availability ratio are set when the desired
    count is set, and only then; the ratio carries the ready and desired
    counts as labels and its value is ready/desired for a positive desired
    count and 0 otherwise. *)
Theorem always_emitted (env : Env) (d : Deployment) (t : DeploymentTracker) :
  let es := effects (processDeployment env d t) in
  let ls := labelsOf d in
  GaugeSet deploymentHeartbeat ls (float64 (time.Unix (Now env))) ∈ es
  ∧ GaugeSet deploymentCreationTime ls (float64 (time.Unix (CreationTimestamp d))) ∈ es
  ∧ GaugeSet deploymentGeneration ls (float64 (Generation d)) ∈ es
  ∧ GaugeSet deploymentObservedGeneration ls (float64 (ObservedGeneration d)) ∈ es
  ∧ GaugeSet deploymentReplicasReady ls (float64 (ReadyReplicas d)) ∈ es
  ∧ GaugeSet deploymentReplicasAvailable ls (float64 (AvailableReplicas d)) ∈ es
  ∧ GaugeSet deploymentReplicasUnavailable ls (float64 (UnavailableReplicas d)) ∈ es
  ∧ GaugeSet deploymentReplicasUpdated ls (float64 (UpdatedReplicas d)) ∈ es
  ∧ (∀ c, c ∈ Conditions d →
       GaugeSet deploymentConditionStatus (ls ++ [Type_ c; Status c])
                (statusValue (Status c)) ∈ es)
  ∧ (statusValue "True" = 1%Q
     ∧ statusValue "False" = 0%Q
     ∧ ∀ s, s ≠ "True" → s ≠ "False" → statusValue s = (-1)%Q)
  ∧ match Replicas d with
    | Some desired =>
      GaugeSet deploymentReplicasDesired ls (float64 desired) ∈ es
      ∧ GaugeSet deploymentAvailabilityRatio
          (ls ++ [Sprintf_d (ReadyReplicas d); Sprintf_d desired])
          (if 0 <? desired then (float64 (ReadyReplicas d) / float64 desired)%Q else 0%Q)
        ∈ es
    | None =>
      List.filter (writesMetric deploymentReplicasDesired) es = []
      ∧ List.filter (writesMetric deploymentAvailabilityRatio) es = []
    end.
Proof.
  intros es ls. unfold es, ls.
  repeat (split; [apply alwaysEffects_emitted; unfold alwaysEffects, headGauges,
                    observedGauges; set_solver|]).
  split.
  { intros c Hc. apply alwaysEffects_emitted. unfold alwaysEffects.
    rewrite !elem_of_app. do 5 right. apply list_elem_of_fmap. exists c. auto. }
  split; [apply statusValue_spec|].
  destruct (Replicas d) as [desired|] eqn:Hdesired.
  - split; apply alwaysEffects_emitted; unfold alwaysEffects, desiredGauge, ratioGauge;
      rewrite Hdesired; set_solver.
  - rewrite !guarded_gauge_writes by set_solver.
    unfold desiredGauge, ratioGauge. rewrite Hdesired. split; reflexivity.
Qed.

(** The amended C6 at [prod/api] with 4 replicas desired and 2 ready. *)
Lemma always_emitted_witness :
  let es := effects (processDeployment (quietEnv (seconds 7)) (api (Some 4) 2 2)
                       (newTracker true "")) in
  GaugeSet deploymentHeartbeat ["prod"; "api"] 7 ∈ es
  ∧ GaugeSet deploymentReplicasDesired ["prod"; "api"] 4 ∈ es
  ∧ GaugeSet deploymentAvailabilityRatio ["prod"; "api"; "2"; "4"] (2 # 4) ∈ es
  ∧ GaugeSet deploymentConditionStatus ["prod"; "api"; "Progressing"; "Unknown"] (-1) ∈ es.
Proof.
  intros es.
  pose proof (always_emitted (quietEnv (seconds 7)) (api (Some 4) 2 2) (newTracker true ""))
    as (Hbeat & _ & _ & _ & _ & _ & _ & _ & Hcond & _ & Hdesired & Hratio).
  repeat split; [exact Hbeat|exact Hdesired|exact Hratio|].
  apply (Hcond {| Type_ := "Progressing"; Status := "Unknown" |}).
  apply list_elem_of_further, list_elem_of_here.
Defined.

(** ** Resource metrics *)

Lemma roundUp_pos (q : Q) : 0 < resource.roundUp q ↔ (0 < q)%Q.
Proof.
  unfold resource.roundUp. destruct (Qle_bool 0 q) eqn:Hsign.
  - split; intros Hpos.
    + apply Qle_lt_trans with (inject_Z (Qceiling q - 1)); [|apply Qceiling_lt].
      change 0%Q with (inject_Z 0). rewrite <- Zle_Qle. lia.
    + rewrite Zlt_Qlt. eapply Qlt_le_trans; [exact Hpos|apply Qle_ceiling].
  - assert (¬ (0 <= q)%Q) as Hneg.
    { intros Hle. apply Qle_bool_iff in Hle. congruence. }
    apply Qnot_le_lt in Hneg. split; intros Hpos.
    + exfalso. rewrite Zlt_Qlt in Hpos.
      apply (Qlt_irrefl 0). eapply Qlt_trans; [exact Hpos|].
      eapply Qle_lt_trans; [apply Qfloor_le|exact Hneg].
    + exfalso. apply (Qlt_irrefl 0). eapply Qlt_trans; eassumption.
Qed.

Lemma roundUp_zero (q : Q) : (q == 0)%Q → resource.roundUp q = 0.
Proof.
  intros Hq. unfold resource.roundUp.
  destruct (Qle_bool 0 q); [rewrite (Qceiling_comp _ _ Hq)|rewrite (Qfloor_comp _ _ Hq)];
    reflexivity.
Qed.

Lemma roundUp_bounds (q : Q) (b : Z) :
  (Qabs q <= inject_Z b)%Q → - b <= resource.roundUp q <= b.
Proof.
  intros [Hlo Hhi]%Qabs_Qle_condition. rewrite <- inject_Z_opp in Hlo.
  pose proof (Qfloor_resp_le _ _ Hlo) as Hfloor1. rewrite Qfloor_Z in Hfloor1.
  pose proof (Qfloor_resp_le _ _ Hhi) as Hfloor2. rewrite Qfloor_Z in Hfloor2.
  pose proof (Qceiling_resp_le _ _ Hlo) as Hceil1. rewrite Qceiling_Z in Hceil1.
  pose proof (Qceiling_resp_le _ _ Hhi) as Hceil2. rewrite Qceiling_Z in Hceil2.
  unfold resource.roundUp. destruct (Qle_bool 0 q); lia.
Qed.

Lemma int64_fits (overflowed v : Z) :
  - (2 ^ 63 - 1) <= v <= 2 ^ 63 - 1 → resource.int64 overflowed v = v.
Proof.
  intros Hv. unfold resource.int64, resource.fitsInt64.
  rewrite (proj2 (Z.ltb_lt _ _)), (proj2 (Z.ltb_lt _ _)) by lia. reflexivity.
Qed.

(** Within [int64], the integer total is positive exactly when the
    quantity is. *)
Lemma Value_pos (overflowed : resource.Overflowed) (q : resource.Quantity) :
  (Qabs q <= inject_Z (2 ^ 63 - 1))%Q →
  0 < resource.Value overflowed q ↔ (0 < q)%Q.
Proof.
  intros Hfits. unfold resource.Value.
  rewrite int64_fits by apply roundUp_bounds, Hfits. apply roundUp_pos.
Qed.

Lemma MilliValue_pos (overflowed : resource.Overflowed) (q : resource.Quantity) :
  (Qabs (q * inject_Z 1000) <= inject_Z (2 ^ 63 - 1))%Q →
  0 < resource.MilliValue overflowed q ↔ (0 < q)%Q.
Proof.
  intros Hfits. unfold resource.MilliValue.
  rewrite int64_fits by apply roundUp_bounds, Hfits.
  rewrite roundUp_pos. split; intros Hpos.
  - apply (Qmult_lt_r _ _ (inject_Z 1000)); [reflexivity|].
    rewrite Qmult_0_l. exact Hpos.
  - rewrite <- (Qmult_0_l (inject_Z 1000)).
    apply Qmult_lt_r; [reflexivity|exact Hpos].
Qed.

(** A zero quantity has the integer values 0, whatever the library
    answers on overflow. *)
Lemma Value_zero (overflowed : resource.Overflowed) (q : resource.Quantity) :
  (q == 0)%Q →
  resource.Value overflowed q = 0 ∧ resource.MilliValue overflowed q = 0.
Proof.
  intros Hq. unfold resource.Value, resource.MilliValue.
  rewrite (roundUp_zero q Hq), (roundUp_zero (q * inject_Z 1000)) by (rewrite Hq; reflexivity).
  split; reflexivity.
Qed.

Lemma addNonZero_nonneg (total q : resource.Quantity) :
  (0 <= total)%Q → (0 <= q)%Q → (0 <= addNonZero total q)%Q.
Proof.
  intros Htotal Hq. unfold addNonZero, resource.Add.
  destruct (negb (resource.IsZero q)); lra.
Qed.

(** Requests that are not negative, as the API server admits them, have
    totals that are not negative. *)
Lemma requests_nonneg (pods : list Pod) :
  Forall (λ pod, Forall (λ c, (0 <= index (Requests c) ResourceCPU)%Q
                              ∧ (0 <= index (Requests c) ResourceMemory)%Q)
                        (Containers pod)) pods →
  (0 <= totalCPURequest (sumPods pods))%Q ∧ (0 <= totalMemoryRequest (sumPods pods))%Q.
Proof.
  intros Hpods. unfold sumPods.
  set (P := λ tot : Totals, (0 <= totalCPURequest tot)%Q ∧ (0 <= totalMemoryRequest tot)%Q).
  assert (P {| totalCPURequest := resource.zero; totalMemoryRequest := resource.zero;
               totalCPULimit := resource.zero; totalMemoryLimit := resource.zero |}) as Hzero
    by (split; discriminate).
  revert Hzero.
  generalize {| totalCPURequest := resource.zero; totalMemoryRequest := resource.zero;
                totalCPULimit := resource.zero; totalMemoryLimit := resource.zero |}.
  induction Hpods as [|pod pods Hpod _ IH]; intros tot Htot; [exact Htot|].
  simpl. apply IH. clear IH. revert tot Htot.
  induction Hpod as [|c cs [Hcpu Hmem] _ IH]; intros tot [Htot1 Htot2]; [split; assumption|].
  simpl. apply IH. split; simpl; apply addNonZero_nonneg; assumption.
Qed.

(** C9. [collectResourceMetrics] writes the CPU usage percentage only
    after a successful pod list and a successful metrics list, and only
    when [MilliValue] of the total CPU request, the integer the guard of
    the code reads, is positive; the value is then the usage divided by
    that positive integer, times 100.  Likewise for memory with [Value]
    of the total memory request.  A zero total has the integer 0: it gives
    no write and no division.  For requests that are not negative the
    totals are not negative, and for a total that is not negative a
    percentage is written only when the total is strictly positive.  For
    a total whose integer fits an [int64] the percentage is written
    exactly when the total is strictly positive. *)
Theorem percent_guarded (env : Env) (ns name : string) (d : Deployment)
    (t : DeploymentTracker) :
  let es := effects (collectResourceMetrics env ns name d t) in
  let MilliValue := resource.MilliValue (Overflowed env) in
  let Value := resource.Value (Overflowed env) in
  List.filter (writesMetric deploymentCPUUsagePercent) es
  = match PodsList env ns (Selector d), metricsClient t,
          PodMetricsList env ns (Selector d) with
    | Ok pods, true, Ok podMetrics =>
      let request := MilliValue (totalCPURequest (sumPods pods)) in
      if 0 <? request
      then [GaugeSet deploymentCPUUsagePercent [ns; name]
              (float64 (sumUsage (Overflowed env) podMetrics).1 / float64 request * 100)%Q]
      else []
    | _, _, _ => []
    end
  ∧ List.filter (writesMetric deploymentMemoryUsagePercent) es
    = match PodsList env ns (Selector d), metricsClient t,
            PodMetricsList env ns (Selector d) with
      | Ok pods, true, Ok podMetrics =>
        let request := Value (totalMemoryRequest (sumPods pods)) in
        if 0 <? request
        then [GaugeSet deploymentMemoryUsagePercent [ns; name]
                (float64 (sumUsage (Overflowed env) podMetrics).2 / float64 request * 100)%Q]
        else []
      | _, _, _ => []
      end
  ∧ (∀ q : resource.Quantity,
       ((q == 0)%Q → (0 <? MilliValue q) = false ∧ (0 <? Value q) = false)
       ∧ ((0 <= q)%Q →
          ((0 <? MilliValue q) = true → (0 < q)%Q)
          ∧ ((0 <? Value q) = true → (0 < q)%Q))
       ∧ ((Qabs (q * inject_Z 1000) <= inject_Z (2 ^ 63 - 1))%Q →
          ((0 <? MilliValue q) = true ↔ (0 < q)%Q))
       ∧ ((Qabs q <= inject_Z (2 ^ 63 - 1))%Q →
          ((0 <? Value q) = true ↔ (0 < q)%Q)))
  ∧ (∀ pods : list Pod,
       Forall (λ pod, Forall (λ c, (0 <= index (Requests c) ResourceCPU)%Q
                                   ∧ (0 <= index (Requests c) ResourceMemory)%Q)
                             (Containers pod)) pods →
       (0 <= totalCPURequest (sumPods pods))%Q
       ∧ (0 <= totalMemoryRequest (sumPods pods))%Q).
Proof.
  intros es MilliValue Value. unfold es, collectResourceMetrics, effects.
  split; [|split; [|split]].
  - destruct (PodsList env ns (Selector d)) as [pods|err]; [|reflexivity].
    unfold bind, hasMetricsClient, Set_, emit; simpl.
    destruct (metricsClient t); [|reflexivity].
    destruct (PodMetricsList env ns (Selector d)) as [pms|err]; [|reflexivity].
    destruct (sumUsage _ pms) as [cpu mem]. unfold when, MilliValue.
    destruct (0 <? resource.MilliValue _ _), (0 <? resource.Value _ _); reflexivity.
  - destruct (PodsList env ns (Selector d)) as [pods|err]; [|reflexivity].
    unfold bind, hasMetricsClient, Set_, emit; simpl.
    destruct (metricsClient t); [|reflexivity].
    destruct (PodMetricsList env ns (Selector d)) as [pms|err]; [|reflexivity].
    destruct (sumUsage _ pms) as [cpu mem]. unfold when, Value.
    destruct (0 <? resource.MilliValue _ _), (0 <? resource.Value _ _); reflexivity.
  - intros q. unfold MilliValue, Value.
    assert ((q == 0)%Q → (0 <? resource.MilliValue (Overflowed env) q) = false
                         ∧ (0 <? resource.Value (Overflowed env) q) = false) as Hzero.
    { intros Hq. destruct (Value_zero (Overflowed env) q Hq) as [-> ->].
      split; reflexivity. }
    split; [exact Hzero|]. split; [|split].
    + intros Hq.
      assert (¬ (q == 0)%Q → (0 < q)%Q) as Hpos by (intros Hne; lra).
      split; intros Hguard; apply Hpos; intros Hq0;
        destruct (Hzero Hq0) as [H1 H2]; congruence.
    + intros Hfits. rewrite Z.ltb_lt. apply MilliValue_pos, Hfits.
    + intros Hfits. rewrite Z.ltb_lt. apply Value_pos, Hfits.
  - apply requests_nonneg.
Qed.

(** C9 at two pods that request 500 millicores and 256 MiB in total, with
    a usage of 100 millicores and 64 MiB: the percentages are 20 and 25. *)
Lemma percent_guarded_witness :
  let es := effects (collectResourceMetrics (busyEnv 0) "prod" "api" (api (Some 3) 3 0)
                                            (newTracker true "")) in
  List.filter (writesMetric deploymentCPUUsagePercent) es
  = [GaugeSet deploymentCPUUsagePercent ["prod"; "api"] (10000 # 500)]
  ∧ List.filter (writesMetric deploymentMemoryUsagePercent) es
    = [GaugeSet deploymentMemoryUsagePercent ["prod"; "api"] (6710886400 # 268435456)]
  ∧ ((0 <? resource.MilliValue zeroOnOverflow 0%Q) = false
     ∧ (0 <? resource.Value zeroOnOverflow 0%Q) = false)
  ∧ ((0 <? resource.MilliValue zeroOnOverflow (1 # 2)%Q) = true → (0 < 1 # 2)%Q)
  ∧ ((0 <? resource.MilliValue zeroOnOverflow (1 # 2)%Q) = true ↔ (0 < 1 # 2)%Q)
  ∧ ((0 <? resource.Value zeroOnOverflow (inject_Z 268435456)) = true
     ↔ (0 < inject_Z 268435456)%Q)
  ∧ (0 <= totalCPURequest (sumPods [ {| Containers := [smallContainer; bareContainer] |} ]))%Q.
Proof.
  intros es.
  pose proof (percent_guarded (busyEnv 0) "prod" "api" (api (Some 3) 3 0) (newTracker true ""))
    as (Hcpu & Hmem & Hguard & Htotals).
  split; [exact Hcpu|]. split; [exact Hmem|].
  destruct (Hguard 0%Q) as (Hzero & _).
  destruct (Hguard (1 # 2)%Q) as (_ & Hnonneg & Hmilli & _).
  destruct (Hguard (inject_Z 268435456)) as (_ & _ & _ & Hvalue).
  split; [apply Hzero; reflexivity|].
  split; [apply Hnonneg; discriminate|].
  split; [apply Hmilli; vm_compute; discriminate|].
  split; [apply Hvalue; vm_compute; discriminate|].
  apply (Htotals [ {| Containers := [smallContainer; bareContainer] |} ]).
  repeat constructor; vm_compute; discriminate.
Defined.

(** With no request at all, no percentage is written.  With a request of
    10^16 CPUs, whose count of millicores does not fit an [int64], the
    library answers 0 for a quantity it holds as an [int64] mantissa: the
    request gauge is 0 and no CPU percentage is written. *)
Example percent_guarded_sample :
  List.filter (λ e, writesMetric deploymentCPUUsagePercent e
                    || writesMetric deploymentMemoryUsagePercent e)
    (effects (collectResourceMetrics (bareEnv 0) "prod" "api" (api (Some 3) 3 0)
                (newTracker true "")))
  = []
  ∧ List.filter (λ e, writesMetric deploymentCPURequest e
                      || writesMetric deploymentCPUUsagePercent e)
      (effects (collectResourceMetrics (hugeEnv 0) "prod" "api" (api (Some 3) 3 0)
                  (newTracker true "")))
    = [GaugeSet deploymentCPURequest ["prod"; "api"] 0].
Proof. vm_compute. repeat split. Qed.

Lemma filter_nil_forallb (p : Effect → bool) es :
  List.filter p es = [] → forallb (λ e, negb (p e)) es = true.
Proof.
  induction es as [|e es IH]; simpl; [reflexivity|].
  destruct (p e); [discriminate|]. exact IH.
Qed.

Lemma resource_not_elsewhere (m : string) :
  m ∈ resourceMetrics →
  (m ∉ gaugeMetrics) ∧ (m ∉ transitionMetrics) ∧ m ≠ deploymentStatus.
Proof.
  intros Hm.
  repeat (apply elem_of_cons in Hm as [->|Hm]; [repeat split; by_evaluation|]).
  apply elem_of_nil in Hm. contradiction.
Qed.

(** Only [collectResourceMetrics] writes the resource metrics. *)
Lemma resource_writes (m : string) env d t :
  m ∈ resourceMetrics →
  List.filter (writesMetric m) (effects (processDeployment env d t))
  = List.filter (writesMetric m) (resourceEffects env d t).
Proof.
  intros Hm. destruct (resource_not_elsewhere m Hm) as (Hgauge & Htransition & Hstatus).
  rewrite effects_processDeployment. unfold alwaysEffects.
  rewrite !List.filter_app.
  change (List.filter ?p (statusGauge d :: ?es)) with
    (if p (statusGauge d) then statusGauge d :: List.filter p es else List.filter p es).
  assert (writesMetric m (statusGauge d) = false) as ->.
  { apply bool_decide_eq_false. congruence. }
  rewrite (filter_none _ (settleEffects _ _ _)) by (apply settleEffects_frame, Htransition).
  rewrite (filter_none _ (map _ _))
    by (eapply onlyWrites_frame; [apply conditionGauges_onlyWrites|exact Hgauge]).
  rewrite (filter_none _ (headGauges _ _))
    by (eapply (onlyWrites_frame _ gaugeMetrics); [reflexivity|exact Hgauge]).
  rewrite (filter_none _ (observedGauges _))
    by (eapply (onlyWrites_frame _ gaugeMetrics); [reflexivity|exact Hgauge]).
  rewrite (filter_none _ (desiredGauge _))
    by (eapply (onlyWrites_frame _ gaugeMetrics);
        [unfold desiredGauge; destruct (Replicas d); reflexivity|exact Hgauge]).
  rewrite (filter_none _ (ratioGauge _))
    by (eapply (onlyWrites_frame _ gaugeMetrics);
        [unfold ratioGauge; destruct (Replicas d); reflexivity|exact Hgauge]).
  rewrite ?app_nil_r. reflexivity.
Qed.

(** C10. When the pod list fails, [collectResourceMetrics] logs the error
    and returns: the call of [processDeployment] writes none of the
    resource metrics, requests and limits included, so all their recorded
    samples are what they were before the call; every other effect of the
    call is there as usual. *)
Theorem pod_list_failure (env : Env) (d : Deployment) (t : DeploymentTracker)
    (err : string) (r : Registry) :
  PodsList env (Namespace d) (Selector d) = Err err →
  let es := effects (processDeployment env d t) in
  effects (collectResourceMetrics env (Namespace d) (Name d) d t)
  = [Log (ErrorListingPods (Namespace d) (Name d) err)]
  ∧ (∀ m, m ∈ resourceMetrics → List.filter (writesMetric m) es = [])
  ∧ (∀ m ls, m ∈ resourceMetrics → recordAll es r !! (m, ls) = r !! (m, ls))
  ∧ es = headGauges env d ++ desiredGauge d ++ observedGauges d ++ ratioGauge d
         ++ [Log (ErrorListingPods (Namespace d) (Name d) err)]
         ++ map (conditionGauge d) (Conditions d)
         ++ statusGauge d :: settleEffects env d (downtimeStart t !! keyOf d).
Proof.
  intros Hfail es.
  assert (resourceEffects env d t = [Log (ErrorListingPods (Namespace d) (Name d) err)])
    as Hresource.
  { unfold resourceEffects, collectResourceMetrics. rewrite Hfail. reflexivity. }
  assert (∀ m, m ∈ resourceMetrics → List.filter (writesMetric m) es = []) as Hnone.
  { intros m Hm. unfold es. rewrite resource_writes, Hresource by exact Hm. reflexivity. }
  split; [exact Hresource|]. split; [exact Hnone|]. split.
  - intros m ls Hm. apply recordAll_frame, filter_nil_forallb, Hnone, Hm.
  - unfold es. rewrite effects_processDeployment. unfold alwaysEffects.
    rewrite Hresource, <- !app_assoc. reflexivity.
Qed.

(** C10 at [prod/api] with a failing pod list, on a registry that has
    500 millicores recorded as its CPU request. *)
Lemma pod_list_failure_witness :
  let r : Registry := {[ (deploymentCPURequest, ["prod"; "api"]) := 500%Q ]} in
  let es := effects (processDeployment (brokenEnv 0) (api (Some 3) 3 0)
                       (newTracker true "")) in
  List.filter (writesMetric deploymentCPURequest) es = []
  ∧ recordAll es r !! (deploymentCPURequest, ["prod"; "api"]) = Some 500%Q
  ∧ GaugeSet deploymentStatus ["prod"; "api"] 1 ∈ es.
Proof.
  intros r es.
  destruct (pod_list_failure (brokenEnv 0) (api (Some 3) 3 0) (newTracker true "")
              "connection refused" r eq_refl) as (_ & Hnone & Hframe & Hes).
  split; [|split].
  - apply Hnone. by_evaluation.
  - unfold es.
    rewrite (Hframe deploymentCPURequest ["prod"; "api"]) by by_evaluation. reflexivity.
  - unfold es. rewrite Hes. vm_compute.
    do 13 apply list_elem_of_further. apply list_elem_of_here.
Defined.

(** ** The feeders *)

Lemma sleeps_app es1 es2 : sleeps (es1 ++ es2) = sleeps es1 ++ sleeps es2.
Proof. apply omap_app. Qed.

Lemma sleeps_resourceEffects env d t : sleeps (resourceEffects env d t) = [].
Proof.
  unfold resourceEffects, collectResourceMetrics, effects.
  destruct (PodsList env _ _) as [pods|err]; [|reflexivity].
  unfold bind, hasMetricsClient, Set_, emit; simpl.
  destruct (metricsClient t); [|reflexivity].
  destruct (PodMetricsList env _ _) as [pms|err]; [|reflexivity].
  destruct (sumUsage _ pms) as [cpu mem]. unfold when.
  destruct (0 <? resource.MilliValue _ _), (0 <? resource.Value _ _); reflexivity.
Qed.

(** A call of [processDeployment] never sleeps. *)
Lemma sleeps_process o t : sleeps (effects (process o t)) = [].
Proof.
  unfold process. rewrite effects_processDeployment. unfold alwaysEffects.
  rewrite !sleeps_app, sleeps_resourceEffects.
  assert (sleeps (map (conditionGauge (obsDeployment o)) (Conditions (obsDeployment o))) = [])
    as ->.
  { induction (Conditions (obsDeployment o)); [reflexivity|assumption]. }
  unfold desiredGauge, ratioGauge, settleEffects.
  destruct (Replicas (obsDeployment o)), (isReady (obsDeployment o)),
    (downtimeStart t !! keyOf (obsDeployment o)); reflexivity.
Qed.

Lemma sleeps_processAll obs t : sleeps (effects (processAll obs t)) = [].
Proof.
  revert t. induction obs as [|o obs IH]; intros t; [reflexivity|].
  rewrite processAll_cons. unfold effects at 1. simpl.
  rewrite sleeps_app, sleeps_process, IH. reflexivity.
Qed.

Lemma rangeResultChan_cons event events t :
  rangeResultChan (event :: events) t
  = match EventType_ event, EventObject event with
    | Error, _ => (tt, t, [Log WatchError])
    | _, OtherObject => rangeResultChan events t
    | _, DeploymentObject o =>
      (tt, tracker (rangeResultChan events (tracker (process o t))),
       effects (process o t) ++ effects (rangeResultChan events (tracker (process o t))))
    end.
Proof.
  simpl. destruct (EventType_ event), (EventObject event) as [o|]; try reflexivity;
    unfold bind; rewrite (run_eta (process o) t); simpl;
    rewrite (run_eta (rangeResultChan events)); reflexivity.
Qed.

Lemma sleeps_rangeResultChan events t : sleeps (effects (rangeResultChan events t)) = [].
Proof.
  revert t. induction events as [|event events IH]; intros t; [reflexivity|].
  rewrite rangeResultChan_cons.
  destruct (EventType_ event), (EventObject event) as [o|]; try reflexivity; try apply IH;
    unfold effects at 1; simpl; rewrite sleeps_app, sleeps_process, IH; reflexivity.
Qed.

Lemma watchDeployments_cons answer answers t :
  watchDeployments (answer :: answers) t
  = match answer with
    | WatchFailed err =>
      (tt, tracker (watchDeployments answers t),
       Log (ErrorCreatingWatcher err) :: Sleep (5 * time.Second)
       :: effects (watchDeployments answers t))
    | Watcher events =>
      let t1 := tracker (rangeResultChan events t) in
      (tt, tracker (watchDeployments answers t1),
       Log StartedWatching
       :: effects (rangeResultChan events t)
       ++ WatcherStop :: Log WatcherStopped :: Sleep (5 * time.Second)
       :: effects (watchDeployments answers t1))
    end.
Proof.
  destruct answer as [err|events]; simpl; unfold bind, logPrintf, emit; simpl.
  - rewrite (run_eta (watchDeployments answers) t). reflexivity.
  - rewrite (run_eta (rangeResultChan events) t). simpl.
    rewrite (run_eta (watchDeployments answers)). reflexivity.
Qed.

Lemma watchDeployments_app answers1 answers2 t :
  watchDeployments (answers1 ++ answers2) t
  = (tt, tracker (watchDeployments answers2 (tracker (watchDeployments answers1 t))),
     effects (watchDeployments answers1 t)
     ++ effects (watchDeployments answers2 (tracker (watchDeployments answers1 t)))).
Proof.
  revert t. induction answers1 as [|answer answers1 IH]; intros t.
  - apply run_eta.
  - rewrite <- app_comm_cons, !watchDeployments_cons.
    destruct answer as [err|events]; cbv zeta; rewrite IH; unfold tracker, effects; simpl.
    + reflexivity.
    + rewrite <- !app_assoc. reflexivity.
Qed.

Lemma sleeps_watchDeployments answers t :
  sleeps (effects (watchDeployments answers t))
  = replicate (length answers) (5 * time.Second).
Proof.
  revert t. induction answers as [|answer answers IH]; intros t; [reflexivity|].
  rewrite watchDeployments_cons. destruct answer as [err|events]; cbv zeta;
    unfold effects at 1; simpl.
  - rewrite IH. reflexivity.
  - rewrite sleeps_app, sleeps_rangeResultChan. simpl. rewrite IH. reflexivity.
Qed.

(** An error event ends the loop over the channel: what comes after it is
    not read. *)
Lemma rangeResultChan_error before event after t :
  Forall (λ e, EventType_ e ≠ Error) before →
  EventType_ event = Error →
  rangeResultChan (before ++ event :: after) t
  = (tt, tracker (rangeResultChan before t),
     effects (rangeResultChan before t) ++ [Log WatchError]).
Proof.
  intros Hbefore Herror. revert t.
  induction Hbefore as [|e before He Hbefore IH]; intros t.
  - simpl. rewrite Herror. reflexivity.
  - rewrite <- app_comm_cons, !rangeResultChan_cons.
    destruct (EventType_ e), (EventObject e) as [o|]; try contradiction;
      rewrite IH; unfold tracker, effects; simpl; rewrite <- ?app_assoc; reflexivity.
Qed.

(** C7. Run against any answers to its [Watch] calls, the watch loop
    sleeps once per call, failed or ended, always 5 seconds; and after any
    answers it goes on with the next ones from where it is, so no answer
    makes it stop.  A failed call is logged and followed by the sleep and
    the next call.  When the channel is closed, the watcher is stopped and
    the next call follows the sleep.  An error event is logged and ends the
    reading of the channel, events after it being dropped, and the loop
    goes on in the same way. *)
Theorem watch_never_gives_up (answers rest : list WatchAnswer) (t : DeploymentTracker)
    (err : string) (events before after : list Event) (event : Event) :
  sleeps (effects (watchDeployments answers t)) = replicate (length answers) (5 * time.Second)
  ∧ watchDeployments (answers ++ rest) t
    = (tt, tracker (watchDeployments rest (tracker (watchDeployments answers t))),
       effects (watchDeployments answers t)
       ++ effects (watchDeployments rest (tracker (watchDeployments answers t))))
  ∧ watchDeployments (WatchFailed err :: rest) t
    = (tt, tracker (watchDeployments rest t),
       Log (ErrorCreatingWatcher err) :: Sleep (5 * time.Second)
       :: effects (watchDeployments rest t))
  ∧ watchDeployments (Watcher events :: rest) t
    = (let t1 := tracker (rangeResultChan events t) in
       (tt, tracker (watchDeployments rest t1),
        Log StartedWatching
        :: effects (rangeResultChan events t)
        ++ WatcherStop :: Log WatcherStopped :: Sleep (5 * time.Second)
        :: effects (watchDeployments rest t1)))
  ∧ (Forall (λ e, EventType_ e ≠ Error) before →
     EventType_ event = Error →
     watchDeployments (Watcher (before ++ event :: after) :: rest) t
     = (let t1 := tracker (rangeResultChan before t) in
        (tt, tracker (watchDeployments rest t1),
         Log StartedWatching
         :: effects (rangeResultChan before t)
         ++ Log WatchError :: WatcherStop :: Log WatcherStopped :: Sleep (5 * time.Second)
         :: effects (watchDeployments rest t1)))).
Proof.
  split; [apply sleeps_watchDeployments|].
  split; [apply watchDeployments_app|].
  split; [apply (watchDeployments_cons (WatchFailed err))|].
  split; [apply (watchDeployments_cons (Watcher events))|].
  intros Hbefore Herror.
  rewrite (watchDeployments_cons (Watcher _)). cbv zeta.
  rewrite (rangeResultChan_error before event after t Hbefore Herror).
  unfold tracker at 2 4, effects at 1. simpl. rewrite <- app_assoc. reflexivity.
Qed.

(** C7 on a watcher that delivers [prod/api] down at 10 s, then an error
    event, then an event that is never read. *)
Lemma watch_never_gives_up_witness :
  effects (watchDeployments
             [Watcher [modified (seenDown (seconds 10)); errorEvent;
                       modified (seenUp (seconds 11))]]
             (newTracker true ""))
  = Log StartedWatching
    :: effects (process (seenDown (seconds 10)) (newTracker true ""))
    ++ [Log WatchError; WatcherStop; Log WatcherStopped; Sleep 5000000000].
Proof.
  pose proof (watch_never_gives_up [] [] (newTracker true "") ""
                [] [modified (seenDown (seconds 10))] [modified (seenUp (seconds 11))]
                errorEvent) as (_ & _ & _ & _ & Herror).
  simpl app in Herror. rewrite Herror.
  - vm_compute. reflexivity.
  - repeat constructor. discriminate.
  - reflexivity.
Defined.

Lemma periodicScrape_cons tick ticks t :
  periodicScrape (tick :: ticks) t
  = match tick with
    | Err err =>
      (tt, tracker (periodicScrape ticks t),
       Log (ErrorListingDeployments err) :: effects (periodicScrape ticks t))
    | Ok items =>
      (tt, tracker (periodicScrape ticks (tracker (processAll items t))),
       effects (processAll items t)
       ++ effects (periodicScrape ticks (tracker (processAll items t))))
    end.
Proof.
  destruct tick as [items|err]; simpl; unfold bind, logPrintf, emit; simpl.
  - fold (processAll items). rewrite (run_eta (processAll items) t). simpl.
    rewrite (run_eta (periodicScrape ticks)). reflexivity.
  - rewrite (run_eta (periodicScrape ticks) t). reflexivity.
Qed.

Lemma sleeps_periodicScrape ticks t : sleeps (effects (periodicScrape ticks t)) = [].
Proof.
  revert t. induction ticks as [|tick ticks IH]; intros t; [reflexivity|].
  rewrite periodicScrape_cons. destruct tick as [items|err]; unfold effects at 1; simpl.
  - rewrite sleeps_app, sleeps_processAll, IH. reflexivity.
  - apply IH.
Qed.

(** C8. A tick whose list call fails only logs the error: the tracker is
    as it was, no call of [processDeployment] is made, and the following
    ticks run as they would have.  A tick whose list call succeeds
    processes every item of the list, in order, each on the tracker left by
    the one before.  The poll loop never sleeps between retries. *)
Theorem list_failure_skipped (err : string) (before after : list Obs) (o : Obs)
    (ticks : list (Result (list Obs))) (t : DeploymentTracker) :
  periodicScrape [Err err] t = (tt, t, [Log (ErrorListingDeployments err)])
  ∧ periodicScrape (Err err :: ticks) t
    = (tt, tracker (periodicScrape ticks t),
       Log (ErrorListingDeployments err) :: effects (periodicScrape ticks t))
  ∧ periodicScrape (Ok (before ++ o :: after) :: ticks) t
    = (let t1 := tracker (processAll before t) in
       let t2 := tracker (process o t1) in
       let t3 := tracker (processAll after t2) in
       (tt, tracker (periodicScrape ticks t3),
        effects (processAll before t)
        ++ effects (process o t1)
        ++ effects (processAll after t2)
        ++ effects (periodicScrape ticks t3)))
  ∧ sleeps (effects (periodicScrape (Err err :: ticks) t)) = [].
Proof.
  split; [reflexivity|].
  split; [apply (periodicScrape_cons (Err err))|].
  split; [|apply sleeps_periodicScrape].
  rewrite (periodicScrape_cons (Ok _)), processAll_app, processAll_cons. cbv zeta.
  unfold tracker at 2 3 7 8, effects at 1 3. simpl. rewrite <- !app_assoc. reflexivity.
Qed.

(** The store after a run of a feeder is the store after the calls it
    made, one after the other. *)
Lemma rangeResultChan_tracker events t :
  tracker (rangeResultChan events t) = tracker (processAll (readObs events) t).
Proof.
  revert t. induction events as [|event events IH]; intros t; [reflexivity|].
  rewrite rangeResultChan_cons. simpl readObs.
  destruct (EventType_ event), (EventObject event) as [o|];
    try reflexivity; try apply IH;
    rewrite processAll_cons; unfold tracker at 1 3; simpl; apply IH.
Qed.

Lemma watchDeployments_tracker answers t :
  tracker (watchDeployments answers t) = tracker (processAll (watchedObs answers) t).
Proof.
  revert t. induction answers as [|answer answers IH]; intros t; [reflexivity|].
  rewrite watchDeployments_cons. unfold watchedObs in *. simpl flat_map.
  destruct answer as [err|events]; cbv zeta; unfold tracker at 1; simpl.
  - apply IH.
  - rewrite processAll_app. unfold tracker at 3. simpl.
    rewrite IH, rangeResultChan_tracker. reflexivity.
Qed.

Lemma periodicScrape_tracker ticks t :
  tracker (periodicScrape ticks t) = tracker (processAll (polledObs ticks) t).
Proof.
  revert t. induction ticks as [|tick ticks IH]; intros t; [reflexivity|].
  rewrite periodicScrape_cons. unfold polledObs in *. simpl flat_map.
  destruct tick as [items|err]; unfold tracker at 1; simpl.
  - rewrite processAll_app. unfold tracker at 3. simpl. rewrite IH. reflexivity.
  - apply IH.
Qed.

(** ** Overlapping calls *)

Arguments alwaysEffects : simpl never.
Arguments settleEffects : simpl never.
Arguments settleStore : simpl never.
Arguments statusGauge : simpl never.

(** The two steps of a call, run with nothing in between, are the call. *)
Lemma readPhase_writePhase o t :
  (found ← readPhase o; writePhase o found) t = process o t.
Proof.
  rewrite process_run. unfold bind, readPhase, writePhase, nextStore. simpl.
  rewrite <- app_assoc. reflexivity.
Qed.

(** A feeder that is between calls and runs two steps in a row makes its
    next call, if it has one. *)
Lemma step_twice f s :
  inFlight (thread f s) = None →
  step (step s f) f
  = match queue (thread f s) with
    | [] => s
    | o :: rest =>
      setThread f {| inFlight := None; queue := rest |}
        {| shared := tracker (process o (shared s));
           trace := trace s ++ effects (process o (shared s));
           watchThread := watchThread s; pollThread := pollThread s |}
    end.
Proof.
  destruct s as [t es [wf wq] [pf pq]], f; simpl; intros ->.
  - destruct wq as [|o rest]; cbn -[process alwaysEffects settleEffects settleStore statusGauge].
    + rewrite !app_nil_r. reflexivity.
    + rewrite process_run. unfold nextStore, tracker, effects.
      cbn -[process alwaysEffects settleEffects settleStore statusGauge].
      rewrite !app_nil_r, <- !app_assoc. reflexivity.
  - destruct pq as [|o rest]; cbn -[process alwaysEffects settleEffects settleStore statusGauge].
    + rewrite !app_nil_r. reflexivity.
    + rewrite process_run. unfold nextStore, tracker, effects.
      cbn -[process alwaysEffects settleEffects settleStore statusGauge].
      rewrite !app_nil_r, <- !app_assoc. reflexivity.
Qed.

(** A serial schedule makes the calls of [merge], one after the other. *)
Lemma runSchedule_serial order t es watched polled :
  runSchedule (serial order)
    {| shared := t; trace := es;
       watchThread := {| inFlight := None; queue := watched |};
       pollThread := {| inFlight := None; queue := polled |} |}
  = {| shared := tracker (processAll (merge order watched polled) t);
       trace := es ++ effects (processAll (merge order watched polled) t);
       watchThread := {| inFlight := None;
                         queue := drop (turns WatchFeeder order) watched |};
       pollThread := {| inFlight := None;
                        queue := drop (turns PollFeeder order) polled |} |}.
Proof.
  revert t es watched polled.
  induction order as [|f order IH]; intros t es watched polled.
  - simpl. rewrite app_nil_r. reflexivity.
  - unfold runSchedule, serial in *. simpl flat_map. simpl foldl.
    rewrite step_twice by (destruct f; reflexivity).
    destruct f; simpl.
    + destruct watched as [|o watched]; simpl.
      * rewrite IH. simpl. rewrite !drop_nil. reflexivity.
      * rewrite IH, processAll_cons. unfold tracker at 3, effects at 3. simpl.
        rewrite <- app_assoc. reflexivity.
    + destruct polled as [|o polled]; simpl.
      * rewrite IH. simpl. rewrite !drop_nil. reflexivity.
      * rewrite IH, processAll_cons. unfold tracker at 3, effects at 3. simpl.
        rewrite <- app_assoc. reflexivity.
Qed.

Lemma merge_Forall (P : Obs → Prop) order watched polled :
  Forall P watched → Forall P polled → Forall P (merge order watched polled).
Proof.
  revert watched polled. induction order as [|f order IH]; intros watched polled Hw Hp.
  - constructor.
  - destruct f; simpl.
    + destruct Hw as [|o watched Ho Hw]; [apply IH; [constructor|exact Hp]|].
      constructor; [exact Ho|apply IH; assumption].
    + destruct Hp as [|o polled Ho Hp]; [apply IH; [exact Hw|constructor]|].
      constructor; [exact Ho|apply IH; assumption].
Qed.

(** C5, as stated, fails.  The watch feeder sees [prod/api] down at 10 s
    and the poll feeder sees it down at 11 s; both calls read the map
    before either writes it.  Both then write a record, the second over
    the first, and the start of the downtime is written twice; made one
    after the other, in either order, the two calls write it once. *)
Lemma overlapping_calls_unsafe : ¬ SafeUnderInterleaving.
Proof.
  intros Hsafe.
  pose proof (Hsafe (newTracker true "") [seenDown (seconds 10)] [seenDown (seconds 11)]
                [WatchFeeder; PollFeeder; WatchFeeder; PollFeeder]) as Hrun.
  cbv zeta in Hrun.
  destruct Hrun as (l & Hl & _ & Hcount); [vm_compute; reflexivity|].
  destruct (Hcount ["prod"; "api"]) as [_ Hstarts].
  inversion Hl as [|o ws ps l1 Hl1|o ws ps l1 Hl1]; subst.
  - inversion Hl1 as [| |o ws ps l2 Hl2]; subst. inversion Hl2; subst.
    vm_compute in Hstarts. discriminate Hstarts.
  - inversion Hl1 as [|o ws ps l2 Hl2|]; subst. inversion Hl2; subst.
    vm_compute in Hstarts. discriminate Hstarts.
Qed.

(** The same overlap, seen in the store and in the trace: the record of
    10 s is overwritten by that of 11 s and the downtime start is written
    twice. *)
Example overlapping_down_calls :
  let s := runSchedule [WatchFeeder; PollFeeder; WatchFeeder; PollFeeder]
             (start (newTracker true "") [seenDown (seconds 10)] [seenDown (seconds 11)]) in
  downtimeStart (shared s) !! "prod/api" = Some (seconds 11)
  ∧ List.filter isTransitionWrite (trace s)
    = [ GaugeSet deploymentDowntimeStart ["prod"; "api"] 10;
        GaugeSet deploymentDowntimeStart ["prod"; "api"] 11 ].
Proof. vm_compute. split; reflexivity. Qed.

(** Two overlapping ready calls after one outage count two recoveries. *)
Example overlapping_up_calls :
  let t1 := tracker (process (seenDown (seconds 10)) (newTracker true "")) in
  let s := runSchedule [WatchFeeder; PollFeeder; WatchFeeder; PollFeeder]
             (start t1 [seenUp (seconds 12)] [seenUp (seconds 13)]) in
  recoveries ["prod"; "api"] (trace s) = 2%nat
  ∧ downUpTransitions true [true; true] = 1%nat.
Proof. vm_compute. split; reflexivity. Qed.

(** C5, amended.  The store is a plain map with no lock.  When the calls
    of the two feeders for one entity are made one after the other, in any
    order of the feeders, the run is that of the merged sequence of calls:
    the store has at most one record for the entity, it has one exactly
    when the last verdict was not ready, and the recoveries and downtime
    starts written are the Down→Up and Up→Down transitions of the merged
    verdicts, one each. *)
Theorem serial_calls_safe (client : bool) (ns : string) (d : Deployment)
    (order : list Feeder) (watched polled : list Obs) :
  Forall (λ o, labelsOf (obsDeployment o) = labelsOf d) watched →
  Forall (λ o, labelsOf (obsDeployment o) = labelsOf d) polled →
  let t := newTracker client ns in
  let s := runSchedule (serial order) (start t watched polled) in
  let calls := merge order watched polled in
  let verdicts := map (λ o, isReady (obsDeployment o)) calls in
  shared s = tracker (processAll calls t)
  ∧ trace s = effects (processAll calls t)
  ∧ (∀ T1 T2, downtimeStart (shared s) !! keyOf d = Some T1 →
              downtimeStart (shared s) !! keyOf d = Some T2 → T1 = T2)
  ∧ (is_Some (downtimeStart (shared s) !! keyOf d) ↔ lastVerdict (keyOf d) calls = Some false)
  ∧ recoveries (labelsOf d) (trace s) = downUpTransitions false verdicts
  ∧ downtimeStarts (labelsOf d) (trace s) = upDownTransitions false verdicts.
Proof.
  intros Hwatched Hpolled t s calls verdicts.
  assert (shared s = tracker (processAll calls t) ∧ trace s = effects (processAll calls t))
    as [Hshared Htrace].
  { unfold s, start. rewrite runSchedule_serial. split; reflexivity. }
  assert (Forall (λ o, labelsOf (obsDeployment o) = labelsOf d) calls) as Hcalls
    by (apply merge_Forall; assumption).
  rewrite Hshared, Htrace. unfold t. rewrite store_downSince.
  split; [reflexivity|]. split; [reflexivity|].
  split; [congruence|]. split; [apply downSince_is_Some|].
  split.
  - rewrite (recoveries_processAll (labelsOf d) (keyOf d)).
    + simpl. rewrite lookup_empty. reflexivity.
    + exact Hcalls.
    + intros o Ho. apply labelsOf_keyOf, Ho.
  - rewrite (downtimeStarts_processAll (labelsOf d) (keyOf d)).
    + simpl. rewrite lookup_empty. reflexivity.
    + exact Hcalls.
    + intros o Ho. apply labelsOf_keyOf, Ho.
Qed.

(** The amended C5 at the two down calls of the counterexample, made one
    after the other, followed by a recovery seen by the poll feeder. *)
Lemma serial_calls_safe_witness :
  let s := runSchedule (serial [WatchFeeder; PollFeeder; PollFeeder])
             (start (newTracker true "") [seenDown (seconds 10)]
                [seenDown (seconds 11); seenUp (seconds 12)]) in
  recoveries ["prod"; "api"] (trace s) = 1%nat
  ∧ downtimeStarts ["prod"; "api"] (trace s) = 1%nat.
Proof.
  intros s.
  destruct (serial_calls_safe true "" (api (Some 3) 3 0)
              [WatchFeeder; PollFeeder; PollFeeder] [seenDown (seconds 10)]
              [seenDown (seconds 11); seenUp (seconds 12)])
    as (_ & _ & _ & _ & Hrecoveries & Hstarts).
  - repeat constructor.
  - repeat constructor.
  - split; [exact Hrecoveries|exact Hstarts].
Defined.

(** * Further properties *)

(** ** Keys and entities *)

Lemma append_nil s : "" +:+ s = s.
Proof. reflexivity. Qed.

Lemma append_cons c s1 s2 : String c s1 +:+ s2 = String c (s1 +:+ s2).
Proof. reflexivity. Qed.

Lemma key_inj ns1 name1 ns2 name2 :
  noSlash ns1 = true → noSlash ns2 = true →
  ns1 +:+ "/" +:+ name1 = ns2 +:+ "/" +:+ name2 →
  ns1 = ns2 ∧ name1 = name2.
Proof.
  revert ns2. induction ns1 as [|c1 ns1 IH]; intros [|c2 ns2];
    repeat (rewrite append_nil || rewrite append_cons); simpl.
  - intros _ _ [= ->]. split; reflexivity.
  - intros _ [Hc _]%andb_true_iff [= <- _]. discriminate Hc.
  - intros [Hc _]%andb_true_iff _ [= -> _]. discriminate Hc.
  - intros [_ H1]%andb_true_iff [_ H2]%andb_true_iff [= -> Hrest].
    destruct (IH ns2 H1 H2 Hrest) as [-> ->]. split; reflexivity.
Qed.

Lemma keyOf_labelsOf d1 d2 :
  noSlash (Namespace d1) = true →
  noSlash (Namespace d2) = true →
  keyOf d1 = keyOf d2 →
  labelsOf d1 = labelsOf d2.
Proof.
  intros H1 H2 Hkey. unfold keyOf in Hkey.
  destruct (key_inj _ _ _ _ H1 H2 Hkey) as [Hns Hname].
  unfold labelsOf. rewrite Hns, Hname. reflexivity.
Qed.

(** X1. The key [ns + "/" + name] tells two entities apart when their
    namespaces have no slash, as Kubernetes names have none: the keys are
    equal exactly when the label pairs are. *)
Theorem key_identifies_entity (d1 d2 : Deployment) :
  noSlash (Namespace d1) = true →
  noSlash (Namespace d2) = true →
  keyOf d1 = keyOf d2 ↔ labelsOf d1 = labelsOf d2.
Proof.
  intros H1 H2. split; [apply keyOf_labelsOf; assumption|apply labelsOf_keyOf].
Qed.

(** X1 at the two entities [prod/api] and [prod/web], whose keys differ
    as their labels do. *)
Lemma key_identifies_entity_witness :
  keyOf (api (Some 3) 3 0) = keyOf (web 2 0) ↔ labelsOf (api (Some 3) 3 0) = labelsOf (web 2 0).
Proof.
  apply key_identifies_entity; reflexivity.
Defined.

(** Without the condition the key can be shared: the entity [c] of
    namespace [a/b] and the entity [b/c] of namespace [a]. *)
Example key_collision :
  "a/b" +:+ "/" +:+ "c" = "a" +:+ "/" +:+ "b/c" ∧ ["a/b"; "c"] ≠ ["a"; "b/c"].
Proof. split; [reflexivity|discriminate]. Qed.

(** ** One entity among many *)

Lemma tracker_processAll_cons o obs t :
  tracker (processAll (o :: obs) t) = tracker (processAll obs (tracker (process o t))).
Proof. rewrite processAll_cons. reflexivity. Qed.

Lemma effects_processAll_cons o obs t :
  effects (processAll (o :: obs) t)
  = effects (process o t) ++ effects (processAll obs (tracker (process o t))).
Proof. rewrite processAll_cons. reflexivity. Qed.

Lemma store_lookup_ext key obs t1 t2 :
  downtimeStart t1 !! key = downtimeStart t2 !! key →
  downtimeStart (tracker (processAll obs t1)) !! key
  = downtimeStart (tracker (processAll obs t2)) !! key.
Proof.
  revert t1 t2. induction obs as [|o obs IH]; intros t1 t2 Hkey; [exact Hkey|].
  rewrite !tracker_processAll_cons.
  apply IH. rewrite !store_after_process, Hkey. reflexivity.
Qed.

Lemma other_entity_key d o :
  noSlash (Namespace d) = true →
  noSlash (Namespace (obsDeployment o)) = true →
  labelsOf (obsDeployment o) ≠ labelsOf d →
  keyOf (obsDeployment o) ≠ keyOf d.
Proof. intros Hd Ho Hne Hkey. apply Hne, keyOf_labelsOf; assumption. Qed.

Lemma observationsOf_cons labels o obs :
  observationsOf labels (o :: obs)
  = if bool_decide (labelsOf (obsDeployment o) = labels)
    then o :: observationsOf labels obs else observationsOf labels obs.
Proof. reflexivity. Qed.

(** X2. Entities do not interfere.  In any sequence of observations whose
    namespaces have no slash, what happens to one entity is what its own
    observations alone would give: the same record in the store, and
    recoveries and downtime starts equal to the Down→Up and Up→Down
    transitions of its own verdicts. *)
Theorem entities_do_not_interfere (d : Deployment) (obs : list Obs)
    (t : DeploymentTracker) :
  noSlash (Namespace d) = true →
  Forall (λ o, noSlash (Namespace (obsDeployment o)) = true) obs →
  let own := observationsOf (labelsOf d) obs in
  let down := bool_decide (is_Some (downtimeStart t !! keyOf d)) in
  downtimeStart (tracker (processAll obs t)) !! keyOf d
  = downtimeStart (tracker (processAll own t)) !! keyOf d
  ∧ recoveries (labelsOf d) (effects (processAll obs t))
    = downUpTransitions down (map (λ o, isReady (obsDeployment o)) own)
  ∧ downtimeStarts (labelsOf d) (effects (processAll obs t))
    = upDownTransitions down (map (λ o, isReady (obsDeployment o)) own).
Proof.
  intros Hd Hobs. cbv zeta. revert t.
  induction Hobs as [|o obs Ho Hobs IH]; intros t.
  - repeat split.
  - rewrite observationsOf_cons, tracker_processAll_cons, effects_processAll_cons.
    unfold recoveries, downtimeStarts in *. rewrite !countWhere_app.
    fold (recoveries (labelsOf d) (effects (process o t))).
    fold (downtimeStarts (labelsOf d) (effects (process o t))).
    rewrite recoveries_process, downtimeStarts_process.
    destruct (IH (tracker (process o t))) as (IHstore & IHrec & IHstart).
    rewrite IHstore, IHrec, IHstart.
    destruct (decide (labelsOf (obsDeployment o) = labelsOf d)) as [Hmine|Hother].
    + rewrite (bool_decide_eq_true_2 _ Hmine), !andb_true_r.
      rewrite tracker_processAll_cons.
      rewrite store_after_process, (labelsOf_keyOf _ _ Hmine), decide_True by reflexivity.
      split; [reflexivity|]. simpl map.
      destruct (isReady (obsDeployment o)), (downtimeStart t !! keyOf d); split; reflexivity.
    + rewrite (bool_decide_eq_false_2 _ Hother), !andb_false_r.
      assert (downtimeStart (tracker (process o t)) !! keyOf d = downtimeStart t !! keyOf d)
        as Hsame.
      { rewrite store_after_process, decide_False; [reflexivity|].
        apply other_entity_key; assumption. }
      rewrite Hsame. split; [|split; reflexivity].
      apply store_lookup_ext, Hsame.
Qed.

(** X2 at [prod/api] going down and up while [prod/web] goes down twice
    and stays down. *)
Lemma entities_do_not_interfere_witness :
  let obs := [ seenUp 0; webDown 1; seenDown 2; webUp 3; webDown 4; seenUp 5 ] in
  let t := newTracker true "" in
  downtimeStart (tracker (processAll obs t)) !! "prod/web"
  = downtimeStart (tracker (processAll [webDown 1; webUp 3; webDown 4] t)) !! "prod/web"
  ∧ recoveries ["prod"; "web"] (effects (processAll obs t)) = 1%nat
  ∧ downtimeStarts ["prod"; "web"] (effects (processAll obs t)) = 2%nat.
Proof.
  intros obs t.
  refine (entities_do_not_interfere (web 2 0) obs t eq_refl _).
  repeat constructor.
Defined.

(** X3. Downtimes are opened and closed in turn.  Over any sequence of
    observations whose namespaces have no slash, the downtime starts
    written for an entity, plus one if it had a record at first, are its
    recoveries, plus one if it has a record at the end: on a new tracker
    the starts exceed the recoveries by one while the entity is down and
    equal them while it is up. *)
Theorem downtime_balance (d : Deployment) (obs : list Obs) (t : DeploymentTracker) :
  noSlash (Namespace d) = true →
  Forall (λ o, noSlash (Namespace (obsDeployment o)) = true) obs →
  let run := processAll obs t in
  (downtimeStarts (labelsOf d) (effects run)
   + (if bool_decide (is_Some (downtimeStart t !! keyOf d)) then 1 else 0)
   = recoveries (labelsOf d) (effects run)
     + (if bool_decide (is_Some (downtimeStart (tracker run) !! keyOf d)) then 1 else 0))%nat.
Proof.
  intros Hd Hobs. cbv zeta. revert t.
  induction Hobs as [|o obs Ho Hobs IH]; intros t.
  - reflexivity.
  - rewrite tracker_processAll_cons, effects_processAll_cons.
    unfold recoveries, downtimeStarts in *. rewrite !countWhere_app.
    fold (recoveries (labelsOf d) (effects (process o t))).
    fold (downtimeStarts (labelsOf d) (effects (process o t))).
    rewrite recoveries_process, downtimeStarts_process.
    specialize (IH (tracker (process o t))).
    rewrite store_after_process in IH.
    destruct (decide (labelsOf (obsDeployment o) = labelsOf d)) as [Hmine|Hother].
    + rewrite (bool_decide_eq_true_2 _ Hmine), !andb_true_r.
      rewrite (labelsOf_keyOf _ _ Hmine), decide_True in * by reflexivity.
      destruct (isReady (obsDeployment o)), (downtimeStart t !! keyOf d);
        simpl in *; lia.
    + rewrite (bool_decide_eq_false_2 _ Hother), !andb_false_r.
      rewrite decide_False in IH by (apply other_entity_key; assumption).
      simpl. exact IH.
Qed.

(** X3 at [prod/web], down at the end of the sequence of X2. *)
Lemma downtime_balance_witness :
  let run := processAll [ seenUp 0; webDown 1; seenDown 2; webUp 3; webDown 4; seenUp 5 ]
               (newTracker true "") in
  (downtimeStarts ["prod"; "web"] (effects run) + 0
   = recoveries ["prod"; "web"] (effects run) + 1)%nat.
Proof.
  intros run.
  refine (downtime_balance (web 2 0) _ (newTracker true "") eq_refl _).
  repeat constructor.
Defined.

(** ** What the registry holds after a run *)

Lemma record_lookup_ext (e : Effect) (r1 r2 : Registry) (k : string * list string) :
  r1 !! k = r2 !! k → record r1 e !! k = record r2 e !! k.
Proof.
  intros Hk. destruct e as [m ls v|m ls| | |]; simpl; try exact Hk.
  - rewrite !lookup_insert. destruct (decide ((m, ls) = k)); [reflexivity|exact Hk].
  - rewrite !lookup_insert. destruct (decide ((m, ls) = k)) as [<-|]; [|exact Hk].
    rewrite Hk. reflexivity.
Qed.

Lemma recordAll_lookup_ext (es : list Effect) (r1 r2 : Registry) (k : string * list string) :
  r1 !! k = r2 !! k → recordAll es r1 !! k = recordAll es r2 !! k.
Proof.
  revert r1 r2. induction es as [|e es IH]; intros r1 r2 Hk; [exact Hk|].
  unfold recordAll in *. simpl. apply IH, record_lookup_ext, Hk.
Qed.

(** For the samples of the transition metrics, a call is its lines
    835-865. *)
Lemma recordAll_transition (m : string) (ls : list string) (o : Obs)
    (t : DeploymentTracker) (r : Registry) :
  m ∈ transitionMetrics →
  recordAll (effects (process o t)) r !! (m, ls)
  = recordAll (settleEffects (obsEnv o) (obsDeployment o)
                 (downtimeStart t !! keyOf (obsDeployment o))) r !! (m, ls).
Proof.
  intros Hm. rewrite effects_process_split, recordAll_app.
  apply recordAll_lookup_ext, recordAll_before_settle, Hm.
Qed.

Lemma recordAll_cons (e : Effect) (es : list Effect) (r : Registry) :
  recordAll (e :: es) r = recordAll es (record r e).
Proof. reflexivity. Qed.

Lemma restart_after_settle (env : Env) (d : Deployment) (found : option time.Time)
    (labels : list string) (r : Registry) :
  (default 0 (recordAll (settleEffects env d found) r !! (deploymentRestartCount, labels))
   == default 0 (r !! (deploymentRestartCount, labels))
      + inject_Z (Z.of_nat (recoveries labels (settleEffects env d found))))%Q.
Proof.
  rewrite recoveries_settle. unfold settleEffects.
  destruct (isReady d), found as [T|]; simpl andb;
    rewrite ?(bool_decide_eq_false_2 (is_Some None)) by (intros [? [=]]);
    rewrite ?(bool_decide_eq_true_2 (is_Some (Some T))) by eauto;
    simpl andb.
  - destruct (decide (labelsOf d = labels)) as [<-|Hne].
    + rewrite bool_decide_eq_true_2 by reflexivity.
      destruct (record_recovery r (labelsOf d)
                  (Recovered (Namespace d) (Name d)
                     (time.Seconds (time.Sub (Now env) T))
                     (float64 (time.Milliseconds (time.Sub (Now env) T))))
                  (time.Seconds (time.Sub (Now env) T))
                  (float64 (time.Milliseconds (time.Sub (Now env) T))))
        as (_ & _ & ->).
      reflexivity.
    + rewrite bool_decide_eq_false_2 by exact Hne.
      unfold recordAll. simpl foldl.
      rewrite lookup_insert_ne by congruence.
      rewrite !lookup_insert_ne by (apply key_ne; by_evaluation).
      simpl. rewrite Qplus_0_r. reflexivity.
  - unfold recordAll. simpl. rewrite Qplus_0_r. reflexivity.
  - unfold recordAll. simpl. rewrite Qplus_0_r. reflexivity.
  - unfold recordAll. simpl foldl.
    rewrite lookup_insert_ne by (apply key_ne; by_evaluation).
    simpl. rewrite Qplus_0_r. reflexivity.
Qed.

Lemma recoveries_process_settle labels o t :
  recoveries labels (effects (process o t))
  = recoveries labels (settleEffects (obsEnv o) (obsDeployment o)
                         (downtimeStart t !! keyOf (obsDeployment o))).
Proof.
  unfold recoveries.
  apply (countWhere_process _ deploymentRestartCount); [by_evaluation|apply isInc_writes].
Qed.

(** X4. The restart counter counts the recoveries.  After any sequence of
    calls, on any registry, the recorded restart counter of an entity is
    its value before plus the number of recoveries written for the entity,
    so it never goes down. *)
Theorem restart_counter_counts (labels : list string) (obs : list Obs)
    (t : DeploymentTracker) (r : Registry) :
  let es := effects (processAll obs t) in
  let before := default 0%Q (r !! (deploymentRestartCount, labels)) in
  let after := default 0%Q (recordAll es r !! (deploymentRestartCount, labels)) in
  (after == before + inject_Z (Z.of_nat (recoveries labels es)))%Q
  ∧ (before <= after)%Q.
Proof.
  cbv zeta.
  assert (default 0%Q (recordAll (effects (processAll obs t)) r
                        !! (deploymentRestartCount, labels))
          == default 0%Q (r !! (deploymentRestartCount, labels))
             + inject_Z (Z.of_nat (recoveries labels (effects (processAll obs t)))))%Q
    as Hcount.
  { revert t r. induction obs as [|o obs IH]; intros t r.
    - simpl. rewrite Qplus_0_r. reflexivity.
    - rewrite effects_processAll_cons, recordAll_app, IH.
      unfold recoveries. rewrite countWhere_app, Nat2Z.inj_add, inject_Z_plus.
      fold (recoveries labels (effects (process o t))).
      fold (recoveries labels (effects (processAll obs (tracker (process o t))))).
      rewrite recordAll_transition by by_evaluation.
      rewrite restart_after_settle, <- recoveries_process_settle.
      rewrite Qplus_assoc. reflexivity. }
  split; [exact Hcount|].
  rewrite Hcount. rewrite <- (Qplus_0_r (default 0%Q _)) at 1.
  apply Qplus_le_r. change 0%Q with (inject_Z 0). rewrite <- Zle_Qle. lia.
Qed.

Lemma start_after_settle (env : Env) (d : Deployment) (found : option time.Time)
    (labels : list string) (r : Registry) :
  recordAll (settleEffects env d found) r !! (deploymentDowntimeStart, labels)
  = if negb (isReady d) && bool_decide (found = None) && bool_decide (labelsOf d = labels)
    then Some (float64 (time.Unix (Now env)))
    else r !! (deploymentDowntimeStart, labels).
Proof.
  unfold settleEffects.
  destruct (isReady d), found as [T|]; simpl andb; try reflexivity.
  - unfold recordAll. simpl foldl.
    rewrite !lookup_insert_ne by (apply key_ne; by_evaluation). reflexivity.
  - unfold recordAll. simpl foldl. rewrite lookup_insert.
    destruct (decide (labelsOf d = labels)) as [<-|Hne].
    + rewrite decide_True, bool_decide_eq_true_2 by reflexivity. reflexivity.
    + rewrite decide_False, bool_decide_eq_false_2 by congruence. reflexivity.
Qed.

(** The record of an entity and its downtime-start sample agree, and a
    call keeps it so. *)
Lemma start_agrees_step (d : Deployment) (o : Obs) (t : DeploymentTracker) (r : Registry) :
  noSlash (Namespace d) = true →
  noSlash (Namespace (obsDeployment o)) = true →
  (∀ T, downtimeStart t !! keyOf d = Some T →
        r !! (deploymentDowntimeStart, labelsOf d) = Some (float64 (time.Unix T))) →
  ∀ T, downtimeStart (tracker (process o t)) !! keyOf d = Some T →
       recordAll (effects (process o t)) r !! (deploymentDowntimeStart, labelsOf d)
       = Some (float64 (time.Unix T)).
Proof.
  intros Hd Ho Hinv T. rewrite store_after_process.
  rewrite recordAll_transition, start_after_settle by by_evaluation.
  destruct (decide (labelsOf (obsDeployment o) = labelsOf d)) as [Hmine|Hother].
  - rewrite (bool_decide_eq_true_2 _ Hmine), andb_true_r.
    rewrite (labelsOf_keyOf _ _ Hmine), decide_True by reflexivity.
    destruct (isReady (obsDeployment o)); [discriminate|].
    destruct (downtimeStart t !! keyOf d) as [T0|] eqn:Hrecord; simpl; intros [= <-].
    + apply Hinv. reflexivity.
    + reflexivity.
  - rewrite (bool_decide_eq_false_2 _ Hother), andb_false_r.
    rewrite decide_False by (apply other_entity_key; assumption). apply Hinv.
Qed.

(** X5. The downtime-start gauge of an entity that is down is the time of
    its record.  After any sequence of observations whose namespaces have
    no slash, processed on a new tracker and any registry, an entity that
    has a record has the Unix seconds of the record as its downtime-start
    sample. *)
Theorem start_gauge_is_record_time (d : Deployment) (obs : list Obs) (client : bool)
    (ns : string) (r : Registry) (T : time.Time) :
  noSlash (Namespace d) = true →
  Forall (λ o, noSlash (Namespace (obsDeployment o)) = true) obs →
  let run := processAll obs (newTracker client ns) in
  downtimeStart (tracker run) !! keyOf d = Some T →
  recordAll (effects run) r !! (deploymentDowntimeStart, labelsOf d)
  = Some (float64 (time.Unix T)).
Proof.
  intros Hd Hobs. cbv zeta.
  assert (∀ T0, downtimeStart (newTracker client ns) !! keyOf d = Some T0 →
                r !! (deploymentDowntimeStart, labelsOf d) = Some (float64 (time.Unix T0)))
    as Hinv.
  { intros T0. simpl. rewrite lookup_empty. discriminate. }
  revert Hinv T. generalize (newTracker client ns) as t. revert r.
  induction Hobs as [|o obs Ho Hobs IH]; intros r t Hinv T.
  - apply Hinv.
  - rewrite tracker_processAll_cons, effects_processAll_cons, recordAll_app.
    apply IH. apply start_agrees_step; assumption.
Qed.

(** X5 at [prod/api], down since 10 s and seen down again later. *)
Lemma start_gauge_is_record_time_witness :
  let run := processAll [ seenUp 0; webDown (seconds 3); seenDown (seconds 10);
                          seenDown (seconds 11); webUp (seconds 12) ]
               (newTracker true "") in
  recordAll (effects run) ∅ !! (deploymentDowntimeStart, ["prod"; "api"]) = Some 10%Q.
Proof.
  intros run.
  refine (start_gauge_is_record_time (api (Some 3) 0 3) _ true "" ∅ (seconds 10)
            eq_refl _ _).
  - repeat constructor.
  - vm_compute. reflexivity.
Defined.

Lemma recordAll_written_once (m : string) (ls0 ls : list string) (v : Q)
    (es : list Effect) (r : Registry) :
  List.filter (writesMetric m) es = [GaugeSet m ls0 v] →
  recordAll es r !! (m, ls) = if decide (ls0 = ls) then Some v else r !! (m, ls).
Proof.
  revert r. induction es as [|e es IH]; intros r; simpl List.filter; [discriminate|].
  destruct (writesMetric m e) eqn:He.
  - intros [= -> Hrest]. rewrite recordAll_cons.
    rewrite recordAll_frame by (apply filter_nil_forallb, Hrest).
    simpl. rewrite lookup_insert.
    destruct (decide (ls0 = ls)) as [->|Hne].
    + rewrite decide_True by reflexivity. reflexivity.
    + rewrite decide_False by congruence. reflexivity.
  - intros Hrest. rewrite recordAll_cons, (IH _ Hrest), record_frame by exact He.
    reflexivity.
Qed.

Lemma plain_gauge_elsewhere (m : string) :
  m ∈ plainGauges →
  (m ∉ resourceMetrics) ∧ (m ∉ transitionMetrics) ∧ m ≠ deploymentStatus
  ∧ m ≠ deploymentConditionStatus.
Proof.
  intros Hm.
  repeat (apply elem_of_cons in Hm as [->|Hm]; [repeat split; by_evaluation|]).
  apply elem_of_nil in Hm. contradiction.
Qed.

(** The gauges of lines 775-802 are written by those lines only. *)
Lemma plain_gauge_writes (m : string) env d t :
  m ∈ plainGauges →
  List.filter (writesMetric m) (effects (processDeployment env d t))
  = List.filter (writesMetric m)
      (headGauges env d ++ desiredGauge d ++ observedGauges d ++ ratioGauge d).
Proof.
  intros Hm.
  destruct (plain_gauge_elsewhere m Hm) as (Hresource & Htransition & Hstatus & Hcond).
  rewrite effects_processDeployment. unfold alwaysEffects.
  rewrite !List.filter_app.
  change (List.filter ?p (statusGauge d :: ?es)) with
    (if p (statusGauge d) then statusGauge d :: List.filter p es else List.filter p es).
  assert (writesMetric m (statusGauge d) = false) as ->.
  { apply bool_decide_eq_false. congruence. }
  rewrite (filter_none _ (settleEffects _ _ _)) by (apply settleEffects_frame, Htransition).
  rewrite (filter_none _ (resourceEffects _ _ _))
    by (eapply onlyWrites_frame; [apply resourceEffects_onlyWrites|exact Hresource]).
  rewrite (filter_none _ (map _ _)).
  2:{ apply forallb_forall. intros e [c [<- _]]%in_map_iff. apply negb_true_iff.
      apply bool_decide_eq_false. congruence. }
  rewrite !app_nil_r. reflexivity.
Qed.

Lemma heartbeat_written_once env d t :
  List.filter (writesMetric deploymentHeartbeat) (effects (processDeployment env d t))
  = [GaugeSet deploymentHeartbeat (labelsOf d) (float64 (time.Unix (Now env)))].
Proof.
  rewrite plain_gauge_writes by by_evaluation.
  unfold desiredGauge, ratioGauge. destruct (Replicas d); reflexivity.
Qed.

Lemma ready_written_once env d t :
  List.filter (writesMetric deploymentReplicasReady) (effects (processDeployment env d t))
  = [GaugeSet deploymentReplicasReady (labelsOf d) (float64 (ReadyReplicas d))].
Proof.
  rewrite plain_gauge_writes by by_evaluation.
  unfold desiredGauge, ratioGauge. destruct (Replicas d); reflexivity.
Qed.

(** A gauge that every call writes once, with the labels of its entity,
    holds what the last observation of the entity gave. *)
Lemma latest_wins (m : string) (g : Obs → Q) (labels : list string) (obs : list Obs)
    (t : DeploymentTracker) (r : Registry) :
  (∀ o t', List.filter (writesMetric m) (effects (process o t'))
           = [GaugeSet m (labelsOf (obsDeployment o)) (g o)]) →
  recordAll (effects (processAll obs t)) r !! (m, labels)
  = match last (observationsOf labels obs) with
    | Some o => Some (g o)
    | None => r !! (m, labels)
    end.
Proof.
  intros Honce. revert t r. induction obs as [|o obs IH]; intros t r; [reflexivity|].
  rewrite effects_processAll_cons, recordAll_app, IH, observationsOf_cons.
  rewrite (recordAll_written_once m _ labels _ _ r (Honce o t)).
  destruct (decide (labelsOf (obsDeployment o) = labels)) as [Hmine|Hother].
  - rewrite (bool_decide_eq_true_2 _ Hmine).
    change (o :: ?l) with ([o] ++ l). rewrite last_app.
    destruct (last (observationsOf labels obs)); reflexivity.
  - rewrite (bool_decide_eq_false_2 _ Hother). reflexivity.
Qed.

(** X6. The last observation wins.  After any sequence of calls, the
    status, heartbeat and ready-replica samples of an entity are those of
    the last observation of the entity in the sequence, whatever was
    observed of other entities after it; with no observation of the entity
    they are what they were. *)
Theorem last_observation_wins (labels : list string) (obs : list Obs)
    (t : DeploymentTracker) (r : Registry) :
  let r' := recordAll (effects (processAll obs t)) r in
  match last (observationsOf labels obs) with
  | Some o =>
    r' !! (deploymentStatus, labels)
    = Some (if isReady (obsDeployment o) then 1%Q else 0%Q)
    ∧ r' !! (deploymentHeartbeat, labels) = Some (float64 (time.Unix (Now (obsEnv o))))
    ∧ r' !! (deploymentReplicasReady, labels)
      = Some (float64 (ReadyReplicas (obsDeployment o)))
  | None =>
    r' !! (deploymentStatus, labels) = r !! (deploymentStatus, labels)
    ∧ r' !! (deploymentHeartbeat, labels) = r !! (deploymentHeartbeat, labels)
    ∧ r' !! (deploymentReplicasReady, labels) = r !! (deploymentReplicasReady, labels)
  end.
Proof.
  cbv zeta.
  pose proof (latest_wins deploymentStatus
                (λ o, if isReady (obsDeployment o) then 1%Q else 0%Q) labels obs t r
                (λ o t', status_written_once _ _ _)) as Hstatus.
  pose proof (latest_wins deploymentHeartbeat
                (λ o, float64 (time.Unix (Now (obsEnv o)))) labels obs t r
                (λ o t', heartbeat_written_once _ _ _)) as Hbeat.
  pose proof (latest_wins deploymentReplicasReady
                (λ o, float64 (ReadyReplicas (obsDeployment o))) labels obs t r
                (λ o t', ready_written_once _ _ _)) as Hready.
  destruct (last (observationsOf labels obs)); repeat split; assumption.
Qed.

(** ** Series that are never reset *)

Lemma effects_processAll_elem (e : Effect) obs t :
  e ∈ effects (processAll obs t) → ∃ o t', o ∈ obs ∧ e ∈ effects (process o t').
Proof.
  revert t. induction obs as [|o obs IH]; intros t.
  - intros He. apply elem_of_nil in He. contradiction.
  - rewrite effects_processAll_cons. intros [He|He]%elem_of_app.
    + exists o, t. split; [apply list_elem_of_here|exact He].
    + destruct (IH _ He) as (o' & t' & Ho' & He').
      exists o', t'. split; [apply list_elem_of_further, Ho'|exact He'].
Qed.

Lemma process_elem_processAll (e : Effect) o obs t :
  o ∈ obs → (∀ t', e ∈ effects (process o t')) → e ∈ effects (processAll obs t).
Proof.
  revert t. induction obs as [|o' obs IH]; intros t Ho He.
  - apply elem_of_nil in Ho. contradiction.
  - rewrite effects_processAll_cons. apply elem_of_app.
    apply elem_of_cons in Ho as [->|Ho]; [left; apply He|right; apply IH; assumption].
Qed.

(** A sample that is only ever set to one value holds that value once it
    has been set. *)
Lemma recordAll_set_all (m : string) (ls : list string) (v : Q) (es : list Effect)
    (r : Registry) :
  (∀ e, e ∈ es → isSet m ls e || isInc m ls e = true → e = GaugeSet m ls v) →
  GaugeSet m ls v ∈ es ∨ r !! (m, ls) = Some v →
  recordAll es r !! (m, ls) = Some v.
Proof.
  revert r. induction es as [|e es IH]; intros r Hall Hin.
  - destruct Hin as [Hin|Hr]; [apply elem_of_nil in Hin; contradiction|exact Hr].
  - rewrite recordAll_cons. apply IH.
    + intros e' He'. apply Hall, list_elem_of_further, He'.
    + destruct (isSet m ls e || isInc m ls e) eqn:Htouch.
      * right. rewrite (Hall e (list_elem_of_here _ _) Htouch). simpl.
        apply lookup_insert_eq.
      * destruct Hin as [Hin|Hr].
        -- apply elem_of_cons in Hin as [<-|Hin]; [|left; exact Hin].
           simpl in Htouch. rewrite bool_decide_eq_true_2 in Htouch by auto.
           discriminate Htouch.
        -- right. apply orb_false_iff in Htouch as [Hset Hinc].
           destruct e as [m' ls' v'|m' ls'| | |]; simpl in *; try exact Hr.
           ++ apply bool_decide_eq_false in Hset.
              rewrite lookup_insert_ne; [exact Hr|]. intros [= -> ->]. auto.
           ++ apply bool_decide_eq_false in Hinc.
              rewrite lookup_insert_ne; [exact Hr|]. intros [= -> ->]. auto.
Qed.

Lemma condition_writes env d t :
  List.filter (writesMetric deploymentConditionStatus) (effects (processDeployment env d t))
  = map (conditionGauge d) (Conditions d).
Proof.
  rewrite effects_processDeployment. unfold alwaysEffects.
  rewrite !List.filter_app.
  change (List.filter ?p (statusGauge d :: ?es)) with
    (if p (statusGauge d) then statusGauge d :: List.filter p es else List.filter p es).
  assert (writesMetric deploymentConditionStatus (statusGauge d) = false) as -> by reflexivity.
  rewrite (filter_none _ (settleEffects _ _ _)) by (apply settleEffects_frame; by_evaluation).
  rewrite (filter_none _ (resourceEffects _ _ _))
    by (eapply onlyWrites_frame; [apply resourceEffects_onlyWrites|by_evaluation]).
  rewrite (filter_none _ (desiredGauge _))
    by (unfold desiredGauge; destruct (Replicas d); reflexivity).
  rewrite (filter_none _ (ratioGauge _))
    by (unfold ratioGauge; destruct (Replicas d); reflexivity).
  rewrite (filter_none _ (headGauges _ _)) by reflexivity.
  rewrite (filter_none _ (observedGauges _)) by reflexivity.
  rewrite !app_nil_r. simpl.
  induction (Conditions d) as [|c cs IH]; [reflexivity|].
  simpl. rewrite IH. reflexivity.
Qed.

Lemma touches_writes m ls e :
  isSet m ls e || isInc m ls e = true → writesMetric m e = true.
Proof.
  intros [H|H]%orb_true_iff; [eapply isSet_writes|eapply isInc_writes]; exact H.
Qed.

Lemma touches_labels m ls m' ls' v :
  isSet m ls (GaugeSet m' ls' v) || isInc m ls (GaugeSet m' ls' v) = true → ls' = ls.
Proof.
  simpl. rewrite orb_false_r. intros [_ H]%bool_decide_eq_true. exact H.
Qed.

(** X7. Condition series are never reset.  After any sequence of calls,
    for every observation in it and every condition of that observation,
    the sample labelled with the entity, the condition type and the status
    string still holds the value of that status string: 1 for "True", 0
    for "False", -1 otherwise.  So when a condition changes status, the
    series of the old status keeps its value beside the new one. *)
Theorem condition_series_persist (obs : list Obs) (t : DeploymentTracker) (r : Registry)
    (o : Obs) (c : DeploymentCondition) :
  o ∈ obs →
  c ∈ Conditions (obsDeployment o) →
  recordAll (effects (processAll obs t)) r
  !! (deploymentConditionStatus, labelsOf (obsDeployment o) ++ [Type_ c; Status c])
  = Some (statusValue (Status c)).
Proof.
  intros Ho Hc. apply recordAll_set_all.
  - intros e He Htouch.
    destruct (effects_processAll_elem e obs t He) as (o' & t' & _ & He').
    assert (e ∈ map (conditionGauge (obsDeployment o')) (Conditions (obsDeployment o')))
      as Hgauge.
    { unfold process in He'. rewrite <- (condition_writes (obsEnv o') _ t').
      apply list_elem_of_In, filter_In. split; [apply list_elem_of_In, He'|].
      eapply touches_writes, Htouch. }
    apply list_elem_of_fmap in Hgauge as (c' & -> & _).
    unfold conditionGauge in *. pose proof (touches_labels _ _ _ _ _ Htouch) as Hlabels.
    rewrite Hlabels. f_equal.
    unfold labelsOf in Hlabels. simpl in Hlabels. injection Hlabels as _ _ _ ->.
    reflexivity.
  - left. apply (process_elem_processAll _ o); [exact Ho|].
    intros t'. unfold process. apply alwaysEffects_emitted. unfold alwaysEffects.
    rewrite !elem_of_app. do 5 right. apply list_elem_of_fmap. exists c. auto.
Qed.

(** X7 at [prod/web]: after it came back up, the series of the status
    "False" of its condition still holds 0 and the new one holds 1. *)
Lemma condition_series_persist_witness :
  let r := recordAll (effects (processAll [webDown 1; webUp 2] (newTracker true ""))) ∅ in
  r !! (deploymentConditionStatus, ["prod"; "web"; "Available"; "False"]) = Some 0%Q
  ∧ r !! (deploymentConditionStatus, ["prod"; "web"; "Available"; "True"]) = Some 1%Q.
Proof.
  intros r. split.
  - refine (condition_series_persist [webDown 1; webUp 2] (newTracker true "") ∅
              (webDown 1) {| Type_ := "Available"; Status := "False" |} _ _).
    + apply list_elem_of_here.
    + apply list_elem_of_here.
  - refine (condition_series_persist [webDown 1; webUp 2] (newTracker true "") ∅
              (webUp 2) {| Type_ := "Available"; Status := "True" |} _ _).
    + apply list_elem_of_further, list_elem_of_here.
    + apply list_elem_of_here.
Defined.

Lemma ratio_writes env d t :
  List.filter (writesMetric deploymentAvailabilityRatio) (effects (processDeployment env d t))
  = ratioGauge d.
Proof.
  rewrite plain_gauge_writes by by_evaluation.
  unfold desiredGauge, ratioGauge. destruct (Replicas d); reflexivity.
Qed.

(** X8. Availability-ratio series are never reset.  The ratio of a call
    is labelled with the ready and desired counts in decimal, so after any
    sequence of calls every pair of counts ever observed for an entity
    still has its sample, holding the ratio of that pair: ready/desired
    for a positive desired count and 0 otherwise. *)
Theorem ratio_series_persist (obs : list Obs) (t : DeploymentTracker) (r : Registry)
    (o : Obs) (desired : Z) :
  o ∈ obs →
  Replicas (obsDeployment o) = Some desired →
  let ready := ReadyReplicas (obsDeployment o) in
  recordAll (effects (processAll obs t)) r
  !! (deploymentAvailabilityRatio,
      labelsOf (obsDeployment o) ++ [Sprintf_d ready; Sprintf_d desired])
  = Some (if 0 <? desired then (float64 ready / float64 desired)%Q else 0%Q).
Proof.
  intros Ho Hdesired ready. apply recordAll_set_all.
  - intros e He Htouch.
    destruct (effects_processAll_elem e obs t He) as (o' & t' & _ & He').
    assert (e ∈ ratioGauge (obsDeployment o')) as Hgauge.
    { unfold process in He'. rewrite <- (ratio_writes (obsEnv o') _ t').
      apply list_elem_of_In, filter_In. split; [apply list_elem_of_In, He'|].
      eapply touches_writes, Htouch. }
    unfold ratioGauge in Hgauge.
    destruct (Replicas (obsDeployment o')) as [desired'|];
      [|apply elem_of_nil in Hgauge; contradiction].
    apply list_elem_of_singleton in Hgauge as ->.
    pose proof (touches_labels _ _ _ _ _ Htouch) as Hlabels.
    rewrite Hlabels. f_equal.
    unfold labelsOf in Hlabels. simpl in Hlabels.
    injection Hlabels as _ _ Hready Hdesired'.
    apply (inj pretty) in Hready, Hdesired'. fold ready. rewrite Hready, Hdesired'.
    reflexivity.
  - left. apply (process_elem_processAll _ o); [exact Ho|].
    intros t'. unfold process. apply alwaysEffects_emitted. unfold alwaysEffects, ratioGauge.
    rewrite Hdesired, !elem_of_app. do 3 right. left. apply list_elem_of_here.
Qed.

(** X8 at [prod/api] seen with 0 of 3 and then 3 of 3 replicas ready:
    both series are there. *)
Lemma ratio_series_persist_witness :
  let r := recordAll (effects (processAll [seenDown 1; seenUp 2] (newTracker true ""))) ∅ in
  r !! (deploymentAvailabilityRatio, ["prod"; "api"; "0"; "3"]) = Some (0 # 3)%Q
  ∧ r !! (deploymentAvailabilityRatio, ["prod"; "api"; "3"; "3"]) = Some (3 # 3)%Q.
Proof.
  intros r. split.
  - refine (ratio_series_persist [seenDown 1; seenUp 2] (newTracker true "") ∅
              (seenDown 1) 3 _ eq_refl).
    apply list_elem_of_here.
  - refine (ratio_series_persist [seenDown 1; seenUp 2] (newTracker true "") ∅
              (seenUp 2) 3 _ eq_refl).
    apply list_elem_of_further, list_elem_of_here.
Defined.

(** X9. A ready entity has ratio 1, and the ratio of an entity whose
    ready count is between 0 and its desired count is between 0 and 1. *)
Theorem ratio_bounds (env : Env) (d : Deployment) (t : DeploymentTracker) (desired : Z) :
  Replicas d = Some desired →
  ∃ v, List.filter (writesMetric deploymentAvailabilityRatio)
         (effects (processDeployment env d t))
       = [GaugeSet deploymentAvailabilityRatio
            (labelsOf d ++ [Sprintf_d (ReadyReplicas d); Sprintf_d desired]) v]
     ∧ (isReady d = true → (v == 1)%Q)
     ∧ (0 <= ReadyReplicas d <= desired → (0 <= v <= 1)%Q)
     ∧ (desired <= 0 → v = 0%Q).
Proof.
  intros Hdesired. rewrite ratio_writes. unfold ratioGauge. rewrite Hdesired.
  eexists. split; [reflexivity|]. split; [|split].
  - intros Hready. apply isReady_spec in Hready as (Hsame & Hpos & _).
    unfold desiredReplicas in *. rewrite Hdesired in *.
    apply Z.ltb_lt in Hpos as Hpos'. rewrite Hpos', Hsame.
    unfold float64. apply Qmult_inv_r. intros Hzero.
    apply (inject_Z_injective desired 0) in Hzero. lia.
  - intros [Hlow Hhigh]. destruct (0 <? desired) eqn:Hpos.
    + apply Z.ltb_lt in Hpos. unfold float64.
      assert (0 < inject_Z desired)%Q as Hq.
      { change 0%Q with (inject_Z 0). rewrite <- Zlt_Qlt. exact Hpos. }
      split.
      * apply Qle_shift_div_l; [exact Hq|]. rewrite Qmult_0_l.
        change 0%Q with (inject_Z 0). rewrite <- Zle_Qle. exact Hlow.
      * apply Qle_shift_div_r; [exact Hq|]. rewrite Qmult_1_l.
        rewrite <- Zle_Qle. exact Hhigh.
    + split; discriminate.
  - intros Hneg. rewrite (proj2 (Z.ltb_ge 0 desired)) by exact Hneg. reflexivity.
Qed.

(** X9 at [prod/api] with 3 of 3 replicas ready. *)
Lemma ratio_bounds_witness :
  ∃ v, List.filter (writesMetric deploymentAvailabilityRatio)
         (effects (processDeployment (quietEnv 0) (api (Some 3) 3 0) (newTracker true "")))
       = [GaugeSet deploymentAvailabilityRatio ["prod"; "api"; "3"; "3"] v]
     ∧ (v == 1)%Q.
Proof.
  destruct (ratio_bounds (quietEnv 0) (api (Some 3) 3 0) (newTracker true "") 3 eq_refl)
    as (v & Hv & Hready & _).
  exists v. split; [exact Hv|apply Hready; reflexivity].
Defined.

(** ** Writes and the registered vectors *)

Lemma wellFormed_resourceEffects env d t :
  forallb wellFormedWrite (resourceEffects env d t) = true.
Proof.
  unfold resourceEffects, collectResourceMetrics, effects.
  destruct (PodsList env _ _) as [pods|err]; [|reflexivity].
  unfold bind, hasMetricsClient, Set_, emit; simpl.
  destruct (metricsClient t); [|reflexivity].
  destruct (PodMetricsList env _ _) as [pms|err]; [|reflexivity].
  destruct (sumUsage _ pms) as [cpu mem]. unfold when.
  destruct (0 <? resource.MilliValue _ _), (0 <? resource.Value _ _); reflexivity.
Qed.

Lemma wellFormed_process o t : forallb wellFormedWrite (effects (process o t)) = true.
Proof.
  unfold process. rewrite effects_processDeployment. unfold alwaysEffects.
  rewrite !forallb_app, wellFormed_resourceEffects.
  assert (forallb wellFormedWrite
            (map (conditionGauge (obsDeployment o)) (Conditions (obsDeployment o))) = true)
    as ->.
  { induction (Conditions (obsDeployment o)) as [|c cs IH]; [reflexivity|exact IH]. }
  unfold desiredGauge, ratioGauge, settleEffects, statusGauge.
  destruct (Replicas (obsDeployment o)), (isReady (obsDeployment o)),
    (downtimeStart t !! keyOf (obsDeployment o)); reflexivity.
Qed.

Lemma wellFormed_processAll obs t : forallb wellFormedWrite (effects (processAll obs t)) = true.
Proof.
  revert t. induction obs as [|o obs IH]; intros t; [reflexivity|].
  rewrite effects_processAll_cons, forallb_app, wellFormed_process, IH. reflexivity.
Qed.

Lemma effects_rangeResultChan_cons event events t :
  effects (rangeResultChan (event :: events) t)
  = match EventType_ event, EventObject event with
    | Error, _ => [Log WatchError]
    | _, OtherObject => effects (rangeResultChan events t)
    | _, DeploymentObject o =>
      effects (process o t) ++ effects (rangeResultChan events (tracker (process o t)))
    end.
Proof.
  rewrite rangeResultChan_cons.
  destruct (EventType_ event), (EventObject event); reflexivity.
Qed.

Lemma wellFormed_rangeResultChan events t :
  forallb wellFormedWrite (effects (rangeResultChan events t)) = true.
Proof.
  revert t. induction events as [|event events IH]; intros t; [reflexivity|].
  rewrite effects_rangeResultChan_cons.
  destruct (EventType_ event), (EventObject event) as [o|];
    rewrite ?forallb_app, ?wellFormed_process, ?IH; reflexivity.
Qed.

Lemma effects_watchDeployments_cons answer answers t :
  effects (watchDeployments (answer :: answers) t)
  = match answer with
    | WatchFailed err =>
      Log (ErrorCreatingWatcher err) :: Sleep (5 * time.Second)
      :: effects (watchDeployments answers t)
    | Watcher events =>
      Log StartedWatching
      :: effects (rangeResultChan events t)
      ++ WatcherStop :: Log WatcherStopped :: Sleep (5 * time.Second)
      :: effects (watchDeployments answers (tracker (rangeResultChan events t)))
    end.
Proof. rewrite watchDeployments_cons. destruct answer; reflexivity. Qed.

Lemma effects_periodicScrape_cons tick ticks t :
  effects (periodicScrape (tick :: ticks) t)
  = match tick with
    | Err err => Log (ErrorListingDeployments err) :: effects (periodicScrape ticks t)
    | Ok items =>
      effects (processAll items t)
      ++ effects (periodicScrape ticks (tracker (processAll items t)))
    end.
Proof. rewrite periodicScrape_cons. destruct tick; reflexivity. Qed.

(** X10. No write can panic on its labels.  In every run of the watch
    feeder and of the poll feeder, every [Set] is on a registered gauge
    vector and every [Inc] on a registered counter vector, with exactly as
    many label values as the vector has label names; and [init] registers
    no name twice. *)
Theorem writes_fit_vectors (answers : list WatchAnswer) (ticks : list (Result (list Obs)))
    (t : DeploymentTracker) :
  forallb wellFormedWrite (effects (watchDeployments answers t)) = true
  ∧ forallb wellFormedWrite (effects (periodicScrape ticks t)) = true
  ∧ NoDup (map vecName registeredVecs).
Proof.
  split; [|split].
  - revert t. induction answers as [|answer answers IH]; intros t; [reflexivity|].
    rewrite effects_watchDeployments_cons. destruct answer as [err|events].
    + simpl. apply IH.
    + simpl. rewrite forallb_app, wellFormed_rangeResultChan. simpl. apply IH.
  - revert t. induction ticks as [|tick ticks IH]; intros t; [reflexivity|].
    rewrite effects_periodicScrape_cons. destruct tick as [items|err].
    + rewrite forallb_app, wellFormed_processAll. apply IH.
    + simpl. apply IH.
  - apply (bool_decide_unpack _). vm_compute. exact I.
Qed.

(** ** More on [collectResourceMetrics] *)

(** X11. Without usage figures the requests and limits are still written.
    When the pod list succeeds and the tracker has no metrics client, or
    the pod metrics list fails, [collectResourceMetrics] writes the four
    request and limit gauges and nothing else: no usage gauge, no
    percentage, and no log line. *)
Theorem usage_degrades (env : Env) (ns name : string) (d : Deployment)
    (t : DeploymentTracker) (pods : list Pod) :
  PodsList env ns (Selector d) = Ok pods →
  metricsClient t = false ∨ (∃ err, PodMetricsList env ns (Selector d) = Err err) →
  collectResourceMetrics env ns name d t
  = (tt, t,
     [ GaugeSet deploymentCPURequest [ns; name]
         (float64 (resource.MilliValue (Overflowed env) (totalCPURequest (sumPods pods))));
       GaugeSet deploymentMemoryRequest [ns; name]
         (float64 (resource.Value (Overflowed env) (totalMemoryRequest (sumPods pods)))
          / 1024 / 1024)%Q;
       GaugeSet deploymentCPULimit [ns; name]
         (float64 (resource.MilliValue (Overflowed env) (totalCPULimit (sumPods pods))));
       GaugeSet deploymentMemoryLimit [ns; name]
         (float64 (resource.Value (Overflowed env) (totalMemoryLimit (sumPods pods)))
          / 1024 / 1024)%Q ]).
Proof.
  intros Hpods Hdegraded. unfold collectResourceMetrics. rewrite Hpods.
  unfold bind, hasMetricsClient, Set_, emit; simpl.
  destruct Hdegraded as [->|[err ->]]; [reflexivity|].
  destruct (metricsClient t); reflexivity.
Qed.

(** X11 on a tracker with no metrics client, in a cluster whose pods
    request 500 millicores and 256 MiB. *)
Lemma usage_degrades_witness :
  effects (collectResourceMetrics (busyEnv 0) "prod" "api" (api (Some 3) 3 0)
             (newTracker false ""))
  = [ GaugeSet deploymentCPURequest ["prod"; "api"] 500;
      GaugeSet deploymentMemoryRequest ["prod"; "api"] (268435456 # 1048576);
      GaugeSet deploymentCPULimit ["prod"; "api"] 1000;
      GaugeSet deploymentMemoryLimit ["prod"; "api"] (0 # 1048576) ].
Proof.
  rewrite (usage_degrades (busyEnv 0) "prod" "api" (api (Some 3) 3 0) (newTracker false "")
             _ eq_refl (or_introl eq_refl)).
  vm_compute. reflexivity.
Defined.

(** X12. [collectResourceMetrics] leaves the tracker as it is, and all it
    does is log a failed pod list or set resource gauges of the entity it
    was called for. *)
Theorem collectResourceMetrics_frame (env : Env) (ns name : string) (d : Deployment)
    (t : DeploymentTracker) (e : Effect) :
  tracker (collectResourceMetrics env ns name d t) = t
  ∧ (e ∈ effects (collectResourceMetrics env ns name d t) →
     (∃ err, e = Log (ErrorListingPods ns name err))
     ∨ (∃ m v, m ∈ resourceMetrics ∧ e = GaugeSet m [ns; name] v)).
Proof.
  split; [rewrite collectResourceMetrics_run; reflexivity|].
  unfold collectResourceMetrics, effects.
  destruct (PodsList env ns (Selector d)) as [pods|err].
  2:{ intros ->%list_elem_of_singleton. left. eauto. }
  unfold bind, hasMetricsClient, Set_, emit; simpl.
  intros He. right.
  destruct (metricsClient t);
    [destruct (PodMetricsList env ns (Selector d)) as [pms|err];
     [destruct (sumUsage _ pms) as [cpu mem]; unfold when in He;
      destruct (0 <? resource.MilliValue _ _), (0 <? resource.Value _ _)|]|];
    simpl in He;
    repeat (apply elem_of_cons in He as [->|He];
            [eexists _, _; split; [|reflexivity]; by_evaluation|]);
    apply elem_of_nil in He; contradiction.
Qed.

(** X12 at the CPU request gauge of a successful call. *)
Lemma collectResourceMetrics_frame_witness :
  (∃ err, GaugeSet deploymentCPURequest ["prod"; "api"] 500
          = Log (ErrorListingPods "prod" "api" err))
  ∨ (∃ m v, m ∈ resourceMetrics
            ∧ GaugeSet deploymentCPURequest ["prod"; "api"] 500
              = GaugeSet m ["prod"; "api"] v).
Proof.
  apply (collectResourceMetrics_frame (busyEnv 0) "prod" "api" (api (Some 3) 3 0)
           (newTracker true "")).
  vm_compute. apply list_elem_of_here.
Defined.

Lemma addNonZero_plus (total q : resource.Quantity) : (addNonZero total q == total + q)%Q.
Proof.
  unfold addNonZero, resource.IsZero, resource.Add.
  destruct (Qeq_bool q 0) eqn:Hzero; simpl; [|reflexivity].
  apply Qeq_bool_iff in Hzero. rewrite Hzero, Qplus_0_r. reflexivity.
Qed.

Lemma foldl_plus_Qeq {A} (f : A → Q) (l : list A) (a b : Q) :
  (a == b)%Q → (foldl (λ x c, x + f c) a l == foldl (λ x c, x + f c) b l)%Q.
Proof.
  revert a b. induction l as [|c l IH]; intros a b Hab; simpl; [exact Hab|].
  apply IH. rewrite Hab. reflexivity.
Qed.

Lemma foldl_addContainer (proj : Totals → Q) (f : Container → Q) (cs : list Container)
    (tot : Totals) :
  (∀ tot' c, proj (addContainer tot' c) == proj tot' + f c)%Q →
  (proj (foldl addContainer tot cs) == foldl (λ a c, a + f c) (proj tot) cs)%Q.
Proof.
  intros Hstep. revert tot. induction cs as [|c cs IH]; intros tot; simpl; [reflexivity|].
  rewrite IH. apply foldl_plus_Qeq, Hstep.
Qed.

Lemma foldl_pods_Qeq (f : Container → Q) (pods : list Pod) (a b : Q) :
  (a == b)%Q →
  (foldl (λ acc pod, foldl (λ x c, x + f c) acc (Containers pod)) a pods
   == foldl (λ acc pod, foldl (λ x c, x + f c) acc (Containers pod)) b pods)%Q.
Proof.
  revert a b. induction pods as [|pod pods IH]; intros a b Hab; simpl; [exact Hab|].
  apply IH, foldl_plus_Qeq, Hab.
Qed.

Lemma sumPods_proj (proj : Totals → Q) (f : Container → Q) (pods : list Pod) :
  (∀ tot c, proj (addContainer tot c) == proj tot + f c)%Q →
  proj {| totalCPURequest := resource.zero; totalMemoryRequest := resource.zero;
          totalCPULimit := resource.zero; totalMemoryLimit := resource.zero |} = 0%Q →
  (proj (sumPods pods) == sumOver f pods)%Q.
Proof.
  intros Hstep Hzero. unfold sumPods, sumOver. rewrite <- Hzero.
  generalize {| totalCPURequest := resource.zero; totalMemoryRequest := resource.zero;
                totalCPULimit := resource.zero; totalMemoryLimit := resource.zero |}.
  induction pods as [|pod pods IH]; intros tot; simpl; [reflexivity|].
  rewrite IH. apply foldl_pods_Qeq, foldl_addContainer, Hstep.
Qed.

(** X13. Skipping the zero entries changes no total: each of the four
    totals of [collectResourceMetrics] is the plain sum, over all
    containers of all listed pods, of the request or limit of the
    container, an absent one counting as zero. *)
Theorem totals_are_sums (pods : list Pod) :
  (totalCPURequest (sumPods pods) == sumOver (λ c, index (Requests c) ResourceCPU) pods)%Q
  ∧ (totalMemoryRequest (sumPods pods)
     == sumOver (λ c, index (Requests c) ResourceMemory) pods)%Q
  ∧ (totalCPULimit (sumPods pods) == sumOver (λ c, index (Limits c) ResourceCPU) pods)%Q
  ∧ (totalMemoryLimit (sumPods pods)
     == sumOver (λ c, index (Limits c) ResourceMemory) pods)%Q.
Proof.
  repeat split; apply sumPods_proj; try reflexivity;
    intros tot c; apply addNonZero_plus.
Qed.

Lemma wrap64_id (z : Z) : - 2^63 <= z < 2^63 → wrap64 z = z.
Proof. intros Hz. unfold wrap64. rewrite Z.mod_small; lia. Qed.

Lemma sumUsage_flat (overflowed : resource.Overflowed) (pms : list PodMetrics)
    (acc : Z * Z) :
  foldl (λ acc pm, foldl (addUsage overflowed) acc (MetricsContainers pm)) acc pms
  = foldl (addUsage overflowed) acc (allUsage pms).
Proof.
  revert acc. induction pms as [|pm pms IH]; intros acc; simpl; [reflexivity|].
  rewrite IH. unfold allUsage. simpl. rewrite foldl_app. reflexivity.
Qed.

Lemma foldl_addUsage_exact (overflowed : resource.Overflowed)
    (usage : list ResourceList) (acc : Z * Z) :
  Forall (λ u, 0 <= resource.MilliValue overflowed (index u ResourceCPU)
               ∧ 0 <= resource.Value overflowed (index u ResourceMemory)) usage →
  0 <= acc.1 → 0 <= acc.2 →
  acc.1 + sumZ (map (λ u, resource.MilliValue overflowed (index u ResourceCPU)) usage) < 2^63 →
  acc.2 + sumZ (map (λ u, resource.Value overflowed (index u ResourceMemory)) usage) < 2^63 →
  foldl (addUsage overflowed) acc usage
  = (acc.1 + sumZ (map (λ u, resource.MilliValue overflowed (index u ResourceCPU)) usage),
     acc.2 + sumZ (map (λ u, resource.Value overflowed (index u ResourceMemory)) usage)).
Proof.
  intros Hpos. revert acc.
  induction Hpos as [|u usage [Hcpu Hmem] Hpos IH]; intros [a b]; simpl.
  - intros _ _ _ _. rewrite !Z.add_0_r. reflexivity.
  - intros Ha Hb Hsum1 Hsum2.
    assert (0 <= sumZ (map (λ u, resource.MilliValue overflowed (index u ResourceCPU)) usage))
      as H1.
    { clear -Hpos. induction Hpos as [|? ? [? ?] ? IH']; simpl; lia. }
    assert (0 <= sumZ (map (λ u, resource.Value overflowed (index u ResourceMemory)) usage)) as H2.
    { clear -Hpos. induction Hpos as [|? ? [? ?] ? IH']; simpl; lia. }
    unfold addUsage at 2. simpl.
    rewrite !wrap64_id by lia.
    rewrite IH; simpl; try lia. f_equal; lia.
Qed.

(** X14. The usage totals are exact while they fit.  When no container
    reports a negative usage and the sums of the CPU usages in millicores
    and of the memory usages in bytes are below 2^63, the two [int64]
    totals of [collectResourceMetrics] are those sums. *)
Theorem usage_totals_exact (overflowed : resource.Overflowed) (pms : list PodMetrics) :
  let cpu := map (λ u, resource.MilliValue overflowed (index u ResourceCPU)) (allUsage pms) in
  let mem := map (λ u, resource.Value overflowed (index u ResourceMemory)) (allUsage pms) in
  Forall (λ u, 0 <= resource.MilliValue overflowed (index u ResourceCPU)
               ∧ 0 <= resource.Value overflowed (index u ResourceMemory)) (allUsage pms) →
  sumZ cpu < 2^63 →
  sumZ mem < 2^63 →
  sumUsage overflowed pms = (sumZ cpu, sumZ mem).
Proof.
  intros cpu mem Hpos Hcpu Hmem. unfold sumUsage.
  rewrite sumUsage_flat, foldl_addUsage_exact; simpl; try assumption; try lia.
  reflexivity.
Qed.

(** X14 at a usage of 100 millicores and 64 MiB. *)
Lemma usage_totals_exact_witness : sumUsage zeroOnOverflow someUsage = (100, 67108864).
Proof.
  apply (usage_totals_exact zeroOnOverflow someUsage).
  - repeat constructor; vm_compute; discriminate.
  - reflexivity.
  - reflexivity.
Defined.

(** ** The feeders as sequences of calls *)

Lemma effects_processAll_app obs1 obs2 t :
  effects (processAll (obs1 ++ obs2) t)
  = effects (processAll obs1 t) ++ effects (processAll obs2 (tracker (processAll obs1 t))).
Proof. rewrite processAll_app. reflexivity. Qed.

Lemma writes_rangeResultChan events t :
  List.filter isWrite (effects (rangeResultChan events t))
  = List.filter isWrite (effects (processAll (readObs events) t)).
Proof.
  revert t. induction events as [|event events IH]; intros t; [reflexivity|].
  rewrite effects_rangeResultChan_cons. simpl readObs.
  destruct (EventType_ event), (EventObject event) as [o|];
    try reflexivity; try apply IH;
    rewrite effects_processAll_cons, !List.filter_app, IH; reflexivity.
Qed.

Lemma writes_watchDeployments answers t :
  List.filter isWrite (effects (watchDeployments answers t))
  = List.filter isWrite (effects (processAll (watchedObs answers) t)).
Proof.
  revert t. induction answers as [|answer answers IH]; intros t; [reflexivity|].
  rewrite effects_watchDeployments_cons. unfold watchedObs in *. simpl flat_map.
  destruct answer as [err|events].
  - simpl. apply IH.
  - rewrite effects_processAll_app. simpl List.filter.
    rewrite !List.filter_app. simpl List.filter.
    rewrite IH, writes_rangeResultChan, rangeResultChan_tracker. reflexivity.
Qed.

Lemma writes_periodicScrape ticks t :
  List.filter isWrite (effects (periodicScrape ticks t))
  = List.filter isWrite (effects (processAll (polledObs ticks) t)).
Proof.
  revert t. induction ticks as [|tick ticks IH]; intros t; [reflexivity|].
  rewrite effects_periodicScrape_cons. unfold polledObs in *. simpl flat_map.
  destruct tick as [items|err].
  - rewrite effects_processAll_app, !List.filter_app, IH. reflexivity.
  - simpl. apply IH.
Qed.

(** X15. The watch feeder is a sequence of calls of [processDeployment]:
    one for each deployment event read, in order, whatever the type of the
    event, a deleted deployment included; events of other objects are
    skipped and nothing is read from a watcher after its first error
    event.  The store after the run and the writes of the run are those of
    these calls. *)
Theorem watch_feeder_calls (answers : list WatchAnswer) (t : DeploymentTracker)
    (ty : EventType) (o : Obs) (rest : list Event) :
  tracker (watchDeployments answers t) = tracker (processAll (watchedObs answers) t)
  ∧ List.filter isWrite (effects (watchDeployments answers t))
    = List.filter isWrite (effects (processAll (watchedObs answers) t))
  ∧ (ty ≠ Error →
     readObs ({| EventType_ := ty; EventObject := DeploymentObject o |} :: rest)
     = o :: readObs rest)
  ∧ readObs ({| EventType_ := ty; EventObject := OtherObject |} :: rest)
    = (if ty is Error then [] else readObs rest)
  ∧ readObs ({| EventType_ := Error; EventObject := DeploymentObject o |} :: rest) = [].
Proof.
  split; [apply watchDeployments_tracker|]. split; [apply writes_watchDeployments|].
  split; [|split].
  - destruct ty; try reflexivity. intros Hne. contradiction.
  - destruct ty; reflexivity.
  - reflexivity.
Qed.

(** X15 at a watcher that delivers a deletion of [prod/api] seen down: it
    is processed, and the record is made. *)
Lemma watch_feeder_calls_witness :
  readObs [ {| EventType_ := Deleted; EventObject := DeploymentObject (seenDown (seconds 10)) |} ]
  = [seenDown (seconds 10)].
Proof.
  refine (proj1 (proj2 (proj2 (watch_feeder_calls [] (newTracker true "") Deleted
                                 (seenDown (seconds 10)) []))) _).
  discriminate.
Defined.

(** X16. The poll feeder is a sequence of calls of [processDeployment]:
    one for each item of each list that did not fail, in order.  The store
    after the run and the writes of the run are those of these calls, and
    the only other effects are the lines logged for the failed lists. *)
Theorem poll_feeder_calls (ticks : list (Result (list Obs))) (t : DeploymentTracker) :
  tracker (periodicScrape ticks t) = tracker (processAll (polledObs ticks) t)
  ∧ List.filter isWrite (effects (periodicScrape ticks t))
    = List.filter isWrite (effects (processAll (polledObs ticks) t))
  ∧ length (List.filter (λ e, if e is Log (ErrorListingDeployments _) then true else false)
              (effects (periodicScrape ticks t)))
    = length (List.filter (λ tick, if tick is Err _ then true else false) ticks).
Proof.
  split; [apply periodicScrape_tracker|]. split; [apply writes_periodicScrape|].
  - revert t. induction ticks as [|tick ticks IH]; intros t; [reflexivity|].
    rewrite effects_periodicScrape_cons. destruct tick as [items|err].
    + rewrite List.filter_app, length_app, IH. simpl.
      rewrite filter_none; [reflexivity|].
      clear. revert t. induction items as [|o items IH]; intros t; [reflexivity|].
      rewrite effects_processAll_cons, forallb_app, IH, andb_true_r.
      unfold process. rewrite effects_processDeployment. unfold alwaysEffects.
      rewrite !forallb_app.
      assert (forallb (λ e, negb (if e is Log (ErrorListingDeployments _) then true else false))
                (map (conditionGauge (obsDeployment o)) (Conditions (obsDeployment o))) = true)
        as ->.
      { induction (Conditions (obsDeployment o)); [reflexivity|assumption]. }
      assert (forallb (λ e, negb (if e is Log (ErrorListingDeployments _) then true else false))
                (resourceEffects (obsEnv o) (obsDeployment o) t) = true) as ->.
      { unfold resourceEffects, collectResourceMetrics, effects.
        destruct (PodsList _ _ _) as [pods|err]; [|reflexivity].
        unfold bind, hasMetricsClient, Set_, emit; simpl.
        destruct (metricsClient t); [|reflexivity].
        destruct (PodMetricsList _ _ _) as [pms|err]; [|reflexivity].
        destruct (sumUsage _ pms) as [cpu mem]. unfold when.
        destruct (0 <? resource.MilliValue _ _), (0 <? resource.Value _ _); reflexivity. }
      unfold desiredGauge, ratioGauge, settleEffects, statusGauge.
      destruct (Replicas (obsDeployment o)), (isReady (obsDeployment o)),
        (downtimeStart t !! keyOf (obsDeployment o)); reflexivity.
    + simpl. rewrite IH. reflexivity.
Qed.

(** ** More on one call *)

(** X17. A ready observation of an entity that has no record changes
    nothing but gauges: the tracker is as it was and none of the
    transition metrics is written. *)
Theorem up_stays_up (env : Env) (d : Deployment) (t : DeploymentTracker) :
  isReady d = true →
  downtimeStart t !! keyOf d = None →
  tracker (processDeployment env d t) = t
  ∧ List.filter isTransitionWrite (effects (processDeployment env d t)) = []
  ∧ List.filter (writesMetric deploymentStatus) (effects (processDeployment env d t))
    = [GaugeSet deploymentStatus (labelsOf d) 1].
Proof.
  intros Hready Hnone.
  rewrite tracker_processDeployment, transition_writes, status_written_once.
  unfold nextStore, settleStore, settleEffects, statusGauge. rewrite Hready, Hnone.
  split; [apply setDowntimeStart_same|]. split; reflexivity.
Qed.

(** X17 at scenario A. *)
Lemma up_stays_up_witness :
  tracker (processDeployment (quietEnv 0) (api (Some 3) 3 0) (newTracker true ""))
  = newTracker true ""
  ∧ List.filter isTransitionWrite
      (effects (processDeployment (quietEnv 0) (api (Some 3) 3 0) (newTracker true ""))) = []
  ∧ List.filter (writesMetric deploymentStatus)
      (effects (processDeployment (quietEnv 0) (api (Some 3) 3 0) (newTracker true "")))
    = [GaugeSet deploymentStatus ["prod"; "api"] 1].
Proof.
  apply (up_stays_up (quietEnv 0) (api (Some 3) 3 0) (newTracker true "")); reflexivity.
Defined.

(** X18. A call touches the record of its own key only: the records of
    all other keys, the metrics client and the namespace of the tracker
    are as they were, and the record of its key after the call depends on
    the verdict and on the record before. *)
Theorem call_changes_own_key_only (env : Env) (d : Deployment) (t : DeploymentTracker)
    (key : string) :
  let t' := tracker (processDeployment env d t) in
  metricsClient t' = metricsClient t
  ∧ namespace t' = namespace t
  ∧ (key ≠ keyOf d → downtimeStart t' !! key = downtimeStart t !! key)
  ∧ downtimeStart t' !! keyOf d
    = (if isReady d then None
       else Some (default (Now env) (downtimeStart t !! keyOf d))).
Proof.
  cbv zeta. rewrite tracker_processDeployment. simpl.
  split; [reflexivity|]. split; [reflexivity|]. split.
  - intros Hne. rewrite nextStore_lookup, decide_False by congruence. reflexivity.
  - rewrite nextStore_lookup, decide_True by reflexivity. reflexivity.
Qed.

(** X18 at the record of [prod/web] across a call for [prod/api]. *)
Lemma call_changes_own_key_only_witness :
  let t := tracker (process (webDown (seconds 3)) (newTracker true "")) in
  downtimeStart (tracker (processDeployment (quietEnv (seconds 10)) (api (Some 3) 0 3) t))
  !! "prod/web" = Some (seconds 3).
Proof.
  intros t.
  rewrite (proj1 (proj2 (proj2 (call_changes_own_key_only (quietEnv (seconds 10))
                                  (api (Some 3) 0 3) t "prod/web")))).
  - reflexivity.
  - discriminate.
Defined.

Lemma quot_floor (a b : Z) :
  0 <= a → 0 < b →
  (inject_Z (a `quot` b) <= inject_Z a / inject_Z b)%Q
  ∧ (inject_Z a / inject_Z b < inject_Z (a `quot` b + 1))%Q.
Proof.
  intros Ha Hb. rewrite Z.quot_div_nonneg by lia.
  assert (0 < inject_Z b)%Q as Hq.
  { change 0%Q with (inject_Z 0). rewrite <- Zlt_Qlt. exact Hb. }
  pose proof (Z.mul_div_le a b Hb). pose proof (Z.mul_succ_div_gt a b Hb).
  split.
  - apply Qle_shift_div_l; [exact Hq|].
    rewrite <- inject_Z_mult, <- Zle_Qle. lia.
  - apply Qlt_shift_div_r; [exact Hq|].
    rewrite <- inject_Z_mult, <- Zlt_Qlt. lia.
Qed.

(** The duration gauge times 1000 can be below the millisecond gauge:
    for an outage of 1.001 s the [float64] of the seconds is just below
    1.001 while the milliseconds are 1001. *)
Example duration_below_milliseconds :
  (time.Seconds 1001000000%Z * 1000 < float64 (time.Milliseconds 1001000000%Z))%Q.
Proof. vm_compute. reflexivity. Qed.

(** X19. The two gauges of a recovery measure the same elapsed time.
    When the clock has not gone back since the record was made and the
    elapsed time fits a [Duration], neither gauge is negative, and the
    downtime duration in seconds, times 1000, lies between the recovery
    time in milliseconds and that time plus one, up to the relative error
    of 2^-52 of the [float64] of the seconds. *)
Theorem recovery_gauges_agree (env : Env) (d : Deployment) (t : DeploymentTracker)
    (T1 : time.Time) :
  isReady d = true →
  downtimeStart t !! keyOf d = Some T1 →
  T1 <= Now env < T1 + 2 ^ 63 →
  ∃ (s : Q) (ms : Z),
    GaugeSet deploymentDowntimeDuration (labelsOf d) s ∈ effects (processDeployment env d t)
    ∧ GaugeSet deploymentRecoveryTimeMs (labelsOf d) (float64 ms)
      ∈ effects (processDeployment env d t)
    ∧ 0 <= ms
    ∧ (0 <= s)%Q
    ∧ (float64 ms * (1 - (1 # 4503599627370496)) <= s * 1000)%Q
    ∧ (s * 1000 < float64 (ms + 1) * (1 + (1 # 4503599627370496)))%Q.
Proof.
  intros Hready Hrecord Hclock.
  exists (time.Seconds (Now env - T1)), ((Now env - T1) `quot` 1000000).
  rewrite effects_processDeployment. unfold settleEffects. rewrite Hready, Hrecord.
  split; [|split].
  - apply elem_of_app. right. do 2 apply list_elem_of_further. apply list_elem_of_here.
  - apply elem_of_app. right. do 3 apply list_elem_of_further. apply list_elem_of_here.
  - assert (0 <= Now env - T1 < 2 ^ 63) as Hd by lia.
    split; [apply Z.quot_pos; lia|].
    split; [apply Seconds_nonneg; lia|].
    pose proof (Seconds_accuracy _ Hd) as Hnear.
    destruct (quot_floor (Now env - T1) 1000000) as [Hlow Hhigh]; [lia|lia|].
    assert (0 <= (Now env - T1) `quot` 1000000) as Hms by (apply Z.quot_pos; lia).
    rewrite (Zle_Qle 0) in Hms. change (inject_Z 0) with 0%Q in Hms.
    rewrite inject_Z_plus in *. change (inject_Z 1) with 1%Q in *.
    unfold float64, time.Second in *.
    revert Hnear Hlow Hhigh Hms.
    generalize (time.Seconds (Now env - T1)), (inject_Z ((Now env - T1) `quot` 1000000)).
    intros s ms Hnear Hlow Hhigh Hms.
    assert (inject_Z (Now env - T1) / inject_Z 1000000
            == inject_Z (Now env - T1) / inject_Z 1000000000 * 1000)%Q as Hunit.
    { change (inject_Z 1000000000) with (inject_Z 1000000 * 1000)%Q.
      field; repeat split; discriminate. }
    rewrite Hunit in Hlow, Hhigh. clear Hunit.
    revert Hnear Hlow Hhigh.
    generalize (inject_Z (Now env - T1) / inject_Z 1000000000)%Q.
    intros x [Hnear1 Hnear2]%Qabs_Qle_condition Hlow Hhigh.
    split; lra.
Qed.

(** X19 for an outage of 1.001 s: the duration gauge is just below 1.001
    and the recovery time is 1001 ms. *)
Lemma recovery_gauges_agree_witness :
  let t := tracker (process (seenDown (seconds 10)) (newTracker true "")) in
  ∃ (s : Q) (ms : Z),
    GaugeSet deploymentDowntimeDuration ["prod"; "api"] s
    ∈ effects (processDeployment (quietEnv 11001000000) (api (Some 3) 3 0) t)
    ∧ GaugeSet deploymentRecoveryTimeMs ["prod"; "api"] (float64 ms)
      ∈ effects (processDeployment (quietEnv 11001000000) (api (Some 3) 3 0) t)
    ∧ 0 <= ms
    ∧ (0 <= s)%Q
    ∧ (float64 ms * (1 - (1 # 4503599627370496)) <= s * 1000)%Q
    ∧ (s * 1000 < float64 (ms + 1) * (1 + (1 # 4503599627370496)))%Q.
Proof.
  intros t.
  refine (recovery_gauges_agree (quietEnv 11001000000) (api (Some 3) 3 0) t (seconds 10)
            eq_refl eq_refl _).
  vm_compute. split; [discriminate|reflexivity].
Defined.

(** ** Startup *)

Lemma append_not_empty s1 s2 : s2 ≠ "" → s1 +:+ s2 ≠ "".
Proof.
  intros Hs2. destruct s1 as [|c s1]; [exact Hs2|].
  rewrite append_cons. discriminate.
Qed.

Lemma getKubeConfig_flag {Config : Type} (host : Host Config) (flag : string) :
  flag ≠ "" →
  getKubeConfig host flag = (BuildConfigFromFlags host "" flag, [BuiltFrom "" flag]).
Proof.
  intros Hflag. unfold getKubeConfig.
  destruct (decide (flag = "")) as [|_]; [contradiction|].
  destruct (decide (flag = "")) as [|_]; [contradiction|]. reflexivity.
Qed.

Lemma getKubeConfig_no_flag {Config : Type} (host : Host Config) :
  getKubeConfig host ""
  = match InClusterConfig host with
    | Ok config => (Ok config, [TriedInCluster])
    | Err _ =>
      let path := if decide (Getenv host "KUBECONFIG" = "")
                  then homeDirOf host +:+ "/.kube/config"
                  else Getenv host "KUBECONFIG" in
      (BuildConfigFromFlags host "" path,
       [TriedInCluster; LoggedInClusterFailed; BuiltFrom "" path])
    end.
Proof.
  unfold getKubeConfig. rewrite !decide_True by reflexivity.
  destruct (InClusterConfig host); reflexivity.
Qed.

(** X20. How the configuration is found.  A kubeconfig path given on the
    command line is used as it is and the in-cluster configuration is not
    tried.  Without one, a working in-cluster configuration is used;
    failing that, the file named by [KUBECONFIG], or [.kube/config] under
    the home directory when that variable is empty.  The path handed to
    the loader is never empty, even when the home directory is unknown. *)
Theorem kubeconfig_resolution {Config : Type} (host : Host Config) (flag : string) :
  let result := (getKubeConfig host flag).1 in
  let events := (getKubeConfig host flag).2 in
  (flag ≠ "" →
   result = BuildConfigFromFlags host "" flag ∧ events = [BuiltFrom "" flag])
  ∧ (flag = "" → ∀ config, InClusterConfig host = Ok config →
     result = Ok config ∧ events = [TriedInCluster])
  ∧ (flag = "" → ∀ err, InClusterConfig host = Err err →
     let path := if decide (Getenv host "KUBECONFIG" = "")
                 then homeDirOf host +:+ "/.kube/config"
                 else Getenv host "KUBECONFIG" in
     result = BuildConfigFromFlags host "" path
     ∧ events = [TriedInCluster; LoggedInClusterFailed; BuiltFrom "" path])
  ∧ (∀ url path, BuiltFrom url path ∈ events → url = "" ∧ path ≠ "").
Proof.
  cbv zeta. split; [|split; [|split]].
  - intros Hflag. rewrite getKubeConfig_flag by exact Hflag. split; reflexivity.
  - intros -> config Hin. rewrite getKubeConfig_no_flag, Hin. split; reflexivity.
  - intros -> err Hin. rewrite getKubeConfig_no_flag, Hin. split; reflexivity.
  - intros url path. destruct (decide (flag = "")) as [->|Hflag].
    + rewrite getKubeConfig_no_flag.
      destruct (InClusterConfig host) as [config|err]; simpl.
      * intros [[=]|Hin%elem_of_nil]%elem_of_cons. contradiction.
      * intros Hin.
        apply elem_of_cons in Hin as [[=]|Hin].
        apply elem_of_cons in Hin as [[=]|Hin].
        apply elem_of_cons in Hin as [[= -> ->]|Hin%elem_of_nil]; [|contradiction].
        split; [reflexivity|].
        destruct (decide (Getenv host "KUBECONFIG" = "")) as [_|Henv];
          [apply append_not_empty; discriminate|exact Henv].
    + rewrite getKubeConfig_flag by exact Hflag. simpl.
      intros [[= -> ->]|Hin%elem_of_nil]%elem_of_cons; [|contradiction].
      split; [reflexivity|exact Hflag].
Qed.

(** X20 on a host outside a cluster, with no flag and no [KUBECONFIG]. *)
Lemma kubeconfig_resolution_witness :
  (getKubeConfig laptop "").1 = Ok "laptop"
  ∧ (getKubeConfig laptop "").2
    = [TriedInCluster; LoggedInClusterFailed; BuiltFrom "" "/root/.kube/config"].
Proof.
  refine (proj1 (proj2 (proj2 (kubeconfig_resolution laptop ""))) eq_refl
            "not in a cluster" eq_refl).
Defined.

Lemma metricsClient_processAll obs t :
  metricsClient (tracker (processAll obs t)) = metricsClient t.
Proof.
  revert t. induction obs as [|o obs IH]; intros t; [reflexivity|].
  rewrite tracker_processAll_cons, IH. unfold process.
  rewrite tracker_processDeployment. reflexivity.
Qed.

Lemma filter_writes_isWrite (m : string) es :
  List.filter (writesMetric m) es = List.filter (writesMetric m) (List.filter isWrite es).
Proof.
  induction es as [|e es IH]; [reflexivity|].
  destruct e; simpl; rewrite ?IH; reflexivity.
Qed.

Lemma usage_is_resource (m : string) : m ∈ usageMetrics → m ∈ resourceMetrics.
Proof.
  intros Hm.
  repeat (apply elem_of_cons in Hm as [->|Hm]; [by_evaluation|]).
  apply elem_of_nil in Hm. contradiction.
Qed.

Lemma no_usage_process (m : string) o t :
  metricsClient t = false →
  m ∈ usageMetrics →
  List.filter (writesMetric m) (effects (process o t)) = [].
Proof.
  intros Hclient Hm. unfold process.
  rewrite resource_writes by (apply usage_is_resource, Hm).
  unfold resourceEffects, collectResourceMetrics, effects.
  destruct (PodsList _ _ _) as [pods|err]; [|reflexivity].
  unfold bind, hasMetricsClient, Set_, emit; simpl. rewrite Hclient.
  repeat (apply elem_of_cons in Hm as [->|Hm]; [reflexivity|]).
  apply elem_of_nil in Hm. contradiction.
Qed.

Lemma no_usage_processAll (m : string) obs t :
  metricsClient t = false →
  m ∈ usageMetrics →
  List.filter (writesMetric m) (effects (processAll obs t)) = [].
Proof.
  intros Hclient Hm. revert t Hclient.
  induction obs as [|o obs IH]; intros t Hclient; [reflexivity|].
  rewrite effects_processAll_cons, List.filter_app, no_usage_process by assumption.
  apply IH. unfold process. rewrite tracker_processDeployment. exact Hclient.
Qed.

(** X21. A missing metrics client is not fatal and silences the usage
    gauges for good.  When the configuration and the clientset are there
    but the metrics client cannot be made, [main] logs a warning and
    starts both feeders on a new tracker without metrics client; from
    then on no run of either feeder writes a usage or usage-percentage
    gauge. *)
Theorem serving_without_metrics_client {Config : Type} (host : Host Config) (flags : Flags)
    (config : Config) (err : string) (answers : list WatchAnswer)
    (ticks : list (Result (list Obs))) (m : string) :
  (getKubeConfig host (kubeconfig flags)).1 = Ok config →
  NewForConfig host config = Ok tt →
  NewMetricsForConfig host config = Err err →
  m ∈ usageMetrics →
  ∃ t interval addr events,
    main host flags = Serving t interval addr events
    ∧ metricsClient t = false
    ∧ downtimeStart t = ∅
    ∧ LoggedMetricsClientWarning err ∈ events
    ∧ List.filter (writesMetric m) (effects (watchDeployments answers t)) = []
    ∧ List.filter (writesMetric m) (effects (periodicScrape ticks t)) = [].
Proof.
  intros Hconfig Hclient Hmetrics Hm. unfold main.
  destruct (getKubeConfig host (kubeconfig flags)) as [result events]. simpl in Hconfig.
  subst result. rewrite Hclient, Hmetrics.
  eexists _, _, _, _. split; [reflexivity|].
  split; [reflexivity|]. split; [reflexivity|]. split.
  { apply elem_of_app. right. apply list_elem_of_here. }
  split.
  - rewrite filter_writes_isWrite, writes_watchDeployments, <- filter_writes_isWrite.
    apply no_usage_processAll; [reflexivity|exact Hm].
  - rewrite filter_writes_isWrite, writes_periodicScrape, <- filter_writes_isWrite.
    apply no_usage_processAll; [reflexivity|exact Hm].
Qed.

(** X21 on the laptop, whose cluster serves no metrics API, with a poll
    tick that lists [prod/api] in a cluster that has usage figures. *)
Lemma serving_without_metrics_client_witness :
  ∃ t interval addr events,
    main laptop defaultFlags = Serving t interval addr events
    ∧ metricsClient t = false
    ∧ downtimeStart t = ∅
    ∧ LoggedMetricsClientWarning "metrics API not served" ∈ events
    ∧ List.filter (writesMetric deploymentCPUUsage) (effects (watchDeployments [] t)) = []
    ∧ List.filter (writesMetric deploymentCPUUsage)
        (effects (periodicScrape
                    [Ok [ {| obsEnv := busyEnv 0; obsDeployment := api (Some 3) 3 0 |} ]] t))
      = [].
Proof.
  refine (serving_without_metrics_client laptop defaultFlags "laptop"
            "metrics API not served" [] _ deploymentCPUUsage eq_refl eq_refl eq_refl _).
  by_evaluation.
Defined.

(** X22. The poll interval.  [main] gives the poll feeder the scrape
    interval in seconds as an [int64] number of nanoseconds.  For 1 to
    9223372036 seconds it is that many seconds and the ticker is made; for
    0 or a negative number of seconds, down to -9223372036, making the
    ticker panics. *)
Theorem poll_interval {Config : Type} (host : Host Config) (flags : Flags)
    (t : DeploymentTracker) (interval : time.Duration) (addr : string)
    (events : list StartupEvent) (ticks : list (Result (list Obs))) :
  main host flags = Serving t interval addr events →
  let n := scrapeInterval flags in
  (1 <= n <= 9223372036 →
   interval = n * time.Second
   ∧ periodicScrapeEvery interval ticks = Some (periodicScrape ticks))
  ∧ (- 9223372036 <= n <= 0 → periodicScrapeEvery interval ticks = None).
Proof.
  unfold main.
  destruct (getKubeConfig host (kubeconfig flags)) as [[config|err] events0]; [|discriminate].
  destruct (NewForConfig host config); [|discriminate].
  destruct (NewMetricsForConfig host config); intros [= _ <- _ _]; cbv zeta;
    unfold periodicScrapeEvery, NewTicker, scrapeDuration, time.Second; split; intros Hn.
  - rewrite wrap64_id by lia. split; [reflexivity|].
    rewrite (proj2 (Z.ltb_lt _ _)) by lia. reflexivity.
  - rewrite wrap64_id by lia. rewrite (proj2 (Z.ltb_ge _ _)) by lia. reflexivity.
  - rewrite wrap64_id by lia. split; [reflexivity|].
    rewrite (proj2 (Z.ltb_lt _ _)) by lia. reflexivity.
  - rewrite wrap64_id by lia. rewrite (proj2 (Z.ltb_ge _ _)) by lia. reflexivity.
Qed.

(** X22 at the default of 15 seconds. *)
Lemma poll_interval_witness :
  ∃ t addr events,
    main laptop defaultFlags = Serving t 15000000000 addr events
    ∧ periodicScrapeEvery 15000000000 [] = Some (periodicScrape []).
Proof.
  eexists _, _, _. split; [reflexivity|].
  refine (proj2 (proj1 (poll_interval laptop defaultFlags _ 15000000000 _ _ [] eq_refl) _)).
  simpl. lia.
Defined.
